(** * Gigatag-Generator: the graph-data build and the renderer's life cycle

    A shallow embedding of [GraphRenderer] (GraphRenderer.ts, both revisions
    kept in the repository) : the records of the data model, the JavaScript
    containers the class works on, [createUntaggedGroups],
    [generateGraphData], and the renderer handle with the simulation timer
    and the resize observer it registers. *)

From stdpp Require Import base strings list gmap pretty.
From Stdlib Require Import Ascii QArith.

Local Open Scope nat_scope.

(** ** JavaScript built-ins used by the class *)

(** [s.replace(/\.md$/, '')]: a final ".md" is cut off, anything else is
    left as it is. *)
Definition stripMd (s : string) : string :=
  let n := String.length s in
  if (3 <=? n) && String.eqb (String.substring (n - 3) 3 s) ".md"
  then String.substring 0 (n - 3) s
  else s.

(** A [Record<string, V>] or [Map<string, V>] that the code iterates is an
    association list in iteration order; [obj[k]] and [map.get(k)] read the
    entry of key [k]. *)
Fixpoint getEntry {V : Type} (k : string) (m : list (string * V)) : option V :=
  match m with
  | [] => None
  | (k', v) :: m' => if decide (k' = k) then Some v else getEntry k m'
  end.

(** [set.add(x)] on a [Set<string>] kept in insertion order. *)
Definition setAdd (x : string) (s : list string) : list string :=
  if decide (x ∈ s) then s else s ++ [x].

(** [a || b] on two [Map.get] results: objects are truthy, [undefined] is not. *)
Definition orElse {A : Type} (a b : option A) : option A :=
  match a with
  | Some x => Some x
  | None => b
  end.

(** [Array.prototype.find]. *)
Fixpoint find {A : Type} (p : A → bool) (l : list A) : option A :=
  match l with
  | [] => None
  | x :: l' => if p x then Some x else find p l'
  end.

(** [Array.prototype.sort(cmp)] is stable: an element moves in front of
    another one only when [cmp] is negative on them. *)
Fixpoint sortInsert {A : Type} (cmp : A → A → Z) (x : A) (l : list A) : list A :=
  match l with
  | [] => [x]
  | y :: l' => if (cmp x y <? 0)%Z then x :: y :: l' else y :: sortInsert cmp x l'
  end.

Definition sort {A : Type} (cmp : A → A → Z) (l : list A) : list A :=
  foldl (λ acc x, sortInsert cmp x acc) [] l.

(** ** Data model (the interfaces of GraphRenderer.ts) *)

Record GraphNode := {
  node_id : string;
  node_name : string;
  node_path : string;
  node_radius : nat;
  node_isSelected : bool;
  node_color : string
}.

Inductive LinkType := WikiLink | TagLink.

Record GraphLink := {
  link_source : GraphNode;
  link_target : GraphNode;
  link_type : LinkType;
  link_tag : option string
}.

Record GraphTag := {
  tag_name : string;
  tag_color : string;
  tag_files : list string
}.

Record GraphSettings := {
  gravity : Q;
  repelling : Q;
  linkDistance : Q;
  charge : Q;
  centerStrength : Q;
  showTagConnections : bool
}.

Record FileSummary := {
  file : string;
  content : string;
  links : list string
}.

#[global] Instance GraphNode_eq_dec : EqDecision GraphNode.
Proof. solve_decision. Defined.
#[global] Instance LinkType_eq_dec : EqDecision LinkType.
Proof. solve_decision. Defined.
#[global] Instance GraphLink_eq_dec : EqDecision GraphLink.
Proof. solve_decision. Defined.

(** [allData], [tags] and [selectedNodes] in their iteration order. *)
Abbreviation Corpus := (list (string * FileSummary)).
Abbreviation TagIndex := (list (string * GraphTag)).
Abbreviation Selection := (list string).

(** ** createUntaggedGroups *)

(** The [Map<number, string[]>] of groups, in insertion order. *)
Abbreviation Groups := (list (nat * list string)).

Definition groupsHas (groups : Groups) (groupId : nat) : bool :=
  existsb (λ g, g.1 =? groupId) groups.

(** [groups.get(groupId)!.push(f)] *)
Definition groupsPush (groupId : nat) (f : string) (groups : Groups) : Groups :=
  (λ g, if g.1 =? groupId then (g.1, g.2 ++ [f]) else g) <$> groups.

Definition groupSize : nat := 3.

(** The body of the [for] loop, from index [i] on. *)
Fixpoint createUntaggedGroups_from (i : nat) (rest : list string) (groups : Groups)
  : Groups :=
  match rest with
  | [] => groups
  | f :: rest' =>
      let groupId := i / groupSize + 1 in
      let groups1 :=
        if groupsHas groups groupId then groups else groups ++ [(groupId, [])] in
      createUntaggedGroups_from (S i) rest' (groupsPush groupId f groups1)
  end.

Definition createUntaggedGroups (untaggedFiles : list string) : Groups :=
  createUntaggedGroups_from 0 untaggedFiles [].

(** ** generateGraphData (current revision) *)

(** First pass: the tags of each selected file, and per tag the selected
    files that carry it. *)
Record TagPass := {
  fileTags : gmap string (list string);
  tagGroups : gmap string (list string);
  untaggedFiles : list string
}.

(** [if (!tagGroups.has(t)) tagGroups.set(t, []); tagGroups.get(t)!.push(path)] *)
Definition tagGroupsPush (tagName path : string) (tg : gmap string (list string))
  : gmap string (list string) :=
  let tg1 := match tg !! tagName with
             | Some _ => tg
             | None => <[tagName := []]> tg
             end in
  alter (λ fs, fs ++ [path]) tagName tg1.

(** The [this.tags.forEach] of the first pass, for one [path]. *)
Definition collectTags (tags : TagIndex) (path : string)
    (tg : gmap string (list string)) : list string * gmap string (list string) :=
  foldl (λ acc e,
           if decide (path ∈ tag_files e.2)
           then (setAdd e.1 acc.1, tagGroupsPush e.1 path acc.2)
           else acc)
        ([], tg) tags.

Definition tagPassStep (allData : Corpus) (tags : TagIndex) (st : TagPass)
    (path : string) : TagPass :=
  match getEntry path allData with
  | None => st
  | Some _ =>
      let r := collectTags tags path (tagGroups st) in
      {| fileTags := <[path := r.1]> (fileTags st);
         tagGroups := r.2;
         untaggedFiles :=
           if length r.1 =? 0 then untaggedFiles st ++ [path] else untaggedFiles st |}
  end.

Definition tagPass (allData : Corpus) (tags : TagIndex) (selectedNodes : Selection)
  : TagPass :=
  foldl (tagPassStep allData tags)
        {| fileTags := ∅; tagGroups := ∅; untaggedFiles := [] |} selectedNodes.

(** [tagGroups.get(t)?.length || 0] *)
Definition groupCount (tg : gmap string (list string)) (t : string) : nat :=
  match tg !! t with
  | Some fs => length fs
  | None => 0
  end.

(** The comparator of [sortedTags]: [bCount - aCount]. *)
Definition byCountDesc (tg : gmap string (list string)) (a b : string) : Z :=
  (Z.of_nat (groupCount tg b) - Z.of_nat (groupCount tg a))%Z.

(** The [untaggedGroups.forEach] that looks for the group of [path]. *)
Definition untaggedColor (untaggedGroups : Groups) (path : string) : string :=
  let r := foldl (λ acc g,
                    if decide (path ∈ g.2)
                    then ("untagged-group-" +:+ pretty g.1, true)
                    else acc)
                 ("", false) untaggedGroups in
  if r.2 then r.1 else "untagged-group-1".

Definition nodeColorOf (tags : TagIndex) (tg : gmap string (list string))
    (untaggedGroups : Groups) (fileTagsOfPath : list string) (path : string) : string :=
  if 0 <? length fileTagsOfPath then
    match sort (byCountDesc tg) fileTagsOfPath with
    | t :: _ =>
        match getEntry t tags with
        | Some primaryTag => tag_color primaryTag
        | None => "untagged-group-1"
        end
    | [] => "untagged-group-1"
    end
  else untaggedColor untaggedGroups path.

(** The node literal of the second pass. *)
Definition newNode (tags : TagIndex) (tp : TagPass) (untaggedGroups : Groups)
    (path : string) (fileSummary : FileSummary) : GraphNode :=
  {| node_id := file fileSummary;
     node_name := file fileSummary;
     node_path := path;
     node_radius := 12;
     node_isSelected := true;
     node_color :=
       nodeColorOf tags (tagGroups tp) untaggedGroups
         (default [] (fileTags tp !! path)) path |}.

(** Second pass: one node per selected path that the corpus knows. *)
Definition nodePassStep (allData : Corpus) (tags : TagIndex) (tp : TagPass)
    (untaggedGroups : Groups) (acc : list GraphNode * gmap string GraphNode)
    (path : string) : list GraphNode * gmap string GraphNode :=
  match getEntry path allData with
  | None => acc
  | Some fileSummary =>
      let node := newNode tags tp untaggedGroups path fileSummary in
      (acc.1 ++ [node], <[path := node]> (<[file fileSummary := node]> acc.2))
  end.

Definition nodePass (allData : Corpus) (tags : TagIndex) (tp : TagPass)
    (untaggedGroups : Groups) (selectedNodes : Selection)
  : list GraphNode * gmap string GraphNode :=
  foldl (nodePassStep allData tags tp untaggedGroups) ([], ∅) selectedNodes.

(** [this.links.some(l => ...)]: an edge on the same pair of ids, in either
    direction. *)
Definition linkExists (ls : list GraphLink) (sourceNode targetNode : GraphNode) : bool :=
  existsb (λ l,
             (String.eqb (node_id (link_source l)) (node_id sourceNode)
              && String.eqb (node_id (link_target l)) (node_id targetNode))
             || (String.eqb (node_id (link_source l)) (node_id targetNode)
                 && String.eqb (node_id (link_target l)) (node_id sourceNode)))
          ls.

(** The guarded [this.links.push] shared by both kinds of edge. *)
Definition pushLink (ls : list GraphLink) (l : GraphLink) : list GraphLink :=
  if decide (node_id (link_source l) ≠ node_id (link_target l)) then
    if linkExists ls (link_source l) (link_target l) then ls else ls ++ [l]
  else ls.

(** [Object.entries(this.allData).find(...)] for a normalized link. *)
Definition findTarget (allData : Corpus) (normalizedLink : string)
  : option (string * FileSummary) :=
  find (λ e, String.eqb (file e.2) normalizedLink
             || String.eqb e.1 normalizedLink
             || String.eqb (stripMd e.1) normalizedLink) allData.

(** One outbound link of the source document. *)
Definition wikiLinkStep (allData : Corpus) (selectedNodes : Selection)
    (nodeMap : gmap string GraphNode) (sourceNode : GraphNode)
    (ls : list GraphLink) (link : string) : list GraphLink :=
  match findTarget allData (stripMd link) with
  | Some (targetPath, targetFile) =>
      if decide (targetPath ∈ selectedNodes) then
        match orElse (nodeMap !! file targetFile) (nodeMap !! targetPath) with
        | Some targetNode =>
            pushLink ls {| link_source := sourceNode; link_target := targetNode;
                           link_type := WikiLink; link_tag := None |}
        | None => ls
        end
      else ls
  | None => ls
  end.

(** One member [targetPath] of a tag of the source document. *)
Definition tagLinkStep (selectedNodes : Selection) (nodeMap : gmap string GraphNode)
    (path : string) (sourceNode : GraphNode) (tag : string)
    (ls : list GraphLink) (targetPath : string) : list GraphLink :=
  if decide (targetPath ≠ path ∧ targetPath ∈ selectedNodes) then
    match nodeMap !! targetPath with
    | Some targetNode =>
        pushLink ls {| link_source := sourceNode; link_target := targetNode;
                       link_type := TagLink; link_tag := Some tag |}
    | None => ls
    end
  else ls.

Definition tagLinks (tags : TagIndex) (selectedNodes : Selection)
    (nodeMap : gmap string GraphNode) (path : string) (sourceNode : GraphNode)
    (ls : list GraphLink) (tag : string) : list GraphLink :=
  match getEntry tag tags with
  | Some tagData =>
      foldl (tagLinkStep selectedNodes nodeMap path sourceNode tag) ls (tag_files tagData)
  | None => ls
  end.

(** Third pass, for one selected [path]: its wiki links, then its tag links. *)
Definition linkPassStep (allData : Corpus) (tags : TagIndex) (settings : GraphSettings)
    (selectedNodes : Selection) (tp : TagPass) (nodeMap : gmap string GraphNode)
    (ls : list GraphLink) (path : string) : list GraphLink :=
  match getEntry path allData with
  | None => ls
  | Some fileSummary =>
      match orElse (nodeMap !! file fileSummary) (nodeMap !! path) with
      | None => ls
      | Some sourceNode =>
          let ls1 := foldl (wikiLinkStep allData selectedNodes nodeMap sourceNode)
                           ls (links fileSummary) in
          if showTagConnections settings then
            foldl (tagLinks tags selectedNodes nodeMap path sourceNode)
                  ls1 (default [] (fileTags tp !! path))
          else ls1
      end
  end.

Definition linkPass (allData : Corpus) (tags : TagIndex) (settings : GraphSettings)
    (selectedNodes : Selection) (tp : TagPass) (nodeMap : gmap string GraphNode)
  : list GraphLink :=
  foldl (linkPassStep allData tags settings selectedNodes tp nodeMap) [] selectedNodes.

(** [generateGraphData]: the [nodes] and [links] it leaves in the renderer. *)
Definition generateGraphData (allData : Corpus) (selectedNodes : Selection)
    (tags : TagIndex) (settings : GraphSettings)
  : list GraphNode * list GraphLink :=
  if length selectedNodes =? 0 then ([], [])
  else
    let tp := tagPass allData tags selectedNodes in
    let untaggedGroups := createUntaggedGroups (untaggedFiles tp) in
    let np := nodePass allData tags tp untaggedGroups selectedNodes in
    (np.1, linkPass allData tags settings selectedNodes tp np.2).

(** ** The edges the third pass attempts, as a list

    Each branch of the third pass ends in the same guarded push, so the
    pass is a fold of [pushLink] over the edges it attempts, in the order
    it attempts them. *)

Definition wikiCandidate (allData : Corpus) (selectedNodes : Selection)
    (nodeMap : gmap string GraphNode) (sourceNode : GraphNode) (link : string)
  : option GraphLink :=
  match findTarget allData (stripMd link) with
  | Some (targetPath, targetFile) =>
      if decide (targetPath ∈ selectedNodes) then
        match orElse (nodeMap !! file targetFile) (nodeMap !! targetPath) with
        | Some targetNode =>
            Some {| link_source := sourceNode; link_target := targetNode;
                    link_type := WikiLink; link_tag := None |}
        | None => None
        end
      else None
  | None => None
  end.

Definition tagCandidate (selectedNodes : Selection) (nodeMap : gmap string GraphNode)
    (path : string) (sourceNode : GraphNode) (tag : string) (targetPath : string)
  : option GraphLink :=
  if decide (targetPath ≠ path ∧ targetPath ∈ selectedNodes) then
    match nodeMap !! targetPath with
    | Some targetNode =>
        Some {| link_source := sourceNode; link_target := targetNode;
                link_type := TagLink; link_tag := Some tag |}
    | None => None
    end
  else None.

Definition tagCandidates (tags : TagIndex) (selectedNodes : Selection)
    (nodeMap : gmap string GraphNode) (path : string) (sourceNode : GraphNode)
    (tag : string) : list GraphLink :=
  match getEntry tag tags with
  | Some tagData =>
      omap (tagCandidate selectedNodes nodeMap path sourceNode tag) (tag_files tagData)
  | None => []
  end.

Definition pathCandidates (allData : Corpus) (tags : TagIndex) (settings : GraphSettings)
    (selectedNodes : Selection) (tp : TagPass) (nodeMap : gmap string GraphNode)
    (path : string) : list GraphLink :=
  match getEntry path allData with
  | None => []
  | Some fileSummary =>
      match orElse (nodeMap !! file fileSummary) (nodeMap !! path) with
      | None => []
      | Some sourceNode =>
          omap (wikiCandidate allData selectedNodes nodeMap sourceNode) (links fileSummary)
          ++ (if showTagConnections settings
              then default [] (fileTags tp !! path)
                     ≫= tagCandidates tags selectedNodes nodeMap path sourceNode
              else [])
      end
  end.

(** All the edges one build attempts, in order. *)
Definition attemptedLinks (allData : Corpus) (selectedNodes : Selection)
    (tags : TagIndex) (settings : GraphSettings) : list GraphLink :=
  let tp := tagPass allData tags selectedNodes in
  let untaggedGroups := createUntaggedGroups (untaggedFiles tp) in
  let np := nodePass allData tags tp untaggedGroups selectedNodes in
  selectedNodes ≫= pathCandidates allData tags settings selectedNodes tp np.2.

(** A node the node map holds under some key. *)
Definition fromMap (nodeMap : gmap string GraphNode) (n : GraphNode) : Prop :=
  ∃ k, nodeMap !! k = Some n.

(** Two edges join the same unordered pair of node ids. *)
Definition samePair (l1 l2 : GraphLink) : Prop :=
  (node_id (link_source l1) = node_id (link_source l2)
   ∧ node_id (link_target l1) = node_id (link_target l2))
  ∨ (node_id (link_source l1) = node_id (link_target l2)
     ∧ node_id (link_target l1) = node_id (link_source l2)).

Definition selfEdge (l : GraphLink) : Prop :=
  node_id (link_source l) = node_id (link_target l).

(** No self-edge, and no two edges on the same unordered pair of ids. *)
Fixpoint pairwiseDistinct (ls : list GraphLink) : Prop :=
  match ls with
  | [] => True
  | l :: ls' => (∀ l', l' ∈ ls' → ¬ samePair l l') ∧ pairwiseDistinct ls'
  end.

Definition linksOk (ls : list GraphLink) : Prop :=
  Forall (λ l, ¬ selfEdge l) ls ∧ pairwiseDistinct ls.


(** ** Tag membership, read off the inputs *)

(** The names the first pass collects for [path]: the tags that list it, in
    the order of the tag index. *)
Definition tagNamesOf (tags : TagIndex) (path : string) : list string :=
  foldl (λ acc e, if decide (path ∈ tag_files e.2) then setAdd e.1 acc else acc) [] tags.

(** No tag of the index lists [path]. *)
Definition untagged (tags : TagIndex) (path : string) : Prop :=
  Forall (λ e, path ∉ tag_files e.2) tags.

#[global] Instance untagged_dec tags path : Decision (untagged tags path).
Proof. unfold untagged. apply _. Defined.

(** The tags that list [path], in the order of the tag index. *)
Definition memberships (tags : TagIndex) (path : string) : TagIndex :=
  filter (λ e, path ∈ tag_files e.2) tags.

(** The selected documents of the corpus, in selection order. *)
Definition selectedDocuments (allData : Corpus) (selectedNodes : Selection) : list string :=
  filter (λ p, is_Some (getEntry p allData)) selectedNodes.

(** Those of them that no tag lists. *)
Definition untaggedSelected (allData : Corpus) (tags : TagIndex)
    (selectedNodes : Selection) : list string :=
  filter (untagged tags) (selectedDocuments allData selectedNodes).

(** The population of a tag in one build: the selected documents it lists. *)
Definition selectedMembers (allData : Corpus) (selectedNodes : Selection)
    (tag : GraphTag) : list string :=
  filter (λ p, p ∈ tag_files tag) (selectedDocuments allData selectedNodes).

(** What the loop of [createUntaggedGroups] keeps true of the groups built
    from the files [pre] read so far: the group ids are distinct, a file of
    group [k] stands at an index [j] with [j / 3 + 1 = k], and every file
    read is in the group of its index. *)
Definition groupsOf (pre : list string) (groups : Groups) : Prop :=
  NoDup groups.*1
  ∧ (∀ k files p, (k, files) ∈ groups → p ∈ files
       → ∃ j, pre !! j = Some p ∧ j / groupSize + 1 = k)
  ∧ (∀ j p, pre !! j = Some p
       → ∃ files, (j / groupSize + 1, files) ∈ groups ∧ p ∈ files).

(** ** Editing the outbound links of one document *)

Definition withLinks (fileSummary : FileSummary) (ls : list string) : FileSummary :=
  {| file := file fileSummary; content := content fileSummary; links := ls |}.

(** The corpus with the outbound links of [path] replaced by [ls]. *)
Definition setLinks (path : string) (ls : list string) (allData : Corpus) : Corpus :=
  map (λ e, if decide (e.1 = path) then (e.1, withLinks e.2 ls) else e) allData.

(** The settings with the tag-connection switch set to [b]. *)
Definition withTagConnections (b : bool) (settings : GraphSettings) : GraphSettings :=
  {| gravity := gravity settings; repelling := repelling settings;
     linkDistance := linkDistance settings; charge := charge settings;
     centerStrength := centerStrength settings; showTagConnections := b |}.

Definition isWikiLink (l : GraphLink) : Prop := link_type l = WikiLink.

#[global] Instance isWikiLink_dec (l : GraphLink) : Decision (isWikiLink l).
Proof. unfold isWikiLink. apply _. Defined.

(** ** generateGraphData (earlier revision)

    The first revision of GraphRenderer.ts walks the corpus instead of the
    selection, tests the three spellings of a document against the
    selection, reads the tags of a document from its text, and colors by
    the first tag or by a rotating index. *)

Module Rev1.

(** [\w] *)
Definition isWordChar (c : Ascii.ascii) : bool :=
  let n := Ascii.nat_of_ascii c in
  ((48 <=? n) && (n <=? 57)) || ((65 <=? n) && (n <=? 90))
  || ((97 <=? n) && (n <=? 122)) || (n =? 95).

(** [content.matchAll(/#(\w+)/g)], the captured groups: [cur] is the word
    read so far after a '#', if the scan is inside one. *)
Fixpoint scanTags (s : string) (cur : option string) : list string :=
  match s with
  | EmptyString =>
      match cur with
      | Some w => if decide (w = "") then [] else [w]
      | None => []
      end
  | String c s' =>
      if isWordChar c then
        match cur with
        | Some w => scanTags s' (Some (w +:+ String c EmptyString))
        | None => scanTags s' None
        end
      else
        let found := match cur with
                     | Some w => if decide (w = "") then [] else [w]
                     | None => []
                     end in
        found ++ scanTags s' (if Ascii.eqb c "#"%char then Some "" else None)
  end.

Definition contentTags (content : string) : list string := scanTags content None.

(** The test of the three spellings. *)
Definition isSelected (selectedNodes : Selection) (path : string)
    (fileSummary : FileSummary) : bool :=
  bool_decide (path ∈ selectedNodes)
  || bool_decide (file fileSummary ∈ selectedNodes)
  || bool_decide (stripMd path ∈ selectedNodes).

Record NodePass := {
  np_nodes : list GraphNode;
  np_nodeMap : gmap string GraphNode;
  np_fileTags : gmap string (list string);
  np_randomColorIndex : nat
}.

Definition nodePassStep (selectedNodes : Selection) (tags : TagIndex)
    (settings : GraphSettings) (st : NodePass) (e : string * FileSummary) : NodePass :=
  let path := e.1 in
  let fileSummary := e.2 in
  if isSelected selectedNodes path fileSummary then
    let fts := contentTags (content fileSummary) in
    let randomColor := "random-color-" +:+ pretty (np_randomColorIndex st) in
    let colored :=
      match fts with
      | t :: _ =>
          if showTagConnections settings then
            (match getEntry t tags with
             | Some firstTag => tag_color firstTag
             | None => randomColor
             end, np_randomColorIndex st)
          else (randomColor, np_randomColorIndex st `mod` 5 + 1)
      | [] => (randomColor, np_randomColorIndex st `mod` 5 + 1)
      end in
    let node := {| node_id := file fileSummary; node_name := file fileSummary;
                   node_path := path; node_radius := 8; node_isSelected := true;
                   node_color := colored.1 |} in
    {| np_nodes := np_nodes st ++ [node];
       np_nodeMap := <[path := node]> (<[file fileSummary := node]> (np_nodeMap st));
       np_fileTags := <[path := fts]> (np_fileTags st);
       np_randomColorIndex := colored.2 |}
  else st.

Definition nodePass (allData : Corpus) (selectedNodes : Selection) (tags : TagIndex)
    (settings : GraphSettings) : NodePass :=
  foldl (nodePassStep selectedNodes tags settings)
        {| np_nodes := []; np_nodeMap := ∅; np_fileTags := ∅; np_randomColorIndex := 1 |}
        allData.

Definition wikiLinkStep (allData : Corpus) (selectedNodes : Selection)
    (nodeMap : gmap string GraphNode) (sourceNode : GraphNode)
    (ls : list GraphLink) (link : string) : list GraphLink :=
  match findTarget allData (stripMd link) with
  | Some (targetPath, targetFile) =>
      if isSelected selectedNodes targetPath targetFile then
        match orElse (nodeMap !! file targetFile) (nodeMap !! targetPath) with
        | Some targetNode =>
            pushLink ls {| link_source := sourceNode; link_target := targetNode;
                           link_type := WikiLink; link_tag := None |}
        | None => ls
        end
      else ls
  | None => ls
  end.

Definition linkPassStep (allData : Corpus) (tags : TagIndex) (settings : GraphSettings)
    (selectedNodes : Selection) (np : NodePass) (ls : list GraphLink)
    (e : string * FileSummary) : list GraphLink :=
  let path := e.1 in
  let fileSummary := e.2 in
  if isSelected selectedNodes path fileSummary then
    match orElse (np_nodeMap np !! file fileSummary) (np_nodeMap np !! path) with
    | None => ls
    | Some sourceNode =>
        let ls1 := foldl (wikiLinkStep allData selectedNodes (np_nodeMap np) sourceNode)
                         ls (links fileSummary) in
        if showTagConnections settings then
          foldl (tagLinks tags selectedNodes (np_nodeMap np) path sourceNode)
                ls1 (default [] (np_fileTags np !! path))
        else ls1
    end
  else ls.

Definition generateGraphData (allData : Corpus) (selectedNodes : Selection)
    (tags : TagIndex) (settings : GraphSettings)
  : list GraphNode * list GraphLink :=
  if length selectedNodes =? 0 then ([], [])
  else
    let np := nodePass allData selectedNodes tags settings in
    (np_nodes np,
     foldl (linkPassStep allData tags settings selectedNodes np) [] allData).

End Rev1.

(** ** The renderer handle, its simulation and the page

    The life cycle of a [GraphRenderer]: the fields the class keeps, d3's
    force simulation as far as the class drives it (the internal timer and
    alpha; forces and positions are left out), and the page, which holds
    the [ResizeObserver]s that watch the container and calls back into the
    handle.  The "tick" listener runs on a timer frame while the
    simulation's timer is running; a resize observer calls its callback on
    every resize of an element it observes, the first time right after
    [observe], until [disconnect] or [unobserve] is called on it. *)

Record Simulation := {
  sim_running : bool;
  sim_alpha : Q;
  sim_alphaMin : Q;
  sim_alphaDecay : Q;
  sim_alphaTarget : Q;
  sim_center : Q * Q
}.

(** [simulation.stop()] *)
Definition sim_stop (s : Simulation) : Simulation :=
  {| sim_running := false; sim_alpha := sim_alpha s; sim_alphaMin := sim_alphaMin s;
     sim_alphaDecay := sim_alphaDecay s; sim_alphaTarget := sim_alphaTarget s;
     sim_center := sim_center s |}.

(** [simulation.restart()] *)
Definition sim_restart (s : Simulation) : Simulation :=
  {| sim_running := true; sim_alpha := sim_alpha s; sim_alphaMin := sim_alphaMin s;
     sim_alphaDecay := sim_alphaDecay s; sim_alphaTarget := sim_alphaTarget s;
     sim_center := sim_center s |}.

(** [simulation.alpha(a)] *)
Definition sim_setAlpha (a : Q) (s : Simulation) : Simulation :=
  {| sim_running := sim_running s; sim_alpha := a; sim_alphaMin := sim_alphaMin s;
     sim_alphaDecay := sim_alphaDecay s; sim_alphaTarget := sim_alphaTarget s;
     sim_center := sim_center s |}.

(** [simulation.force("center", d3.forceCenter(x, y))] *)
Definition sim_setCenter (c : Q * Q) (s : Simulation) : Simulation :=
  {| sim_running := sim_running s; sim_alpha := sim_alpha s; sim_alphaMin := sim_alphaMin s;
     sim_alphaDecay := sim_alphaDecay s; sim_alphaTarget := sim_alphaTarget s;
     sim_center := c |}.

(** An element the class appended to the container. *)
Record Element := {
  el_attached : bool;
  el_width : Q;
  el_height : Q
}.

(** The handle together with the page around it. *)
Record Renderer := {
  allData : Corpus;
  selectedNodes : Selection;
  tags : TagIndex;
  settings : GraphSettings;
  nodes : list GraphNode;
  graphLinks : list GraphLink;
  simulation : option Simulation;
  graphSvg : option Element;
  tooltip : option Element;
  (* the page *)
  containerRect : Q * Q;
  resizeObservers : nat;
  tickCalls : nat
}.

Definition setSimulation (s : option Simulation) (r : Renderer) : Renderer :=
  {| allData := allData r; selectedNodes := selectedNodes r; tags := tags r;
     settings := settings r; nodes := nodes r; graphLinks := graphLinks r;
     simulation := s; graphSvg := graphSvg r; tooltip := tooltip r;
     containerRect := containerRect r; resizeObservers := resizeObservers r;
     tickCalls := tickCalls r |}.

Definition half (rect : Q * Q) : Q * Q := (Qred (rect.1 / 2), Qred (rect.2 / 2)).

(** [initializeSimulation]: the old simulation is stopped, a new one is
    created with the class's parameters and started. *)
Definition initializeSimulation (r : Renderer) : Renderer :=
  setSimulation
    (Some {| sim_running := true; sim_alpha := 5 # 10; sim_alphaMin := 1 # 1000;
             sim_alphaDecay := 1 # 10; sim_alphaTarget := 0;
             sim_center := half (containerRect r) |})
    r.

(** [setupResizeObserver]: one more observer watches the container; the
    handle keeps no reference to it. *)
Definition setupResizeObserver (r : Renderer) : Renderer :=
  {| allData := allData r; selectedNodes := selectedNodes r; tags := tags r;
     settings := settings r; nodes := nodes r; graphLinks := graphLinks r;
     simulation := simulation r; graphSvg := graphSvg r; tooltip := tooltip r;
     containerRect := containerRect r; resizeObservers := S (resizeObservers r);
     tickCalls := tickCalls r |}.

(** The body of the class's [generateGraphData] on the handle. *)
Definition regenerate (r : Renderer) : Renderer :=
  let g := generateGraphData (allData r) (selectedNodes r) (tags r) (settings r) in
  {| allData := allData r; selectedNodes := selectedNodes r; tags := tags r;
     settings := settings r; nodes := g.1; graphLinks := g.2;
     simulation := simulation r; graphSvg := graphSvg r; tooltip := tooltip r;
     containerRect := containerRect r; resizeObservers := resizeObservers r;
     tickCalls := tickCalls r |}.

(** The constructor with [initializeGraph]. *)
Definition newGraphRenderer (rect : Q * Q) (data : Corpus) (selectedFiles : Selection)
    (graphTags : TagIndex) (graphSettings : GraphSettings) : Renderer :=
  let svg := {| el_attached := true; el_width := rect.1; el_height := rect.2 |} in
  let tip := {| el_attached := true; el_width := 0; el_height := 0 |} in
  setupResizeObserver
    (initializeSimulation
       (regenerate
          {| allData := data; selectedNodes := selectedFiles; tags := graphTags;
             settings := graphSettings; nodes := []; graphLinks := [];
             simulation := None; graphSvg := Some svg; tooltip := Some tip;
             containerRect := rect; resizeObservers := 0; tickCalls := 0 |})).

(** [restartSimulation] *)
Definition restartSimulation (r : Renderer) : Renderer :=
  match simulation r with
  | Some s => setSimulation (Some (sim_restart (sim_setAlpha (5 # 10) s))) r
  | None => r
  end.

(** [updateSimulation] *)
Definition updateSimulation (r : Renderer) : Renderer :=
  match simulation r with
  | None => r
  | Some s =>
      setSimulation
        (Some (sim_restart
                 {| sim_running := sim_running s; sim_alpha := 3 # 10;
                    sim_alphaMin := 1 # 1000; sim_alphaDecay := 1 # 10;
                    sim_alphaTarget := sim_alphaTarget s;
                    sim_center := half (containerRect r) |}))
        r
  end.

Definition detach (e : Element) : Element :=
  {| el_attached := false; el_width := el_width e; el_height := el_height e |}.

(** [destroy] *)
Definition destroy (r : Renderer) : Renderer :=
  {| allData := allData r; selectedNodes := selectedNodes r; tags := tags r;
     settings := settings r; nodes := nodes r; graphLinks := graphLinks r;
     simulation := sim_stop <$> simulation r;
     graphSvg := detach <$> graphSvg r;
     tooltip := detach <$> tooltip r;
     containerRect := containerRect r; resizeObservers := resizeObservers r;
     tickCalls := tickCalls r |}.

(** The callback of the resize observer, with the new size of the container. *)
Definition onResize (rect : Q * Q) (r : Renderer) : Renderer :=
  {| allData := allData r; selectedNodes := selectedNodes r; tags := tags r;
     settings := settings r; nodes := nodes r; graphLinks := graphLinks r;
     simulation :=
       (λ s, sim_restart (sim_setAlpha (3 # 10) (sim_setCenter (half rect) s)))
         <$> simulation r;
     graphSvg :=
       (λ e, {| el_attached := el_attached e; el_width := rect.1; el_height := rect.2 |})
         <$> graphSvg r;
     tooltip := tooltip r;
     containerRect := rect; resizeObservers := resizeObservers r;
     tickCalls := tickCalls r |}.

(** The page resizes the container: every observer that still watches it
    calls back. *)
Definition containerResized (rect : Q * Q) (r : Renderer) : Renderer :=
  Nat.iter (resizeObservers r) (onResize rect)
    {| allData := allData r; selectedNodes := selectedNodes r; tags := tags r;
       settings := settings r; nodes := nodes r; graphLinks := graphLinks r;
       simulation := simulation r; graphSvg := graphSvg r; tooltip := tooltip r;
       containerRect := rect; resizeObservers := resizeObservers r;
       tickCalls := tickCalls r |}.

(** [ticked], the "tick" listener. *)
Definition ticked (r : Renderer) : Renderer :=
  {| allData := allData r; selectedNodes := selectedNodes r; tags := tags r;
     settings := settings r; nodes := nodes r; graphLinks := graphLinks r;
     simulation := simulation r; graphSvg := graphSvg r; tooltip := tooltip r;
     containerRect := containerRect r; resizeObservers := resizeObservers r;
     tickCalls := S (tickCalls r) |}.

(** One frame of d3's timer: a running simulation advances alpha, calls the
    "tick" listener, and stops once alpha is below alphaMin. *)
Definition timerFrame (r : Renderer) : Renderer :=
  match simulation r with
  | Some s =>
      if sim_running s then
        let a := Qred (sim_alpha s + (sim_alphaTarget s - sim_alpha s) * sim_alphaDecay s) in
        let s1 := sim_setAlpha a s in
        let s2 := if Qle_bool (sim_alphaMin s) a then s1 else sim_stop s1 in
        ticked (setSimulation (Some s2) r)
      else r
  | None => r
  end.

(** What happens to a handle after it was created. *)
Inductive Event :=
  | Destroy
  | RestartSimulation
  | UpdateSimulation
  | ContainerResized (rect : Q * Q)
  | TimerFrame.

Definition step (r : Renderer) (e : Event) : Renderer :=
  match e with
  | Destroy => destroy r
  | RestartSimulation => restartSimulation r
  | UpdateSimulation => updateSimulation r
  | ContainerResized rect => containerResized rect r
  | TimerFrame => timerFrame r
  end.

Definition run (r : Renderer) (events : list Event) : Renderer := foldl step r events.

(** Whether the simulation of the handle is doing work. *)
Definition simulating (r : Renderer) : bool :=
  match simulation r with
  | Some s => sim_running s
  | None => false
  end.

(** ** Sample inputs *)

Definition summary (f : string) (ls : list string) : FileSummary :=
  {| file := f; content := ""; links := ls |}.

Definition defaultSettings (tagConnections : bool) : GraphSettings :=
  {| gravity := 1 # 10; repelling := 100; linkDistance := 100; charge := -30;
     centerStrength := 1 # 10; showTagConnections := tagConnections |}.

(** A chain A -> B -> C with a dangling link in A. *)
Definition chainCorpus : Corpus :=
  [("notes/A.md", summary "A" ["B"; "Z"]);
   ("notes/B.md", summary "B" ["C.md"]);
   ("notes/C.md", summary "C" [])].

Definition chainSelection : Selection := ["notes/A.md"; "notes/B.md"; "notes/C.md"].

(** The dangling-link scenario: A links to Z, and Z is no document. *)
Definition danglingCorpus : Corpus := [("A.md", summary "A" ["Z"])].

(** B links to A, and both carry the tag x. *)
Definition taggedPairCorpus : Corpus :=
  [("A.md", summary "A" []); ("B.md", summary "B" ["A"])].

Definition taggedPairTags : TagIndex :=
  [("x", {| tag_name := "x"; tag_color := "tag-color-1"; tag_files := ["A.md"; "B.md"] |})].

Definition taggedPairSelection : Selection := ["A.md"; "B.md"].

(** Seven documents and no tag. *)
Definition sevenPaths : Selection := ["d1"; "d2"; "d3"; "d4"; "d5"; "d6"; "d7"].

Definition sevenCorpus : Corpus := (λ p, (p, summary p [])) <$> sevenPaths.

(** Two tags on D1: "big" lists four documents, "small" lists two; only D1
    and D5 are selected. *)
Definition populationCorpus : Corpus :=
  (λ p, (p, summary p [])) <$> ["D1"; "D2"; "D3"; "D4"; "D5"].

Definition populationTags : TagIndex :=
  [("big", {| tag_name := "big"; tag_color := "tag-color-1";
              tag_files := ["D1"; "D2"; "D3"; "D4"] |});
   ("small", {| tag_name := "small"; tag_color := "tag-color-2";
                tag_files := ["D1"; "D5"] |})].

Definition populationSelection : Selection := ["D1"; "D5"].

(** A handle whose simulation was never created. *)
Definition bareRenderer : Renderer :=
  {| allData := chainCorpus; selectedNodes := chainSelection; tags := [];
     settings := defaultSettings false; nodes := []; graphLinks := [];
     simulation := None; graphSvg := None; tooltip := None;
     containerRect := (800 # 1, 600 # 1); resizeObservers := 0; tickCalls := 0 |}.

(** The linear chain A -> B -> C. *)
Definition linearCorpus : Corpus :=
  [("A.md", summary "A" ["B"]); ("B.md", summary "B" ["C"]); ("C.md", summary "C" [])].

(** Three documents without links that share the tag x. *)
Definition clusterCorpus : Corpus :=
  [("A.md", summary "A" []); ("B.md", summary "B" []); ("C.md", summary "C" [])].

Definition clusterTags : TagIndex :=
  [("x", {| tag_name := "x"; tag_color := "tag-color-1";
            tag_files := ["A.md"; "B.md"; "C.md"] |})].

Definition abcSelection : Selection := ["A.md"; "B.md"; "C.md"].

(** An edge as the ids it joins, its kind and its tag. *)
Definition edgeView (l : GraphLink) : string * string * LinkType * option string :=
  (node_id (link_source l), node_id (link_target l), link_type l, link_tag l).

(** * Further parts of the code *)

(** ** Where the edges come from *)

(** No basename of the corpus is itself a selected path, so the keys
    [nodeMap] gets from basenames and those it gets from selected paths
    stay apart.  The paths of a vault end in ".md"; a basename does so only
    for a file named like "x.md.md". *)
Definition basenamesApart (allData : Corpus) (selectedNodes : Selection) : Prop :=
  Forall (λ e, file e.2 ∉ selectedNodes) allData.

(** An edge joins the ids [a] and [b], in either direction. *)
Definition joins (l : GraphLink) (a b : string) : Prop :=
  (node_id (link_source l) = a ∧ node_id (link_target l) = b)
  ∨ (node_id (link_source l) = b ∧ node_id (link_target l) = a).

(** A selected document of basename [a] has an outbound link that resolves
    to a selected document of basename [b]. *)
Definition linksTo (allData : Corpus) (selectedNodes : Selection) (a b : string) : Prop :=
  ∃ (path : string) (fileSummary : FileSummary) (link targetPath : string)
    (targetFile : FileSummary),
    path ∈ selectedNodes ∧ getEntry path allData = Some fileSummary
    ∧ link ∈ links fileSummary
    ∧ findTarget allData (stripMd link) = Some (targetPath, targetFile)
    ∧ targetPath ∈ selectedNodes
    ∧ file fileSummary = a ∧ file targetFile = b.

(** The tag [name] lists two different selected documents of the corpus,
    of basenames [a] and [b]. *)
Definition shareTag (allData : Corpus) (selectedNodes : Selection) (tags : TagIndex)
    (name a b : string) : Prop :=
  ∃ (tag : GraphTag) (p q : string) (fp fq : FileSummary),
    getEntry name tags = Some tag
    ∧ p ∈ tag_files tag ∧ q ∈ tag_files tag ∧ p ≠ q
    ∧ p ∈ selectedNodes ∧ q ∈ selectedNodes
    ∧ getEntry p allData = Some fp ∧ getEntry q allData = Some fq
    ∧ file fp = a ∧ file fq = b.

#[global] Instance basenamesApart_dec allData selectedNodes :
  Decision (basenamesApart allData selectedNodes).
Proof. unfold basenamesApart. apply _. Defined.

(** The node of a document whose color is [color]. *)
Definition nodeOf (id path color : string) : GraphNode :=
  {| node_id := id; node_name := id; node_path := path; node_radius := 12;
     node_isSelected := true; node_color := color |}.

(** The edges of the tagged pair: B -> A by its link, A -> B by the tag x. *)
Definition wikiEdgeBA : GraphLink :=
  {| link_source := nodeOf "B" "B.md" "tag-color-1";
     link_target := nodeOf "A" "A.md" "tag-color-1";
     link_type := WikiLink; link_tag := None |}.

Definition tagEdgeAB : GraphLink :=
  {| link_source := nodeOf "A" "A.md" "tag-color-1";
     link_target := nodeOf "B" "B.md" "tag-color-1";
     link_type := TagLink; link_tag := Some "x" |}.

(** ** getTagsForSelectedNodes *)

(** [map.set(k, v)] on a [Map] kept in insertion order: an existing key
    keeps its place and gets the new value, a new key goes to the end. *)
Fixpoint mapSet {V : Type} (k : string) (v : V) (m : list (string * V))
  : list (string * V) :=
  match m with
  | [] => [(k, v)]
  | (k', v') :: m' => if decide (k' = k) then (k, v) :: m' else (k', v') :: mapSet k v m'
  end.

(** [Array.from(tag.files).some(filePath => this.selectedNodes.has(filePath))] *)
Definition hasSelectedFile (selectedNodes : Selection) (tag : GraphTag) : bool :=
  existsb (λ filePath, bool_decide (filePath ∈ selectedNodes)) (tag_files tag).

Definition getTagsForSelectedNodes (tags : TagIndex) (selectedNodes : Selection)
  : TagIndex :=
  foldl (λ relevantTags e,
           if hasSelectedFile selectedNodes e.2
           then mapSet e.1 e.2 relevantTags
           else relevantTags)
        [] tags.

(** ** updateSelection, updateTags, updateData, updateTagColor *)

(** [tag.color = colorClass] *)
Definition setColor (colorClass : string) (tag : GraphTag) : GraphTag :=
  {| tag_name := tag_name tag; tag_color := colorClass; tag_files := tag_files tag |}.

(** [const tag = this.tags.get(tagName); tag.color = colorClass]: the tag
    object the map holds under [tagName] is changed in place. *)
Fixpoint setTagColor (tagName colorClass : string) (tags : TagIndex) : TagIndex :=
  match tags with
  | [] => []
  | (k, tag) :: tags' =>
      if decide (k = tagName) then (k, setColor colorClass tag) :: tags'
      else (k, tag) :: setTagColor tagName colorClass tags'
  end.

Definition setSelectedNodes (selectedFiles : Selection) (r : Renderer) : Renderer :=
  {| allData := allData r; selectedNodes := selectedFiles; tags := tags r;
     settings := settings r; nodes := nodes r; graphLinks := graphLinks r;
     simulation := simulation r; graphSvg := graphSvg r; tooltip := tooltip r;
     containerRect := containerRect r; resizeObservers := resizeObservers r;
     tickCalls := tickCalls r |}.

Definition setTags (graphTags : TagIndex) (r : Renderer) : Renderer :=
  {| allData := allData r; selectedNodes := selectedNodes r; tags := graphTags;
     settings := settings r; nodes := nodes r; graphLinks := graphLinks r;
     simulation := simulation r; graphSvg := graphSvg r; tooltip := tooltip r;
     containerRect := containerRect r; resizeObservers := resizeObservers r;
     tickCalls := tickCalls r |}.

Definition setAllData (data : Corpus) (r : Renderer) : Renderer :=
  {| allData := data; selectedNodes := selectedNodes r; tags := tags r;
     settings := settings r; nodes := nodes r; graphLinks := graphLinks r;
     simulation := simulation r; graphSvg := graphSvg r; tooltip := tooltip r;
     containerRect := containerRect r; resizeObservers := resizeObservers r;
     tickCalls := tickCalls r |}.

(** How a call on the handle ends: it returns, or an exception leaves it;
    either way with the state the handle then has. *)
Inductive Outcome :=
  | Returned (r : Renderer)
  | Threw (r : Renderer).

(** The state of the handle when the call has ended. *)
Definition handle (o : Outcome) : Renderer :=
  match o with
  | Returned r => r
  | Threw r => r
  end.

(** The statements after a call that can throw. *)
Definition andThen (o : Outcome) (rest : Renderer → Outcome) : Outcome :=
  match o with
  | Returned r => rest r
  | Threw r => Threw r
  end.

(** [updateGraphElements]: three keyed d3 joins (circles, lines, labels) on
    the group of the svg, then [initializeSimulation].  The elements are
    not part of the handle's state here, so how the joins end is an input:
    [joined] is [true] when they complete and [false] when one of them
    throws, which d3 does when an entering element has to be inserted in
    front of an element that sits in one of the child groups made by
    [createGraphElements] ([insertBefore] raises NotFoundError).  The joins
    change no field of the handle, and after a throw
    [initializeSimulation] is not reached. *)
Definition updateGraphElements (joined : bool) (r : Renderer) : Outcome :=
  if joined then Returned (initializeSimulation r) else Threw r.

Definition updateSelection (joined : bool) (selectedFiles : Selection) (r : Renderer)
  : Outcome :=
  andThen (updateGraphElements joined (regenerate (setSelectedNodes selectedFiles r)))
    (λ r1, Returned (restartSimulation r1)).

Definition updateTags (joined : bool) (graphTags : TagIndex) (r : Renderer) : Outcome :=
  andThen (updateGraphElements joined (regenerate (setTags graphTags r)))
    (λ r1, Returned (restartSimulation r1)).

Definition updateData (joined : bool) (data : Corpus) (r : Renderer) : Outcome :=
  andThen (updateGraphElements joined (regenerate (setAllData data r)))
    (λ r1, Returned (restartSimulation r1)).


(** A node without its color, and an edge as the nodes it joins without
    their colors, its kind and its tag. *)
Definition eraseColor (n : GraphNode) : GraphNode :=
  {| node_id := node_id n; node_name := node_name n; node_path := node_path n;
     node_radius := node_radius n; node_isSelected := node_isSelected n;
     node_color := "" |}.


(** The node [n] with the color the second pass gives its path under the
    tag index [tags]. *)
Definition recolor (tags : TagIndex) (tp : TagPass) (untaggedGroups : Groups)
    (n : GraphNode) : GraphNode :=
  {| node_id := node_id n; node_name := node_name n; node_path := node_path n;
     node_radius := node_radius n; node_isSelected := node_isSelected n;
     node_color :=
       nodeColorOf tags (tagGroups tp) untaggedGroups
         (default [] (fileTags tp !! node_path n)) (node_path n) |}.

(** The handle of the tagged pair, tag connections on. *)
Definition taggedPairRenderer : Renderer :=
  newGraphRenderer (800 # 1, 600 # 1) taggedPairCorpus taggedPairSelection taggedPairTags
    (defaultSettings true).

(** Two documents of basename N in different folders; the first links to B. *)
Definition namesakeCorpus : Corpus :=
  [("a/N.md", summary "N" ["B"]); ("b/N.md", summary "N" []); ("B.md", summary "B" [])].

Definition namesakeEdge : GraphLink :=
  {| link_source := nodeOf "N" "b/N.md" "untagged-group-1";
     link_target := nodeOf "B" "B.md" "untagged-group-1";
     link_type := WikiLink; link_tag := None |}.

(** ** highlightConnectedNodes *)

(** The ids collected on hovering [centerNode]: its own, and for every
    edge that has it at one end the id at the other end. *)
Definition connectedNodeIds (ls : list GraphLink) (centerNode : GraphNode) : list string :=
  foldl (λ ids link,
           let ids1 :=
             if String.eqb (node_id (link_source link)) (node_id centerNode)
             then setAdd (node_id (link_target link)) ids else ids in
           if String.eqb (node_id (link_target link)) (node_id centerNode)
           then setAdd (node_id (link_source link)) ids1 else ids1)
        [node_id centerNode] ls.

(** The [opacity] the circle of [d] gets. *)
Definition nodeOpacity (ls : list GraphLink) (centerNode d : GraphNode) : string :=
  if decide (node_id d ∈ connectedNodeIds ls centerNode) then "1" else "0.3".

(** The [stroke-opacity] the line of [l] gets. *)
Definition linkOpacity (ls : list GraphLink) (centerNode : GraphNode) (l : GraphLink)
  : string :=
  if decide (node_id (link_source l) ∈ connectedNodeIds ls centerNode
             ∧ node_id (link_target l) ∈ connectedNodeIds ls centerNode)
  then "0.8" else "0.2".

(** [id] is the id of the hovered node or of a node an edge joins to it. *)
Definition nearCenter (ls : list GraphLink) (centerNode : GraphNode) (id : string) : Prop :=
  id = node_id centerNode ∨ ∃ l, l ∈ ls ∧ joins l (node_id centerNode) id.

(** ** refreshGraph (main.ts), the part that drives the handle *)

Definition setSettings (graphSettings : GraphSettings) (r : Renderer) : Renderer :=
  {| allData := allData r; selectedNodes := selectedNodes r; tags := tags r;
     settings := graphSettings; nodes := nodes r; graphLinks := graphLinks r;
     simulation := simulation r; graphSvg := graphSvg r; tooltip := tooltip r;
     containerRect := containerRect r; resizeObservers := resizeObservers r;
     tickCalls := tickCalls r |}.

(** The callback of [parseVault(...).then] in [refreshGraph], on the saved
    reference to the handle: the three updates, then the settings read
    before them are put back.  [joined1], [joined2] and [joined3] say how
    the joins of the three updates end; an update that throws ends the
    callback. *)
Definition refreshGraph (joined1 joined2 joined3 : bool) (newData : Corpus)
    (selectedFiles : Selection) (graphTags : TagIndex) (graphRenderer : Renderer)
  : Outcome :=
  let currentSettings := settings graphRenderer in
  andThen (updateData joined1 newData graphRenderer) (λ r1,
  andThen (updateSelection joined2 selectedFiles r1) (λ r2,
  andThen (updateTags joined3 graphTags r2) (λ r3,
  Returned (setSettings currentSettings r3)))).

(** ** The earlier revision *)

(** The edges are well formed and their ends are held by the node map. *)
Definition Rev1_linksFrom (nodeMap : gmap string GraphNode) (ls : list GraphLink) : Prop :=
  linksOk ls
  ∧ ∀ l, l ∈ ls → fromMap nodeMap (link_source l) ∧ fromMap nodeMap (link_target l).

(** ** parseVault (main.ts): the outbound links of a document *)

(** Whether the character [c] occurs in [s]. *)
Fixpoint occurs (c : Ascii.ascii) (s : string) : bool :=
  match s with
  | EmptyString => false
  | String c' s' => Ascii.eqb c' c || occurs c s'
  end.

(** The greedy [[^\]]+]: the longest prefix without a closing bracket, and
    what follows it. *)
Fixpoint untilClose (s : string) : string * string :=
  match s with
  | EmptyString => (EmptyString, EmptyString)
  | String c s' =>
      if Ascii.eqb c "]" then (EmptyString, s)
      else let r := untilClose s' in (String c r.1, r.2)
  end.

Definition startsWith (c1 c2 : Ascii.ascii) (s : string) : option string :=
  match s with
  | String a (String b s') => if Ascii.eqb a c1 && Ascii.eqb b c2 then Some s' else None
  | _ => None
  end.

(** One attempt of [/\[\[([^\]]+)\]\]/] at the start of [s]: the capture
    and the length of the whole match.  The class excludes the closing
    bracket, so a shorter run can never be followed by one and giving back
    characters does not help. *)
Definition matchLink (s : string) : option (string * nat) :=
  match startsWith "[" "[" s with
  | Some s' =>
      let r := untilClose s' in
      if 0 <? String.length r.1 then
        match startsWith "]" "]" r.2 with
        | Some _ => Some (r.1, String.length r.1 + 4)
        | None => None
        end
      else None
  | None => None
  end.

(** [txt.matchAll(re)], the captures from left to right: after a match the
    scan goes on behind it (the next [skip] characters still belong to the
    match), after a failed attempt at the next character. *)
Fixpoint matchAll (s : string) (skip : nat) : list string :=
  match s with
  | EmptyString => []
  | String c s' =>
      match skip with
      | S k => matchAll s' k
      | 0 =>
          match matchLink s with
          | Some (capture, len) => capture :: matchAll s' (len - 1)
          | None => matchAll s' 0
          end
      end
  end.

(** [m[1].split("|")[0]] *)
Fixpoint beforeBar (s : string) : string :=
  match s with
  | EmptyString => EmptyString
  | String c s' => if Ascii.eqb c "|" then EmptyString else String c (beforeBar s')
  end.

Definition extractLinks (txt : string) : list string := beforeBar <$> matchAll txt 0.

(** A markdown file of the vault: [f.path] ends in ".md", so it is never
    an array index and the record [out] keeps its keys in insertion
    order. *)
Record TFile := {
  f_path : string;
  f_basename : string
}.

(** [parseVault], over the files of the vault with the text read from each. *)
Definition parseVault (files : list (TFile * string)) : Corpus :=
  foldl (λ out ft,
           mapSet (f_path ft.1)
             {| file := f_basename ft.1; content := ft.2; links := extractLinks ft.2 |}
             out)
        [] files.

(** The text of a wiki link to [target], with or without an alias. *)
Definition wikiLinkText (target : string) (alias : option string) : string :=
  "[[" +:+ target +:+ match alias with
                      | Some a => "|" +:+ a
                      | None => ""
                      end +:+ "]]".

(** ** toggleFileSelection (main.ts) *)

(** [set.delete(x)] *)
Definition setDelete (x : string) (s : list string) : list string :=
  filter (λ y, y ≠ x) s.

(** The change [toggleFileSelection] makes to the selection, before it
    refreshes the graph and the file tree. *)
Definition toggleFileSelection (filePath : string) (selectedNodes : Selection)
  : Selection :=
  if decide (filePath ∈ selectedNodes) then setDelete filePath selectedNodes
  else setAdd filePath selectedNodes.

(** ** convertToGraphTags and the tags renderTagList shows (main.ts) *)

Record TagData := {
  td_name : string;
  td_color : string;
  td_files : list string;
  td_count : nat;
  td_lastUsed : nat
}.

(** [new Set(array)] *)
Definition newSet (l : list string) : list string := foldl (λ s x, setAdd x s) [] l.

Definition toGraphTag (tagName : string) (tagData : TagData) : GraphTag :=
  {| tag_name := tagName; tag_color := td_color tagData;
     tag_files := newSet (td_files tagData) |}.


(** The [relevantTags] of [renderTagList]. *)
Definition relevantTags (tagMap : list (string * TagData)) (selectedNodes : Selection)
  : TagIndex :=
  foldl (λ relevant e,
           if existsb (λ filePath, bool_decide (filePath ∈ selectedNodes)) (td_files e.2)
           then mapSet e.1 (toGraphTag e.1 e.2) relevant
           else relevant)
        [] tagMap.

(** ** TagManager.extractAndUpdateTags (main.ts) *)

Definition falsePositives : list string :=
  ["include"; "define"; "ifndef"; "ifdef"; "endif"; "pragma"].

(** [`tag-color-${(newTags.size % 10) + 1}`] *)
Definition paletteColor (size : nat) : string :=
  "tag-color-" +:+ pretty (size `mod` 10 + 1).

(** The object [newTags.set] stores for a tag seen for the first time in
    this run, from the tag of that name known before, if there is one. *)
Definition newTagData (existingTag : option TagData) (tagName : string) (size now : nat)
  : TagData :=
  {| td_name := tagName;
     td_color := match existingTag with
                 | Some t => if decide (td_color t = "") then paletteColor size
                             else td_color t
                 | None => paletteColor size
                 end;
     td_files := match existingTag with
                 | Some t => td_files t
                 | None => []
                 end;
     td_count := match existingTag with
                 | Some t => length (td_files t)
                 | None => 0
                 end;
     td_lastUsed := match existingTag with
                    | Some t => if td_lastUsed t =? 0 then now else td_lastUsed t
                    | None => now
                    end |}.

(** [if (!tagData.files.includes(path)) { ... }] *)
Definition recordFile (path : string) (now : nat) (tagData : TagData) : TagData :=
  if bool_decide (path ∈ td_files tagData) then tagData
  else {| td_name := td_name tagData; td_color := td_color tagData;
          td_files := td_files tagData ++ [path];
          td_count := length (td_files tagData ++ [path]);
          td_lastUsed := now |}.

(** A change to the object a [Map] holds under [k]. *)
Definition alterEntry {V : Type} (k : string) (f : V → V) (m : list (string * V))
  : list (string * V) :=
  (λ e, if decide (e.1 = k) then (e.1, f e.2) else e) <$> m.

(** The body of the loop over the matches, for the lower-cased name
    [tagName] matched in the document [path]. *)
Definition tagMatch (oldTags : list (string * TagData))
    (settingsTags : gmap string TagData) (now : nat) (path : string)
    (newTags : list (string * TagData)) (tagName : string) : list (string * TagData) :=
  if (0 <? String.length tagName) && negb (bool_decide (tagName ∈ falsePositives)) then
    let newTags1 :=
      match getEntry tagName newTags with
      | Some _ => newTags
      | None =>
          newTags
          ++ [(tagName,
               newTagData (orElse (getEntry tagName oldTags) (settingsTags !! tagName))
                 tagName (length newTags) now)]
      end in
    alterEntry tagName (recordFile path now) newTags1
  else newTags.

Section tagManager.

(** The lower-cased tag names the loop over the lines of a document
    matches in its content, in the order of the matches; lines with a code
    fence or an odd number of backticks are skipped by the loop. *)
Variable tagsOf : FileSummary → list string.

(** The map [extractAndUpdateTags] leaves in [this.tags], from the map
    [oldTags] it held before and the tags saved in the settings. *)
Definition extractAndUpdateTags (oldTags : list (string * TagData))
    (settingsTags : gmap string TagData) (now : nat) (data : Corpus)
  : list (string * TagData) :=
  foldl (λ newTags e,
           foldl (tagMatch oldTags settingsTags now e.1) newTags (tagsOf e.2))
        [] data.

(** All the matches of one run, each with the path of its document. *)
Definition allMatches (data : Corpus) : list (string * string) :=
  data ≫= (λ e, (λ t, (e.1, t)) <$> tagsOf e.2).

End tagManager.

(** The files of the tag of that name known before the run. *)
Definition oldFiles (oldTags : list (string * TagData))
    (settingsTags : gmap string TagData) (tagName : string) : list string :=
  match orElse (getEntry tagName oldTags) (settingsTags !! tagName) with
  | Some t => td_files t
  | None => []
  end.

(** What a run has established after the matches [ms]. *)
Definition tagsInv (oldTags : list (string * TagData)) (settingsTags : gmap string TagData)
    (ms : list (string * string)) (newTags : list (string * TagData)) : Prop :=
  (∀ (t : string) (tag : TagData),
     getEntry t newTags = Some tag
     → t ≠ "" ∧ (t ∉ falsePositives)
       ∧ (∃ p : string, (p, t) ∈ ms)
       ∧ (∃ added : list string,
            td_files tag = oldFiles oldTags settingsTags t ++ added
            ∧ ∀ f, f ∈ added → (f, t) ∈ ms)
       ∧ td_count tag = length (td_files tag))
  ∧ (∀ (p t : string),
       (p, t) ∈ ms → t ≠ "" → t ∉ falsePositives
       → ∃ tag : TagData, getEntry t newTags = Some tag ∧ p ∈ td_files tag).

(** ** More sample inputs *)

(** Two files of a vault; A links to B under an alias. *)
Definition fileA : TFile := {| f_path := "A.md"; f_basename := "A" |}.
Definition fileB : TFile := {| f_path := "B.md"; f_basename := "B" |}.

Definition vaultFiles : list (TFile * string) :=
  [(fileA, "see [[B|the B note]]"); (fileB, "no links")].

Definition parsedA : FileSummary :=
  {| file := "A"; content := "see [[B|the B note]]"; links := ["B"] |}.

Definition parsedB : FileSummary :=
  {| file := "B"; content := "no links"; links := [] |}.

(** A tag map: x lists A and a file that is gone, y lists another file. *)
Definition sampleTagMap : list (string * TagData) :=
  [("x", {| td_name := "x"; td_color := "tag-color-1"; td_files := ["A.md"; "gone.md"];
            td_count := 2; td_lastUsed := 1 |});
   ("y", {| td_name := "y"; td_color := "tag-color-2"; td_files := ["other.md"];
            td_count := 1; td_lastUsed := 1 |})].

(** The second node of the chain in the earlier revision. *)
Definition rev1NodeB : GraphNode :=
  {| node_id := "B"; node_name := "B"; node_path := "notes/B.md"; node_radius := 8;
     node_isSelected := true; node_color := "random-color-2" |}.

(** The simulation a new handle starts. *)
Definition freshSimulation : Simulation :=
  {| sim_running := true; sim_alpha := 5 # 10; sim_alphaMin := 1 # 1000;
     sim_alphaDecay := 1 # 10; sim_alphaTarget := 0;
     sim_center := half (800 # 1, 600 # 1) |}.

(** A scan that finds the tag x in the document A and nothing elsewhere. *)
Definition sampleTagsOf (fileSummary : FileSummary) : list string :=
  if decide (file fileSummary = "A") then ["x"] else [].

(** The tag x after a run over the tagged pair, from the sample tag map. *)
Definition tagXAfter : TagData :=
  {| td_name := "x"; td_color := "tag-color-1";
     td_files := ["A.md"; "gone.md"]; td_count := 2; td_lastUsed := 1 |}.

(** * Properties *)

(** ** Folds *)

Lemma foldl_snoc {A B : Type} (f : A → B → A) (a : A) (l : list B) (x : B) :
  foldl f a (l ++ [x]) = f (foldl f a l) x.
Proof. by rewrite foldl_app. Qed.

Lemma foldl_invariant {A B : Type} (P : A → Prop) (f : A → B → A) (l : list B) (a : A) :
  P a → (∀ a' x, P a' → x ∈ l → P (f a' x)) → P (foldl f a l).
Proof.
  revert a. induction l as [|x l IH]; intros a Ha Hstep; simpl; [done|].
  apply IH.
  - apply Hstep; [done | by left].
  - intros a' y Ha' Hy. apply Hstep; [done | by right].
Qed.

Lemma foldl_push_omap {B : Type} (c : B → option GraphLink) (xs : list B)
    (ls : list GraphLink) :
  foldl (λ ls x, match c x with Some l => pushLink ls l | None => ls end) ls xs
  = foldl pushLink ls (omap c xs).
Proof.
  revert ls. induction xs as [|x xs IH]; intros ls; simpl; [done|].
  rewrite IH. by destruct (c x).
Qed.

Lemma foldl_push_bind {B : Type} (g : B → list GraphLink) (xs : list B)
    (ls : list GraphLink) :
  foldl (λ ls x, foldl pushLink ls (g x)) ls xs = foldl pushLink ls (xs ≫= g).
Proof.
  revert ls. induction xs as [|x xs IH]; intros ls; [done|].
  rewrite bind_cons, foldl_app. simpl. apply IH.
Qed.

Lemma foldl_ext_in {A B : Type} (f g : A → B → A) (l : list B) (a : A) :
  (∀ a' x, x ∈ l → f a' x = g a' x) → foldl f a l = foldl g a l.
Proof.
  revert a. induction l as [|x l IH]; intros a H; simpl; [done|].
  rewrite H by left. apply IH. intros a' y Hy. apply H. by right.
Qed.

(** ** The third pass is a fold of the guarded push *)

Lemma wikiLinkStep_candidate allData sel nodeMap src ls link :
  wikiLinkStep allData sel nodeMap src ls link
  = match wikiCandidate allData sel nodeMap src link with
    | Some l => pushLink ls l
    | None => ls
    end.
Proof.
  unfold wikiLinkStep, wikiCandidate.
  destruct (findTarget allData (stripMd link)) as [[tp tf]|]; [|done].
  destruct (decide (tp ∈ sel)); [|done].
  by destruct (orElse (nodeMap !! file tf) (nodeMap !! tp)).
Qed.

Lemma tagLinkStep_candidate sel nodeMap path src tag ls targetPath :
  tagLinkStep sel nodeMap path src tag ls targetPath
  = match tagCandidate sel nodeMap path src tag targetPath with
    | Some l => pushLink ls l
    | None => ls
    end.
Proof.
  unfold tagLinkStep, tagCandidate.
  destruct (decide (targetPath ≠ path ∧ targetPath ∈ sel)); [|done].
  by destruct (nodeMap !! targetPath).
Qed.

Lemma tagLinks_candidates tags sel nodeMap path src ls tag :
  tagLinks tags sel nodeMap path src ls tag
  = foldl pushLink ls (tagCandidates tags sel nodeMap path src tag).
Proof.
  unfold tagLinks, tagCandidates. destruct (getEntry tag tags) as [td|]; [|done].
  rewrite <- foldl_push_omap. apply foldl_ext_in. intros ls' x _.
  apply tagLinkStep_candidate.
Qed.

Lemma linkPassStep_candidates allData tags st sel tp nodeMap ls path :
  linkPassStep allData tags st sel tp nodeMap ls path
  = foldl pushLink ls (pathCandidates allData tags st sel tp nodeMap path).
Proof.
  unfold linkPassStep, pathCandidates.
  destruct (getEntry path allData) as [fs|]; [|done].
  destruct (orElse (nodeMap !! file fs) (nodeMap !! path)) as [src|]; [|done].
  rewrite foldl_app, <- foldl_push_omap.
  rewrite (foldl_ext_in (wikiLinkStep allData sel nodeMap src)
             (λ ls x, match wikiCandidate allData sel nodeMap src x with
                      | Some l => pushLink ls l
                      | None => ls
                      end))
    by (intros; apply wikiLinkStep_candidate).
  destruct (showTagConnections st); [|done].
  rewrite <- foldl_push_bind. apply foldl_ext_in. intros ls' x _.
  apply tagLinks_candidates.
Qed.

Lemma linkPass_candidates allData tags st sel tp nodeMap :
  linkPass allData tags st sel tp nodeMap
  = foldl pushLink [] (sel ≫= pathCandidates allData tags st sel tp nodeMap).
Proof.
  unfold linkPass. rewrite <- foldl_push_bind. apply foldl_ext_in.
  intros ls' x _. apply linkPassStep_candidates.
Qed.

(** ** The guarded push *)

Lemma samePair_sym l1 l2 : samePair l1 l2 → samePair l2 l1.
Proof. unfold samePair. intuition congruence. Qed.

Lemma samePair_trans l1 l2 l3 : samePair l1 l2 → samePair l2 l3 → samePair l1 l3.
Proof. unfold samePair. intuition congruence. Qed.

Lemma samePair_selfEdge l1 l2 : samePair l1 l2 → selfEdge l1 → selfEdge l2.
Proof. unfold samePair, selfEdge. intuition congruence. Qed.

Lemma linkExists_true ls l :
  linkExists ls (link_source l) (link_target l) = true ↔ ∃ l', l' ∈ ls ∧ samePair l' l.
Proof.
  unfold linkExists. rewrite existsb_exists. split.
  - intros (l' & Hin & H). exists l'. split; [by apply list_elem_of_In|].
    apply orb_true_iff in H as [H|H]; apply andb_true_iff in H as [H1 H2];
      apply String.eqb_eq in H1, H2; [by left | by right].
  - intros (l' & Hin & H). exists l'. split; [by apply list_elem_of_In|].
    apply orb_true_iff.
    destruct H as [[H1 H2]|[H1 H2]]; [left | right];
      apply andb_true_iff; split; by apply String.eqb_eq.
Qed.

Lemma linkExists_false ls l :
  linkExists ls (link_source l) (link_target l) = false ↔ ∀ l', l' ∈ ls → ¬ samePair l' l.
Proof.
  rewrite <- not_true_iff_false, linkExists_true. split.
  - intros H l' Hin Hs. apply H. eauto.
  - intros H (l' & Hin & Hs). by eapply H.
Qed.

(** The push either appends the edge or leaves the list alone. *)
Lemma pushLink_cases ls l :
  (pushLink ls l = ls ++ [l] ∧ ¬ selfEdge l ∧ ∀ l', l' ∈ ls → ¬ samePair l' l)
  ∨ (pushLink ls l = ls ∧ (selfEdge l ∨ ∃ l', l' ∈ ls ∧ samePair l' l)).
Proof.
  unfold pushLink, selfEdge.
  destruct (decide (node_id (link_source l) ≠ node_id (link_target l))) as [Hne|Heq].
  - destruct (linkExists ls (link_source l) (link_target l)) eqn:Hex.
    + right. split; [done|]. right. by apply linkExists_true.
    + left. split; [done|]. split; [done|]. by apply linkExists_false.
  - right. split; [done|]. left. by destruct (decide (node_id (link_source l) = node_id (link_target l))).
Qed.

Lemma pushLink_prefix ls l : ls `prefix_of` pushLink ls l.
Proof.
  destruct (pushLink_cases ls l) as [(-> & _)|(-> & _)]; [by apply prefix_app_r|done].
Qed.

Lemma pushAll_prefix cs ls : ls `prefix_of` foldl pushLink ls cs.
Proof.
  apply (foldl_invariant (λ r, ls `prefix_of` r)); [done|].
  intros r l Hr _. etrans; [exact Hr | apply pushLink_prefix].
Qed.

Lemma pushAll_elem cs ls l : l ∈ foldl pushLink ls cs → l ∈ ls ∨ l ∈ cs.
Proof.
  revert ls. induction cs as [|c cs IH]; intros ls; simpl; [by left|].
  intros H. apply IH in H as [H|H]; [|right; by right].
  destruct (pushLink_cases ls c) as [(Heq & _)|(Heq & _)]; rewrite Heq in H.
  - apply elem_of_app in H as [H|H]; [by left|].
    apply list_elem_of_singleton in H as ->. right. by left.
  - by left.
Qed.

(** Every attempted edge that is no self-edge is represented in the result
    by an edge on its pair. *)
Lemma pushAll_covers cs ls l :
  l ∈ cs → ¬ selfEdge l → ∃ l', l' ∈ foldl pushLink ls cs ∧ samePair l' l.
Proof.
  revert ls. induction cs as [|c cs IH]; intros ls Hin Hns; [by apply elem_of_nil in Hin|].
  apply elem_of_cons in Hin as [->|Hin]; [|by apply IH].
  simpl. assert (∃ l', l' ∈ pushLink ls c ∧ samePair l' c) as (l' & Hl' & Hs).
  { destruct (pushLink_cases ls c) as [(-> & _)|(-> & [?|?])]; [|done|done].
    exists c. split; [apply elem_of_app; right; by left | by left]. }
  exists l'. split; [|done].
  destruct (pushAll_prefix cs (pushLink ls c)) as [k ->].
  apply elem_of_app. by left.
Qed.

Lemma pairwiseDistinct_snoc ls l :
  pairwiseDistinct ls → (∀ l', l' ∈ ls → ¬ samePair l' l) → pairwiseDistinct (ls ++ [l]).
Proof.
  induction ls as [|x ls IH]; simpl; intros Hd Hl.
  - split; [|done]. intros l' H. by apply elem_of_nil in H.
  - destruct Hd as [Hx Hd]. split.
    + intros l' H. apply elem_of_app in H as [H|H]; [by apply Hx|].
      apply list_elem_of_singleton in H as ->. apply Hl. by left.
    + apply IH; [done|]. intros l' H. apply Hl. by right.
Qed.

Lemma pairwiseDistinct_lookup ls i j l1 l2 :
  pairwiseDistinct ls → i ≠ j → ls !! i = Some l1 → ls !! j = Some l2 → ¬ samePair l1 l2.
Proof.
  revert i j. induction ls as [|x ls IH]; intros i j Hd Hij Hi Hj; [done|].
  destruct Hd as [Hx Hd]. destruct i as [|i], j as [|j]; simpl in *.
  - done.
  - injection Hi as <-. apply Hx. by eapply list_elem_of_lookup_2.
  - injection Hj as <-. intros Hs. apply samePair_sym in Hs. revert Hs. apply Hx.
    by eapply list_elem_of_lookup_2.
  - apply (IH i j); [done | lia | done | done].
Qed.

Lemma pairwiseDistinct_elem ls l1 l2 :
  pairwiseDistinct ls → l1 ∈ ls → l2 ∈ ls → samePair l1 l2 → l1 = l2.
Proof.
  intros Hd H1 H2 Hs.
  apply list_elem_of_lookup in H1 as [i Hi]. apply list_elem_of_lookup in H2 as [j Hj].
  destruct (decide (i = j)) as [->|Hne]; [congruence|].
  by destruct (pairwiseDistinct_lookup ls i j l1 l2).
Qed.

Lemma pushLink_linksOk ls l : linksOk ls → linksOk (pushLink ls l).
Proof.
  intros [Hs Hd].
  destruct (pushLink_cases ls l) as [(-> & Hns & Hnew)|(-> & _)]; [|done].
  split; [apply Forall_app; split; [done | by constructor]|].
  by apply pairwiseDistinct_snoc.
Qed.

Lemma pushAll_linksOk cs ls : linksOk ls → linksOk (foldl pushLink ls cs).
Proof.
  intros H. apply (foldl_invariant linksOk); [done|].
  intros r l Hr _. by apply pushLink_linksOk.
Qed.

(** An edge is in the result exactly when it is attempted, is no self-edge,
    and nothing attempted before it is on its pair. *)
Lemma pushAll_first cs l :
  l ∈ foldl pushLink [] cs
  ↔ ¬ selfEdge l
    ∧ ∃ c1 c2, cs = c1 ++ l :: c2 ∧ ∀ l', l' ∈ c1 → ¬ selfEdge l' → ¬ samePair l' l.
Proof.
  induction cs as [|c cs IH] using rev_ind.
  { simpl. split; [intros H; by apply elem_of_nil in H|].
    intros (_ & c1 & c2 & H & _). by destruct c1. }
  rewrite foldl_snoc. split.
  - intros H.
    assert (l ∈ foldl pushLink [] cs
            ∨ (l = c ∧ ¬ selfEdge c ∧ ∀ l', l' ∈ foldl pushLink [] cs → ¬ samePair l' c))
      as [Hl|(-> & Hns & Hnew)].
    { destruct (pushLink_cases (foldl pushLink [] cs) c) as [(Heq & ? & ?)|(Heq & _)];
        rewrite Heq in H; [|by left].
      apply elem_of_app in H as [H|H]; [by left|].
      apply list_elem_of_singleton in H as ->. by right. }
    + apply IH in Hl as (Hns & c1 & c2 & -> & Hc1). split; [done|].
      exists c1, (c2 ++ [c]). split; [by rewrite <- app_assoc|done].
    + split; [done|]. exists cs, []. split; [done|].
      intros l' Hl' Hns' Hs.
      destruct (pushAll_covers cs [] l' Hl' Hns') as (l'' & Hl'' & Hs').
      apply (Hnew l'' Hl''). by eapply samePair_trans.
  - intros (Hns & c1 & c2 & Heq & Hc1).
    destruct c2 as [|x c2 _] using rev_ind.
    + apply app_inj_tail in Heq as [-> ->].
      destruct (pushLink_cases (foldl pushLink [] c1) l) as [(-> & _)|(_ & [?|(l' & Hl' & Hs)])];
        [apply elem_of_app; right; by left | done |].
      destruct (pushAll_elem c1 [] l' Hl') as [Hnil|Hin]; [by apply elem_of_nil in Hnil|].
      destruct (Hc1 l' Hin); [|done].
      intros Hself. apply Hns. by eapply samePair_selfEdge.
    + rewrite app_comm_cons, app_assoc in Heq. apply app_inj_tail in Heq as [-> <-].
      destruct (pushLink_prefix (foldl pushLink [] (c1 ++ l :: c2)) c) as [k ->].
      apply elem_of_app. left. apply IH. split; [done|]. by exists c1, c2.
Qed.

(** ** The second pass *)

Lemma nodePass_snoc allData tags tp groups sel path :
  nodePass allData tags tp groups (sel ++ [path])
  = nodePassStep allData tags tp groups (nodePass allData tags tp groups sel) path.
Proof. apply foldl_snoc. Qed.

(** The nodes are the selected paths the corpus knows, in selection order. *)
Lemma nodePass_nodes allData tags tp groups sel :
  (nodePass allData tags tp groups sel).1
  = omap (λ path, newNode tags tp groups path <$> getEntry path allData) sel.
Proof.
  induction sel as [|path sel IH] using rev_ind; [done|].
  rewrite nodePass_snoc, omap_app. unfold nodePassStep. simpl.
  destruct (getEntry path allData) as [fs|]; simpl.
  - by rewrite IH.
  - by rewrite app_nil_r.
Qed.

(** The node map holds nothing but nodes of the node array. *)
Lemma nodePass_map allData tags tp groups sel k n :
  (nodePass allData tags tp groups sel).2 !! k = Some n
  → n ∈ (nodePass allData tags tp groups sel).1.
Proof.
  induction sel as [|path sel IH] using rev_ind; [done|].
  rewrite nodePass_snoc. unfold nodePassStep.
  destruct (getEntry path allData) as [fs|]; [|done]. simpl.
  intros H. apply elem_of_app.
  apply lookup_insert_Some in H as [[_ <-]|[_ H]]; [right; by left|].
  apply lookup_insert_Some in H as [[_ <-]|[_ H]]; [right; by left|].
  left. by apply IH.
Qed.

(** The early return on an empty selection is what the three passes give
    on it, so the build is the three passes on every selection. *)
Lemma generateGraphData_passes allData sel tags st :
  generateGraphData allData sel tags st
  = (let tp := tagPass allData tags sel in
     let np := nodePass allData tags tp (createUntaggedGroups (untaggedFiles tp)) sel in
     (np.1, linkPass allData tags st sel tp np.2)).
Proof. unfold generateGraphData. by destruct sel. Qed.

Lemma elem_of_nodes allData sel tags st n :
  n ∈ (generateGraphData allData sel tags st).1
  ↔ ∃ path fs, path ∈ sel ∧ getEntry path allData = Some fs
      ∧ n = newNode tags (tagPass allData tags sel)
              (createUntaggedGroups (untaggedFiles (tagPass allData tags sel))) path fs.
Proof.
  rewrite generateGraphData_passes. cbv zeta. simpl fst.
  rewrite nodePass_nodes, list_elem_of_omap. split.
  - intros (path & Hin & H). destruct (getEntry path allData) as [fs|] eqn:Hfs; [|done].
    injection H as <-. by exists path, fs.
  - intros (path & fs & Hin & Hfs & ->). exists path. split; [done|]. by rewrite Hfs.
Qed.

(** ** What the attempted edges are made of *)

Lemma orElse_Some {A : Type} (a b : option A) (x : A) :
  orElse a b = Some x → a = Some x ∨ b = Some x.
Proof. destruct a; simpl; auto. Qed.

Lemma wikiCandidate_Some allData sel nodeMap src link l :
  wikiCandidate allData sel nodeMap src link = Some l
  → link_source l = src ∧ fromMap nodeMap (link_target l)
    ∧ link_type l = WikiLink ∧ link_tag l = None.
Proof.
  unfold wikiCandidate.
  destruct (findTarget allData (stripMd link)) as [[tp tf]|]; [|done].
  destruct (decide (tp ∈ sel)); [|done].
  destruct (orElse (nodeMap !! file tf) (nodeMap !! tp)) as [n|] eqn:Hn; [|done].
  intros [= <-]. simpl. repeat split.
  apply orElse_Some in Hn as [Hn|Hn]; by eexists.
Qed.

Lemma tagCandidate_Some sel nodeMap path src tag targetPath l :
  tagCandidate sel nodeMap path src tag targetPath = Some l
  → link_source l = src ∧ fromMap nodeMap (link_target l)
    ∧ link_type l = TagLink ∧ link_tag l = Some tag.
Proof.
  unfold tagCandidate.
  destruct (decide (targetPath ≠ path ∧ targetPath ∈ sel)); [|done].
  destruct (nodeMap !! targetPath) as [n|] eqn:Hn; [|done].
  intros [= <-]. simpl. repeat split. by eexists.
Qed.

Lemma pathCandidates_elem allData tags st sel tp nodeMap path l :
  l ∈ pathCandidates allData tags st sel tp nodeMap path
  → fromMap nodeMap (link_source l) ∧ fromMap nodeMap (link_target l)
    ∧ (link_type l = WikiLink ∧ link_tag l = None
       ∨ link_type l = TagLink ∧ showTagConnections st = true ∧ is_Some (link_tag l)).
Proof.
  unfold pathCandidates.
  destruct (getEntry path allData) as [fs|]; [|by intros H; apply elem_of_nil in H].
  destruct (orElse (nodeMap !! file fs) (nodeMap !! path)) as [src|] eqn:Hsrc;
    [|by intros H; apply elem_of_nil in H].
  assert (fromMap nodeMap src) as Hfrom.
  { apply orElse_Some in Hsrc as [H|H]; by eexists. }
  intros H. apply elem_of_app in H as [H|H].
  - apply list_elem_of_omap in H as (link & _ & H).
    apply wikiCandidate_Some in H as (-> & ? & ? & ?). auto.
  - destruct (showTagConnections st); [|by apply elem_of_nil in H].
    apply list_elem_of_bind in H as (tag & H & _). unfold tagCandidates in H.
    destruct (getEntry tag tags) as [td|]; [|by apply elem_of_nil in H].
    apply list_elem_of_omap in H as (targetPath & _ & H).
    apply tagCandidate_Some in H as (-> & ? & ? & ->). split; [done|]. split; [done|].
    right. eauto.
Qed.

(** The edge array is the fold of the guarded push over the attempted edges. *)
Lemma links_pushAll allData sel tags st :
  (generateGraphData allData sel tags st).2
  = foldl pushLink [] (attemptedLinks allData sel tags st).
Proof.
  rewrite generateGraphData_passes. apply linkPass_candidates.
Qed.

Lemma attemptedLinks_elem allData sel tags st l :
  l ∈ attemptedLinks allData sel tags st
  → fromMap (nodePass allData tags (tagPass allData tags sel)
               (createUntaggedGroups (untaggedFiles (tagPass allData tags sel))) sel).2
            (link_source l)
    ∧ fromMap (nodePass allData tags (tagPass allData tags sel)
                 (createUntaggedGroups (untaggedFiles (tagPass allData tags sel))) sel).2
              (link_target l)
    ∧ (link_type l = WikiLink ∧ link_tag l = None
       ∨ link_type l = TagLink ∧ showTagConnections st = true ∧ is_Some (link_tag l)).
Proof.
  unfold attemptedLinks. cbv zeta. intros H.
  apply list_elem_of_bind in H as (path & H & _). by eapply pathCandidates_elem.
Qed.

(** The edges of the build are attempted edges. *)
Lemma elem_of_links allData sel tags st e :
  e ∈ (generateGraphData allData sel tags st).2 → e ∈ attemptedLinks allData sel tags st.
Proof.
  rewrite links_pushAll. intros H.
  apply pushAll_elem in H as [H|H]; [by apply elem_of_nil in H|done].
Qed.

(** ** C4: an empty selection gives an empty graph *)

(** C4. For every corpus, tag index and settings, the build on the empty
    selection returns the empty node array and the empty edge array; the
    function is total, so this is an ordinary result. *)
Theorem empty_selection_empty_graph (allData : Corpus) (tags : TagIndex)
    (settings : GraphSettings) :
  generateGraphData allData [] tags settings = ([], []).
Proof. reflexivity. Qed.

(** ** C10: edges join nodes of the node array *)

(** C10. Every edge of the build has its source node and its target node in
    the node array of the same build. *)
Theorem edge_endpoints_are_nodes (allData : Corpus) (selectedNodes : Selection)
    (tags : TagIndex) (settings : GraphSettings) (e : GraphLink) :
  e ∈ (generateGraphData allData selectedNodes tags settings).2
  → link_source e ∈ (generateGraphData allData selectedNodes tags settings).1
    ∧ link_target e ∈ (generateGraphData allData selectedNodes tags settings).1.
Proof.
  intros He. pose proof (elem_of_links _ _ _ _ _ He) as Hc.
  apply attemptedLinks_elem in Hc as ([k1 H1] & [k2 H2] & _).
  rewrite generateGraphData_passes. split; eapply nodePass_map; eassumption.
Qed.

Lemma edge_endpoints_are_nodes_witness :
  let g := generateGraphData chainCorpus chainSelection [] (defaultSettings false) in
  ∃ e, e ∈ g.2 ∧ link_source e ∈ g.1 ∧ link_target e ∈ g.1.
Proof.
  cbv zeta.
  exists {| link_source := {| node_id := "A"; node_name := "A"; node_path := "notes/A.md";
                              node_radius := 12; node_isSelected := true;
                              node_color := "untagged-group-1" |};
            link_target := {| node_id := "B"; node_name := "B"; node_path := "notes/B.md";
                              node_radius := 12; node_isSelected := true;
                              node_color := "untagged-group-1" |};
            link_type := WikiLink; link_tag := None |}.
  assert (∀ P Q : Prop, P → (P → Q) → P ∧ Q) as Hcut by tauto.
  apply Hcut; [vm_compute; left|].
  apply (edge_endpoints_are_nodes chainCorpus chainSelection [] (defaultSettings false)).
Defined.

(** ** C3: one edge per unordered pair, no self-edge *)

Lemma generateGraphData_linksOk allData sel tags st :
  linksOk (generateGraphData allData sel tags st).2.
Proof.
  rewrite links_pushAll. apply pushAll_linksOk. by split.
Qed.

(** C3. In the edge array of every build no edge joins a node to itself
    (nor two nodes of the same id), and two edges at different positions
    never join the same unordered pair of nodes, whatever their kinds.  Of
    the edges the build attempts, the one that stays on a pair is the one
    attempted first: an edge is in the array exactly when it is attempted,
    is no self-edge, and no edge attempted before it is on its pair. *)
Theorem edges_unique_per_pair (allData : Corpus) (selectedNodes : Selection)
    (tags : TagIndex) (settings : GraphSettings) :
  let ls := (generateGraphData allData selectedNodes tags settings).2 in
  Forall (λ e, link_source e ≠ link_target e
               ∧ node_id (link_source e) ≠ node_id (link_target e)) ls
  ∧ (∀ i j e1 e2, i ≠ j → ls !! i = Some e1 → ls !! j = Some e2 →
       ¬ samePair e1 e2
       ∧ ¬ (link_source e1 = link_source e2 ∧ link_target e1 = link_target e2)
       ∧ ¬ (link_source e1 = link_target e2 ∧ link_target e1 = link_source e2))
  ∧ (∀ e, e ∈ ls
          ↔ ¬ selfEdge e
            ∧ ∃ before after,
                attemptedLinks allData selectedNodes tags settings = before ++ e :: after
                ∧ ∀ e', e' ∈ before → ¬ selfEdge e' → ¬ samePair e' e).
Proof.
  cbv zeta. destruct (generateGraphData_linksOk allData selectedNodes tags settings)
    as [Hself Hd].
  split; [|split].
  - eapply Forall_impl; [exact Hself|]. intros e He. unfold selfEdge in He.
    split; [|done]. intros Heq. apply He. by rewrite Heq.
  - intros i j e1 e2 Hij H1 H2.
    pose proof (pairwiseDistinct_lookup _ i j e1 e2 Hd Hij H1 H2) as Hn.
    split; [done|]. split; intros [Ha Hb]; apply Hn; [left | right]; by rewrite Ha, Hb.
  - intros e. rewrite links_pushAll. apply pushAll_first.
Qed.

(** ** C1: which documents get a node *)

(** C1, as the build decides it. A document of the corpus gets a node
    exactly when its path, the key it has in the corpus, is in the
    selection; that node carries the document's basename as id and name.
    The basename and the path without its extension select nothing unless
    they are corpus keys themselves. *)
Theorem node_iff_path_selected (allData : Corpus) (selectedNodes : Selection)
    (tags : TagIndex) (settings : GraphSettings) (path : string) (fileSummary : FileSummary) :
  getEntry path allData = Some fileSummary
  → ((∃ n, n ∈ (generateGraphData allData selectedNodes tags settings).1
           ∧ node_path n = path)
     ↔ path ∈ selectedNodes)
    ∧ (∀ n, n ∈ (generateGraphData allData selectedNodes tags settings).1
            → node_path n = path
            → node_id n = file fileSummary ∧ node_name n = file fileSummary
              ∧ node_radius n = 12 ∧ node_isSelected n = true).
Proof.
  intros Hfs. split; [split|].
  - intros (n & Hn & <-). by apply elem_of_nodes in Hn as (p & fs & Hin & _ & ->).
  - intros Hin. eexists. split; [apply elem_of_nodes; by exists path, fileSummary|done].
  - intros n Hn <-. apply elem_of_nodes in Hn as (p & fs & _ & Hfs' & ->).
    simpl in *. rewrite Hfs in Hfs'. by injection Hfs' as <-.
Qed.

Lemma node_iff_path_selected_witness :
  let g := generateGraphData chainCorpus ["notes/B.md"] [] (defaultSettings false) in
  ((∃ n, n ∈ g.1 ∧ node_path n = "notes/B.md") ↔ "notes/B.md" ∈ ["notes/B.md"])
  ∧ (∀ n, n ∈ g.1 → node_path n = "notes/B.md"
          → node_id n = "B" ∧ node_name n = "B"
            ∧ node_radius n = 12 ∧ node_isSelected n = true).
Proof.
  cbv zeta.
  apply (node_iff_path_selected chainCorpus ["notes/B.md"] [] (defaultSettings false)
           "notes/B.md" (summary "B" ["C.md"])).
  reflexivity.
Defined.

(** The three-spelling rule fails on the build: selecting the basename "A"
    of notes/A.md, or the path without its extension, gives no node. *)
Lemma node_by_basename_counterexample :
  ¬ (∀ (allData : Corpus) (selectedNodes : Selection) (tags : TagIndex)
       (settings : GraphSettings) (path : string) (fileSummary : FileSummary),
       getEntry path allData = Some fileSummary
       → ((∃ n, n ∈ (generateGraphData allData selectedNodes tags settings).1
                ∧ node_path n = path)
          ↔ (path ∈ selectedNodes ∨ file fileSummary ∈ selectedNodes
             ∨ stripMd path ∈ selectedNodes))).
Proof.
  intros H.
  destruct (H chainCorpus ["A"; "notes/A"] [] (defaultSettings false)
              "notes/A.md" (summary "A" ["B"; "Z"]) eq_refl) as [_ Hincl].
  destruct Hincl as (n & Hn & _).
  - right. left. simpl. by left.
  - vm_compute in Hn. by apply elem_of_nil in Hn.
Qed.

Lemma nodePass_paths allData tags tp groups sel :
  node_path <$> (nodePass allData tags tp groups sel).1 = selectedDocuments allData sel.
Proof.
  rewrite nodePass_nodes. unfold selectedDocuments.
  induction sel as [|q l IH]; [done|]. simpl.
  destruct (getEntry q allData) as [fs|] eqn:Hq; simpl.
  - rewrite filter_cons_True by (by rewrite Hq). f_equal. exact IH.
  - rewrite filter_cons_False by (rewrite Hq; by intros [? ?]). exact IH.
Qed.

(** X2. The node array holds one node per entry of the selection that is a
    key of the corpus, in selection order. *)
Theorem nodes_are_selected_documents (allData : Corpus) (selectedNodes : Selection)
    (tags : TagIndex) (settings : GraphSettings) :
  node_path <$> (generateGraphData allData selectedNodes tags settings).1
  = selectedDocuments allData selectedNodes.
Proof.
  rewrite generateGraphData_passes. apply nodePass_paths.
Qed.

(** ** C9: links that resolve to nothing *)

Lemma getEntry_setLinks path ls allData p :
  getEntry p (setLinks path ls allData)
  = (λ fs, if decide (p = path) then withLinks fs ls else fs) <$> getEntry p allData.
Proof.
  induction allData as [|[k v] allData IH]; [done|]. simpl.
  destruct (decide (k = path)) as [->|Hk]; simpl.
  - destruct (decide (path = p)) as [<-|Hp]; [|done].
    simpl. by destruct (decide (path = path)).
  - destruct (decide (k = p)) as [<-|Hp]; [|done].
    simpl. by destruct (decide (k = path)).
Qed.

Lemma findTarget_setLinks path ls allData n :
  findTarget (setLinks path ls allData) n
  = (λ e, if decide (e.1 = path) then (e.1, withLinks e.2 ls) else e)
      <$> findTarget allData n.
Proof.
  unfold findTarget. induction allData as [|[k v] allData IH]; [done|]. simpl.
  destruct (decide (k = path)) as [->|Hk]; simpl.
  - destruct (String.eqb (file v) n || String.eqb path n || String.eqb (stripMd path) n);
      [|done].
    simpl. by destruct (decide (path = path)).
  - destruct (String.eqb (file v) n || String.eqb k n || String.eqb (stripMd k) n);
      [|done].
    simpl. by destruct (decide (k = path)).
Qed.

Lemma wikiLinkStep_setLinks path ls allData sel nodeMap src acc link :
  wikiLinkStep (setLinks path ls allData) sel nodeMap src acc link
  = wikiLinkStep allData sel nodeMap src acc link.
Proof.
  unfold wikiLinkStep. rewrite findTarget_setLinks.
  destruct (findTarget allData (stripMd link)) as [[tp tf]|]; [|done]. simpl.
  by destruct (decide (tp = path)).
Qed.

Lemma tagPass_setLinks path ls allData tags sel :
  tagPass (setLinks path ls allData) tags sel = tagPass allData tags sel.
Proof.
  unfold tagPass. apply foldl_ext_in. intros st p _. unfold tagPassStep.
  rewrite getEntry_setLinks. by destruct (getEntry p allData).
Qed.

Lemma nodePass_setLinks path ls allData tags tp groups sel :
  nodePass (setLinks path ls allData) tags tp groups sel
  = nodePass allData tags tp groups sel.
Proof.
  unfold nodePass. apply foldl_ext_in. intros acc p _. unfold nodePassStep.
  rewrite getEntry_setLinks. destruct (getEntry p allData) as [fs|]; [|done].
  simpl. by destruct (decide (p = path)).
Qed.

(** A link that resolves to nothing leaves the edges as they are. *)
Lemma wikiLinkStep_unresolved allData sel nodeMap src acc link :
  findTarget allData (stripMd link) = None
  → wikiLinkStep allData sel nodeMap src acc link = acc.
Proof. unfold wikiLinkStep. by intros ->. Qed.

Lemma linkPassStep_setLinks path fs l1 link l2 allData tags st sel tp nodeMap acc p :
  getEntry path allData = Some fs
  → links fs = l1 ++ link :: l2
  → findTarget allData (stripMd link) = None
  → linkPassStep (setLinks path (l1 ++ l2) allData) tags st sel tp nodeMap acc p
    = linkPassStep allData tags st sel tp nodeMap acc p.
Proof.
  intros Hfs Hlinks Hnone. unfold linkPassStep. rewrite getEntry_setLinks.
  destruct (getEntry p allData) as [fs'|] eqn:Hp; [|done]. simpl.
  assert (file (if decide (p = path) then withLinks fs' (l1 ++ l2) else fs') = file fs')
    as -> by by destruct (decide (p = path)).
  destruct (orElse (nodeMap !! file fs') (nodeMap !! p)) as [src|]; [|done].
  assert (foldl (wikiLinkStep (setLinks path (l1 ++ l2) allData) sel nodeMap src) acc
            (links (if decide (p = path) then withLinks fs' (l1 ++ l2) else fs'))
          = foldl (wikiLinkStep allData sel nodeMap src) acc (links fs')) as ->; [|done].
  rewrite (foldl_ext_in (wikiLinkStep (setLinks path (l1 ++ l2) allData) sel nodeMap src)
             (wikiLinkStep allData sel nodeMap src))
    by (intros; apply wikiLinkStep_setLinks).
  destruct (decide (p = path)) as [->|]; [|done].
  rewrite Hfs in Hp. injection Hp as <-. simpl. rewrite Hlinks, !foldl_app. simpl.
  by rewrite wikiLinkStep_unresolved.
Qed.

(** C9. Let an outbound link of a selected document resolve to no document
    of the corpus.  The build still emits the node of that document, the
    step of the link loop that handles the link changes nothing, and the
    whole build is the one of the corpus without that link: the other
    links and documents are processed as if the link were not there. *)
Theorem unresolved_link_is_dropped (allData : Corpus) (selectedNodes : Selection)
    (tags : TagIndex) (settings : GraphSettings) (path : string)
    (fileSummary : FileSummary) (before : list string) (link : string)
    (after : list string) :
  getEntry path allData = Some fileSummary
  → path ∈ selectedNodes
  → links fileSummary = before ++ link :: after
  → findTarget allData (stripMd link) = None
  → (∃ n, n ∈ (generateGraphData allData selectedNodes tags settings).1
          ∧ node_path n = path)
    ∧ (∀ nodeMap sourceNode ls,
         wikiLinkStep allData selectedNodes nodeMap sourceNode ls link = ls)
    ∧ generateGraphData allData selectedNodes tags settings
      = generateGraphData (setLinks path (before ++ after) allData)
          selectedNodes tags settings.
Proof.
  intros Hfs Hsel Hlinks Hnone. split; [|split].
  - eexists. split; [apply elem_of_nodes; by exists path, fileSummary|done].
  - intros. by apply wikiLinkStep_unresolved.
  - rewrite !generateGraphData_passes. cbv zeta.
    rewrite tagPass_setLinks, nodePass_setLinks. f_equal.
    unfold linkPass. symmetry. apply foldl_ext_in. intros acc p _.
    by eapply linkPassStep_setLinks.
Qed.

(** The scenario of the specification: A links to Z only, Z is no document,
    A is selected; the build is one node and no edge. *)
Lemma unresolved_link_is_dropped_witness :
  let g := generateGraphData danglingCorpus ["A.md"] [] (defaultSettings true) in
  ((∃ n, n ∈ g.1 ∧ node_path n = "A.md")
   ∧ (∀ nodeMap sourceNode ls,
        wikiLinkStep danglingCorpus ["A.md"] nodeMap sourceNode ls "Z" = ls)
   ∧ g = generateGraphData (setLinks "A.md" [] danglingCorpus) ["A.md"] []
           (defaultSettings true))
  ∧ length g.1 = 1 ∧ g.2 = [].
Proof.
  cbv zeta. split; [|by vm_compute].
  apply (unresolved_link_is_dropped danglingCorpus ["A.md"] [] (defaultSettings true)
           "A.md" (summary "A" ["Z"]) [] "Z" []).
  - reflexivity.
  - by left.
  - reflexivity.
  - reflexivity.
Defined.

(** ** C5: the tag-connection switch *)

Lemma filter_bind {A B : Type} (P : B → Prop) `{∀ x, Decision (P x)}
    (f : A → list B) (l : list A) :
  filter P (l ≫= f) = l ≫= (λ x, filter P (f x)).
Proof.
  induction l as [|x l IH]; [done|]. by rewrite !bind_cons, filter_app, IH.
Qed.

Lemma filter_all {A : Type} (P : A → Prop) `{∀ x, Decision (P x)} (l : list A) :
  (∀ x, x ∈ l → P x) → filter P l = l.
Proof.
  induction l as [|x l IH]; intros Hl; [done|].
  rewrite filter_cons_True by (apply Hl; by left).
  f_equal. apply IH. intros y Hy. apply Hl. by right.
Qed.

Lemma filter_none {A : Type} (P : A → Prop) `{∀ x, Decision (P x)} (l : list A) :
  (∀ x, x ∈ l → ¬ P x) → filter P l = [].
Proof.
  induction l as [|x l IH]; intros Hl; [done|].
  rewrite filter_cons_False by (apply Hl; by left).
  apply IH. intros y Hy. apply Hl. by right.
Qed.

(** With the switch off the build attempts the wiki links of the build with
    the switch on, in the same order, and nothing else. *)
Lemma pathCandidates_off allData tags st sel tp nodeMap path :
  pathCandidates allData tags (withTagConnections false st) sel tp nodeMap path
  = filter isWikiLink
      (pathCandidates allData tags (withTagConnections true st) sel tp nodeMap path).
Proof.
  unfold pathCandidates. simpl.
  destruct (getEntry path allData) as [fs|]; [|done].
  destruct (orElse (nodeMap !! file fs) (nodeMap !! path)) as [src|]; [|done].
  rewrite filter_app, app_nil_r, filter_all, filter_none.
  - by rewrite app_nil_r.
  - intros l H. apply list_elem_of_bind in H as (tag & H & _). unfold tagCandidates in H.
    destruct (getEntry tag tags) as [td|]; [|by apply elem_of_nil in H].
    apply list_elem_of_omap in H as (targetPath & _ & H).
    apply tagCandidate_Some in H as (_ & _ & Hty & _). unfold isWikiLink. by rewrite Hty.
  - intros l H. apply list_elem_of_omap in H as (link & _ & H).
    by apply wikiCandidate_Some in H as (_ & _ & Hty & _).
Qed.

Lemma attemptedLinks_off allData sel tags st :
  attemptedLinks allData sel tags (withTagConnections false st)
  = filter isWikiLink (attemptedLinks allData sel tags (withTagConnections true st)).
Proof.
  unfold attemptedLinks. cbv zeta. rewrite filter_bind.
  apply list_bind_ext; [|done]. intros path. apply pathCandidates_off.
Qed.

Lemma generateGraphData_nodes_settings allData sel tags st st' :
  (generateGraphData allData sel tags st).1 = (generateGraphData allData sel tags st').1.
Proof. by rewrite !generateGraphData_passes. Qed.

(** The two edge arrays as folds over one list of attempts [cs] and over
    its wiki links. *)
Section toggle.
Variable cs : list GraphLink.

Lemma off_all_wiki e :
  e ∈ foldl pushLink [] (filter isWikiLink cs) → isWikiLink e ∧ ¬ selfEdge e ∧ e ∈ cs.
Proof.
  intros H. pose proof H as H'. apply pushAll_first in H' as [Hns _].
  apply pushAll_elem in H as [H|H]; [by apply elem_of_nil in H|].
  apply list_elem_of_filter in H as [? ?]. done.
Qed.

Lemma on_wiki_in_off e :
  e ∈ foldl pushLink [] cs → isWikiLink e → e ∈ foldl pushLink [] (filter isWikiLink cs).
Proof.
  intros H Hw. apply pushAll_first in H as (Hns & c1 & c2 & Hcs & Hc1).
  apply pushAll_first. split; [done|].
  exists (filter isWikiLink c1), (filter isWikiLink c2). split.
  - by rewrite Hcs, filter_app, filter_cons_True.
  - intros l' Hl'. apply list_elem_of_filter in Hl' as [_ Hl']. by apply Hc1.
Qed.

Lemma off_in_on_or_displaced e :
  e ∈ foldl pushLink [] (filter isWikiLink cs)
  → e ∈ foldl pushLink [] cs
    ∨ ∃ e', e' ∈ foldl pushLink [] cs ∧ link_type e' = TagLink ∧ samePair e' e.
Proof.
  intros H. destruct (off_all_wiki e H) as (Hw & Hns & Hcs).
  destruct (pushAll_covers cs [] e Hcs Hns) as (e' & He' & Hs).
  destruct (link_type e') eqn:Hty; [left | right; by exists e'].
  assert (e' = e) as <-; [|done].
  apply (pairwiseDistinct_elem (foldl pushLink [] (filter isWikiLink cs))); [| |done|done].
  - apply pushAll_linksOk. by split.
  - by apply on_wiki_in_off.
Qed.

End toggle.

(** C5, as the build behaves. The switch does not change the nodes. With
    the switch off every edge is a wiki link; every wiki-link edge of the
    build with the switch on is an edge of the build with the switch off;
    and an edge of the build with the switch off is either an edge of the
    build with the switch on, or has there a shared-tag edge on its pair in
    its place.  So the pairs joined with the switch off are joined with the
    switch on, and an edge that only the build with the switch on has is a
    shared-tag edge. *)
Theorem tag_switch_edges (allData : Corpus) (selectedNodes : Selection)
    (tags : TagIndex) (settings : GraphSettings) :
  let off := generateGraphData allData selectedNodes tags
               (withTagConnections false settings) in
  let on := generateGraphData allData selectedNodes tags
              (withTagConnections true settings) in
  off.1 = on.1
  ∧ Forall (λ e, link_type e = WikiLink) off.2
  ∧ (∀ e, e ∈ on.2 → link_type e = WikiLink → e ∈ off.2)
  ∧ (∀ e, e ∈ off.2
          → e ∈ on.2 ∨ ∃ e', e' ∈ on.2 ∧ link_type e' = TagLink ∧ samePair e' e)
  ∧ (∀ e, e ∈ on.2 → e ∉ off.2 → link_type e = TagLink).
Proof.
  cbv zeta. rewrite !links_pushAll, attemptedLinks_off.
  split; [apply generateGraphData_nodes_settings|].
  split; [|split; [|split]].
  - apply Forall_forall. intros e He. by apply off_all_wiki in He as [? _].
  - intros e. apply on_wiki_in_off.
  - intros e. apply off_in_on_or_displaced.
  - intros e He Hn. destruct (link_type e) eqn:Hty; [|done].
    destruct Hn. by apply on_wiki_in_off.
Qed.

(** With the tag x on both A and B and a wiki link from B to A, the
    wiki-link edge B -> A of the build with the switch off has no
    counterpart in the build with the switch on, not even up to direction:
    processing A first joins the pair by a shared-tag edge, and B's wiki
    link then finds the pair taken. *)
Lemma tag_switch_subset_counterexample :
  ¬ (∀ (allData : Corpus) (selectedNodes : Selection) (tags : TagIndex)
       (settings : GraphSettings) (e : GraphLink),
       e ∈ (generateGraphData allData selectedNodes tags
              (withTagConnections false settings)).2
       → ∃ e', e' ∈ (generateGraphData allData selectedNodes tags
                       (withTagConnections true settings)).2
               ∧ samePair e' e ∧ link_type e' = link_type e).
Proof.
  intros H.
  pose (a := {| node_id := "A"; node_name := "A"; node_path := "A.md"; node_radius := 12;
                node_isSelected := true; node_color := "tag-color-1" |}).
  pose (b := {| node_id := "B"; node_name := "B"; node_path := "B.md"; node_radius := 12;
                node_isSelected := true; node_color := "tag-color-1" |}).
  specialize (H taggedPairCorpus taggedPairSelection taggedPairTags (defaultSettings false)
                {| link_source := b; link_target := a;
                   link_type := WikiLink; link_tag := None |}).
  assert (generateGraphData taggedPairCorpus taggedPairSelection taggedPairTags
            (withTagConnections true (defaultSettings false))
          = ([a; b], [{| link_source := a; link_target := b;
                         link_type := TagLink; link_tag := Some "x" |}])) as Hon
    by by vm_compute.
  assert (generateGraphData taggedPairCorpus taggedPairSelection taggedPairTags
            (withTagConnections false (defaultSettings false))
          = ([a; b], [{| link_source := b; link_target := a;
                         link_type := WikiLink; link_tag := None |}])) as Hoff
    by by vm_compute.
  rewrite Hon, Hoff in H. simpl in H.
  destruct H as (e' & He' & _ & Hty); [by left|].
  apply list_elem_of_singleton in He' as ->. discriminate Hty.
Qed.

(** ** The first pass *)

Lemma tagPass_snoc allData tags sel path :
  tagPass allData tags (sel ++ [path])
  = tagPassStep allData tags (tagPass allData tags sel) path.
Proof. apply foldl_snoc. Qed.

Lemma collectTags_fst tags path tg :
  (collectTags tags path tg).1 = tagNamesOf tags path.
Proof.
  unfold collectTags, tagNamesOf.
  induction tags as [|e tags IH] using rev_ind; [done|].
  rewrite !foldl_snoc. destruct (decide (path ∈ tag_files e.2)); simpl; by rewrite IH.
Qed.

Lemma setAdd_not_nil x s : setAdd x s ≠ [].
Proof.
  unfold setAdd. destruct (decide (x ∈ s)) as [H|H].
  - intros ->. by apply elem_of_nil in H.
  - by destruct s.
Qed.

Lemma tagNamesOf_nil tags path : tagNamesOf tags path = [] ↔ untagged tags path.
Proof.
  unfold tagNamesOf, untagged.
  induction tags as [|e tags IH] using rev_ind; [done|].
  rewrite foldl_snoc, Forall_app, Forall_singleton.
  destruct (decide (path ∈ tag_files e.2)) as [Hin|Hout].
  - split; [intros H; by apply setAdd_not_nil in H | by intros [_ ?]].
  - rewrite IH. tauto.
Qed.

Lemma tagPass_untaggedFiles allData tags sel :
  untaggedFiles (tagPass allData tags sel) = untaggedSelected allData tags sel.
Proof.
  unfold untaggedSelected, selectedDocuments.
  induction sel as [|path sel IH] using rev_ind; [done|].
  rewrite tagPass_snoc, !filter_app. unfold tagPassStep.
  destruct (getEntry path allData) as [fs|] eqn:Hfs.
  - rewrite (filter_cons_True _ path) by (by rewrite Hfs). rewrite filter_nil. simpl.
    rewrite collectTags_fst, IH.
    destruct (decide (untagged tags path)) as [Hu|Hu].
    + rewrite filter_cons_True, filter_nil by done.
      apply tagNamesOf_nil in Hu. by rewrite Hu.
    + rewrite filter_cons_False, filter_nil, app_nil_r by done.
      destruct (tagNamesOf tags path) eqn:Hn; [|done].
      destruct Hu. by apply tagNamesOf_nil.
  - rewrite (filter_cons_False _ path) by (rewrite Hfs; by intros [? ?]).
    rewrite !filter_nil. by rewrite IH, app_nil_r.
Qed.

Lemma tagPass_fileTags allData tags sel path :
  path ∈ selectedDocuments allData sel
  → fileTags (tagPass allData tags sel) !! path = Some (tagNamesOf tags path).
Proof.
  unfold selectedDocuments.
  induction sel as [|p sel IH] using rev_ind; [by intros H; apply elem_of_nil in H|].
  rewrite tagPass_snoc, filter_app. unfold tagPassStep. intros H.
  destruct (getEntry p allData) as [fs|] eqn:Hfs.
  - simpl. destruct (decide (p = path)) as [->|Hne].
    + by rewrite lookup_insert_eq, collectTags_fst.
    + rewrite lookup_insert_ne by done. apply IH.
      apply elem_of_app in H as [H|H]; [done|].
      apply list_elem_of_filter in H as [_ H]. apply list_elem_of_singleton in H. congruence.
  - apply IH. apply elem_of_app in H as [H|H]; [done|].
    apply list_elem_of_filter in H as [Hs H]. apply list_elem_of_singleton in H as ->.
    rewrite Hfs in Hs. by destruct Hs.
Qed.

(** ** C6: seven untagged documents *)

(** With three groups the last group that holds the path gives the color. *)
Lemma untaggedColor_three (a b c : list string) (path : string) :
  untaggedColor [(1, a); (2, b); (3, c)] path
  = if decide (path ∈ c) then "untagged-group-3"
    else if decide (path ∈ b) then "untagged-group-2"
    else "untagged-group-1".
Proof. unfold untaggedColor. simpl. by repeat case_decide. Qed.

(** *** The groups for any number of untagged files *)

Lemma groupsHas_true (groups : Groups) (k : nat) :
  groupsHas groups k = true ↔ ∃ files, (k, files) ∈ groups.
Proof.
  unfold groupsHas. rewrite existsb_exists. split.
  - intros ([k' files] & Hin & Hk). apply Nat.eqb_eq in Hk. simpl in Hk. subst k'.
    exists files. by apply list_elem_of_In.
  - intros (files & Hin). exists (k, files). split; [by apply list_elem_of_In|].
    by apply Nat.eqb_eq.
Qed.

Lemma groupsHas_false (groups : Groups) (k : nat) :
  groupsHas groups k = false ↔ k ∉ groups.*1.
Proof.
  rewrite <- not_true_iff_false, groupsHas_true, list_elem_of_fmap. split.
  - intros H ([k' files] & -> & Hin). apply H. by exists files.
  - intros H (files & Hin). apply H. by exists (k, files).
Qed.

Lemma groupsPush_keys (k : nat) (f : string) (groups : Groups) :
  (groupsPush k f groups).*1 = groups.*1.
Proof.
  unfold groupsPush. induction groups as [|[k' files] groups IH]; [done|].
  rewrite !fmap_cons, IH. simpl. by destruct (k' =? k).
Qed.

Lemma groupsPush_absent (k : nat) (f : string) (groups : Groups) :
  k ∉ groups.*1 → groupsPush k f groups = groups.
Proof.
  unfold groupsPush. induction groups as [|[k' files] groups IH]; [done|].
  rewrite !fmap_cons, not_elem_of_cons. simpl. intros [Hne Hnot].
  destruct (Nat.eqb_spec k' k) as [->|_]; [done|]. f_equal. by apply IH.
Qed.

Lemma elem_of_groupsPush (k : nat) (f : string) (groups : Groups) (k' : nat)
    (files : list string) :
  (k', files) ∈ groupsPush k f groups
  ↔ (k' = k ∧ ∃ files0, (k, files0) ∈ groups ∧ files = files0 ++ [f])
    ∨ (k' ≠ k ∧ (k', files) ∈ groups).
Proof.
  unfold groupsPush. rewrite list_elem_of_fmap. split.
  - intros ([k0 files0] & Heq & Hin). simpl in Heq.
    destruct (Nat.eqb_spec k0 k) as [->|Hne]; injection Heq as -> ->.
    + left. split; [done|]. by exists files0.
    + by right.
  - intros [(-> & files0 & Hin & ->)|(Hne & Hin)].
    + exists (k, files0). simpl. by rewrite Nat.eqb_refl.
    + exists (k', files). simpl. by destruct (Nat.eqb_spec k' k).
Qed.

Lemma groupsOf_step (pre : list string) (f : string) (groups : Groups) :
  groupsOf pre groups
  → groupsOf (pre ++ [f])
      (groupsPush (length pre / groupSize + 1) f
         (if groupsHas groups (length pre / groupSize + 1) then groups
          else groups ++ [(length pre / groupSize + 1, [])])).
Proof.
  intros (Hnd & Hin & Hall). set (gid := length pre / groupSize + 1).
  assert (∀ j p, (pre ++ [f]) !! j = Some p
                 → pre !! j = Some p ∨ (j = length pre ∧ p = f)) as Hsnoc.
  { intros j p Hj. apply lookup_app_Some in Hj as [Hj|[Hlen Hj]]; [by left|].
    right. apply list_lookup_singleton_Some in Hj as [Hj ->]. split; [lia|done]. }
  destruct (groupsHas groups gid) eqn:Hhas.
  - apply groupsHas_true in Hhas as (files0 & Hg). split; [by rewrite groupsPush_keys|]. split.
    + intros k files p Hk Hp.
      apply elem_of_groupsPush in Hk as [(-> & files1 & Hk & ->)|(Hne & Hk)].
      * apply elem_of_app in Hp as [Hp|Hp].
        -- destruct (Hin _ _ _ Hk Hp) as (j & Hj & Hjk). exists j.
           split; [by apply lookup_app_l_Some|done].
        -- apply list_elem_of_singleton in Hp as ->. exists (length pre).
           split; [|done]. by rewrite lookup_app_r, Nat.sub_diag by lia.
      * destruct (Hin _ _ _ Hk Hp) as (j & Hj & Hjk). exists j.
        split; [by apply lookup_app_l_Some|done].
    + intros j p Hj. apply Hsnoc in Hj as [Hj|[-> ->]].
      * destruct (Hall _ _ Hj) as (files & Hk & Hp).
        destruct (decide (j / groupSize + 1 = gid)) as [Heq|Hne].
        -- exists (files ++ [f]). split; [|apply elem_of_app; by left].
           apply elem_of_groupsPush. left. split; [done|]. exists files. by rewrite <- Heq.
        -- exists files. split; [|done]. apply elem_of_groupsPush. by right.
      * exists (files0 ++ [f]). split; [|apply elem_of_app; right; by left].
        apply elem_of_groupsPush. left. split; [done|]. by exists files0.
  - apply groupsHas_false in Hhas.
    assert (groupsPush gid f (groups ++ [(gid, [])]) = groups ++ [(gid, [f])]) as ->.
    { unfold groupsPush. rewrite fmap_app. fold (groupsPush gid f groups).
      rewrite groupsPush_absent by done. simpl. by rewrite Nat.eqb_refl. }
    split; [|split].
    + rewrite fmap_app. apply NoDup_app. split; [done|]. split; [|apply NoDup_singleton].
      intros k Hk Hk'. apply list_elem_of_singleton in Hk'. simpl in Hk'. by subst k.
    + intros k files p Hk Hp. apply elem_of_app in Hk as [Hk|Hk].
      * destruct (Hin _ _ _ Hk Hp) as (j & Hj & Hjk). exists j.
        split; [by apply lookup_app_l_Some|done].
      * apply list_elem_of_singleton in Hk. injection Hk as -> ->.
        apply list_elem_of_singleton in Hp as ->. exists (length pre).
        split; [|done]. by rewrite lookup_app_r, Nat.sub_diag by lia.
    + intros j p Hj. apply Hsnoc in Hj as [Hj|[-> ->]].
      * destruct (Hall _ _ Hj) as (files & Hk & Hp). exists files.
        split; [apply elem_of_app; by left|done].
      * exists [f]. split; [apply elem_of_app; right|]; by left.
Qed.

Lemma createUntaggedGroups_from_groupsOf (rest pre : list string) (groups : Groups) :
  groupsOf pre groups
  → groupsOf (pre ++ rest) (createUntaggedGroups_from (length pre) rest groups).
Proof.
  revert pre groups. induction rest as [|f rest IH]; intros pre groups Hinv.
  - by rewrite app_nil_r.
  - simpl. replace (pre ++ f :: rest) with ((pre ++ [f]) ++ rest) by by rewrite <- app_assoc.
    replace (S (length pre)) with (length (pre ++ [f])) by (rewrite length_app; simpl; lia).
    apply IH. by apply groupsOf_step.
Qed.

Lemma createUntaggedGroups_groupsOf (l : list string) :
  groupsOf l (createUntaggedGroups l).
Proof.
  apply (createUntaggedGroups_from_groupsOf l [] []). split; [constructor|].
  split; [intros k files p H; by apply elem_of_nil in H | intros j p H; done].
Qed.

(** The color loop gives the token of [k] when a group [k] holds the path
    and no group of another id does. *)
Lemma untaggedColor_only (groups : Groups) (k : nat) (path : string) :
  (∃ files, (k, files) ∈ groups ∧ path ∈ files)
  → (∀ k' files, (k', files) ∈ groups → path ∈ files → k' = k)
  → untaggedColor groups path = "untagged-group-" +:+ pretty k.
Proof.
  intros Hsome Honly. unfold untaggedColor.
  induction groups as [|[k' files'] groups IH] using rev_ind.
  { destruct Hsome as (files & H & _). by apply elem_of_nil in H. }
  rewrite foldl_snoc. simpl. destruct (decide (path ∈ files')) as [Hin|Hout].
  - simpl. rewrite (Honly k' files'); [done| |done]. apply elem_of_app. right. by left.
  - apply IH.
    + destruct Hsome as (files & H & Hp). exists files. split; [|done].
      apply elem_of_app in H as [H|H]; [done|].
      apply list_elem_of_singleton in H. injection H as -> ->. done.
    + intros k0 files0 H. apply Honly. apply elem_of_app. by left.
Qed.

(** X3. The bucket rule for any number of files: the file at index [j] of
    a duplicate-free list gets the token of group [j / 3 + 1]. *)
Theorem untagged_group_of_index (files : list string) (j : nat) (path : string) :
  NoDup files
  → files !! j = Some path
  → untaggedColor (createUntaggedGroups files) path
    = "untagged-group-" +:+ pretty (j / groupSize + 1).
Proof.
  intros Hnd Hj. destruct (createUntaggedGroups_groupsOf files) as (_ & Hin & Hall).
  apply untaggedColor_only; [by apply Hall|].
  intros k' fs Hk Hp. destruct (Hin _ _ _ Hk Hp) as (j' & Hj' & <-).
  by rewrite (NoDup_lookup files j j' path Hnd Hj Hj').
Qed.

Lemma untagged_group_of_index_witness :
  untaggedColor (createUntaggedGroups sevenPaths) "d5" = "untagged-group-2".
Proof.
  apply (untagged_group_of_index sevenPaths 4 "d5").
  - apply (bool_decide_unpack (NoDup sevenPaths)). by vm_compute.
  - reflexivity.
Defined.

(** The color of the node of an untagged selected document. *)
Lemma untagged_node_color allData sel tags st n :
  n ∈ (generateGraphData allData sel tags st).1
  → node_path n ∈ untaggedSelected allData tags sel
  → node_color n
    = untaggedColor (createUntaggedGroups (untaggedSelected allData tags sel)) (node_path n).
Proof.
  intros Hn Hu. apply elem_of_nodes in Hn as (path & fs & Hsel & Hfs & ->). simpl in *.
  apply list_elem_of_filter in Hu as [Hu Hdoc].
  unfold nodeColorOf. rewrite tagPass_fileTags by done. simpl.
  apply tagNamesOf_nil in Hu. rewrite Hu. simpl. by rewrite tagPass_untaggedFiles.
Qed.

(** C6. When the untagged selected documents are exactly seven, the build
    puts them, in selection order, into the groups 1, 2 and 3 of sizes 3, 3
    and 1; each of the seven has a node, and the node of a document of
    group k has the color token untagged-group-k; the tokens of the three
    groups differ. *)
Theorem seven_untagged_three_groups (allData : Corpus) (selectedNodes : Selection)
    (tags : TagIndex) (settings : GraphSettings) (p1 p2 p3 p4 p5 p6 p7 : string) :
  NoDup selectedNodes
  → untaggedSelected allData tags selectedNodes = [p1; p2; p3; p4; p5; p6; p7]
  → let g := generateGraphData allData selectedNodes tags settings in
    createUntaggedGroups (untaggedFiles (tagPass allData tags selectedNodes))
    = [(1, [p1; p2; p3]); (2, [p4; p5; p6]); (3, [p7])]
    ∧ Forall (λ p, ∃ n, n ∈ g.1 ∧ node_path n = p) [p1; p2; p3; p4; p5; p6; p7]
    ∧ (∀ n, n ∈ g.1 → node_path n ∈ [p1; p2; p3] → node_color n = "untagged-group-1")
    ∧ (∀ n, n ∈ g.1 → node_path n ∈ [p4; p5; p6] → node_color n = "untagged-group-2")
    ∧ (∀ n, n ∈ g.1 → node_path n ∈ [p7] → node_color n = "untagged-group-3")
    ∧ NoDup (untaggedColor (createUntaggedGroups [p1; p2; p3; p4; p5; p6; p7])
               <$> [p1; p4; p7]).
Proof.
  intros Hnd Hseven g. subst g.
  assert (NoDup [p1; p2; p3; p4; p5; p6; p7]) as Hnd7.
  { rewrite <- Hseven. unfold untaggedSelected, selectedDocuments.
    by do 2 apply NoDup_filter. }
  assert (∀ p, p ∈ [p1; p2; p3; p4; p5; p6; p7]
               → p ∈ selectedNodes ∧ is_Some (getEntry p allData)) as Hdoc.
  { intros p Hp. rewrite <- Hseven in Hp.
    apply list_elem_of_filter in Hp as [_ Hp]. by apply list_elem_of_filter in Hp as [? ?]. }
  assert (∀ n, n ∈ (generateGraphData allData selectedNodes tags settings).1
               → node_path n ∈ [p1; p2; p3; p4; p5; p6; p7]
               → node_color n
                 = untaggedColor [(1, [p1; p2; p3]); (2, [p4; p5; p6]); (3, [p7])]
                     (node_path n)) as Hcolor.
  { intros n Hn Hp. rewrite (untagged_node_color allData selectedNodes tags settings n Hn)
      by by rewrite Hseven.
    by rewrite Hseven. }
  assert (∀ p, p ∈ [p1; p2; p3] → (p ∉ [p4; p5; p6]) ∧ (p ∉ [p7])) as H123.
  { change [p1; p2; p3; p4; p5; p6; p7] with ([p1; p2; p3] ++ [p4; p5; p6] ++ [p7]) in Hnd7.
    apply NoDup_app in Hnd7 as (_ & Hd & _). intros p Hp.
    by apply not_elem_of_app, Hd. }
  assert (∀ p, p ∈ [p4; p5; p6] → p ∉ [p7]) as H456.
  { change [p1; p2; p3; p4; p5; p6; p7] with ([p1; p2; p3] ++ [p4; p5; p6] ++ [p7]) in Hnd7.
    apply NoDup_app in Hnd7 as (_ & _ & Hnd7). apply NoDup_app in Hnd7 as (_ & Hd & _).
    exact Hd. }
  rewrite tagPass_untaggedFiles, Hseven.
  split; [reflexivity|]. split; [|split; [|split; [|split]]].
  - apply Forall_forall. intros p Hp. destruct (Hdoc p Hp) as [Hsel [fs Hfs]].
    eexists. split; [apply elem_of_nodes; by exists p, fs|done].
  - intros n Hn Hp. destruct (H123 _ Hp) as [Hb Hc]. rewrite (Hcolor n Hn).
    + by rewrite untaggedColor_three, !decide_False.
    + change [p1; p2; p3; p4; p5; p6; p7] with ([p1; p2; p3] ++ [p4; p5; p6] ++ [p7]).
      apply elem_of_app. by left.
  - intros n Hn Hp. pose proof (H456 _ Hp) as Hc. rewrite (Hcolor n Hn).
    + by rewrite untaggedColor_three, decide_False, decide_True.
    + change [p1; p2; p3; p4; p5; p6; p7] with ([p1; p2; p3] ++ [p4; p5; p6] ++ [p7]).
      apply elem_of_app. right. apply elem_of_app. by left.
  - intros n Hn Hp. rewrite (Hcolor n Hn).
    + by rewrite untaggedColor_three, decide_True.
    + change [p1; p2; p3; p4; p5; p6; p7] with ([p1; p2; p3] ++ [p4; p5; p6] ++ [p7]).
      apply elem_of_app. right. apply elem_of_app. by right.
  - change (createUntaggedGroups [p1; p2; p3; p4; p5; p6; p7])
      with [(1, [p1; p2; p3]); (2, [p4; p5; p6]); (3, [p7])].
    destruct (H123 p1) as [Hb Hc]; [by left|]. pose proof (H456 p4) as Hc4.
    rewrite !fmap_cons, !untaggedColor_three.
    rewrite (decide_False (P := p1 ∈ [p7])), (decide_False (P := p1 ∈ [p4; p5; p6])),
      (decide_False (P := p4 ∈ [p7])), (decide_True (P := p4 ∈ [p4; p5; p6])),
      (decide_True (P := p7 ∈ [p7])) by (done || by left || (apply Hc4; by left)).
    apply (bool_decide_unpack _). by vm_compute.
Qed.

Lemma seven_untagged_three_groups_witness :
  let g := generateGraphData sevenCorpus sevenPaths [] (defaultSettings false) in
  createUntaggedGroups (untaggedFiles (tagPass sevenCorpus [] sevenPaths))
  = [(1, ["d1"; "d2"; "d3"]); (2, ["d4"; "d5"; "d6"]); (3, ["d7"])]
  ∧ Forall (λ p, ∃ n, n ∈ g.1 ∧ node_path n = p) sevenPaths
  ∧ (∀ n, n ∈ g.1 → node_path n ∈ ["d1"; "d2"; "d3"] → node_color n = "untagged-group-1")
  ∧ (∀ n, n ∈ g.1 → node_path n ∈ ["d4"; "d5"; "d6"] → node_color n = "untagged-group-2")
  ∧ (∀ n, n ∈ g.1 → node_path n ∈ ["d7"] → node_color n = "untagged-group-3")
  ∧ NoDup (untaggedColor (createUntaggedGroups sevenPaths) <$> ["d1"; "d4"; "d7"]).
Proof.
  apply (seven_untagged_three_groups sevenCorpus sevenPaths [] (defaultSettings false)
           "d1" "d2" "d3" "d4" "d5" "d6" "d7").
  - apply (bool_decide_unpack (NoDup sevenPaths)). by vm_compute.
  - by vm_compute.
Defined.

(** ** C7: the color of a tagged document *)

Lemma setAdd_fresh x s : x ∉ s → setAdd x s = s ++ [x].
Proof. intros H. unfold setAdd. by destruct (decide (x ∈ s)). Qed.

Lemma tagNamesOf_memberships tags path :
  NoDup tags.*1 → tagNamesOf tags path = (memberships tags path).*1.
Proof.
  unfold tagNamesOf, memberships.
  induction tags as [|e tags IH] using rev_ind; [done|].
  rewrite fmap_app, NoDup_app. intros (Hnd & Hfresh & _).
  rewrite foldl_snoc, filter_app, fmap_app, IH by done.
  destruct (decide (path ∈ tag_files e.2)) as [Hin|Hout].
  - rewrite filter_cons_True, filter_nil by done. apply setAdd_fresh.
    intros H. apply list_elem_of_fmap in H as (e' & Heq & He').
    apply list_elem_of_filter in He' as [_ He'].
    apply (Hfresh e'.1); [by apply list_elem_of_fmap_2|]. rewrite <- Heq. by left.
  - rewrite filter_cons_False, filter_nil by done. by rewrite app_nil_r.
Qed.

Lemma getEntry_elem_of {V : Type} (m : list (string * V)) (k : string) (v : V) :
  NoDup m.*1 → (k, v) ∈ m → getEntry k m = Some v.
Proof.
  induction m as [|[k' v'] m IH]; [by intros _ H; apply elem_of_nil in H|].
  rewrite fmap_cons, NoDup_cons. intros [Hfresh Hnd] Hin. simpl in *.
  apply elem_of_cons in Hin as [[= <- <-]|Hin].
  - by destruct (decide (k = k)).
  - destruct (decide (k' = k)) as [->|_]; [|by apply IH].
    destruct Hfresh. by apply (list_elem_of_fmap_2 fst _ (k, v)).
Qed.

Lemma groupCount_push t' p tg t :
  groupCount (tagGroupsPush t' p tg) t
  = groupCount tg t + (if decide (t' = t) then 1 else 0).
Proof.
  unfold groupCount, tagGroupsPush.
  destruct (decide (t' = t)) as [->|Hne].
  - rewrite lookup_alter_eq. destruct (tg !! t) as [fs|] eqn:Htg.
    + rewrite Htg. simpl. by rewrite length_app.
    + by rewrite lookup_insert_eq.
  - rewrite lookup_alter_ne by done.
    destruct (tg !! t'); [lia|]. rewrite lookup_insert_ne by done. lia.
Qed.

Lemma collectTags_count tags p tg t :
  groupCount (collectTags tags p tg).2 t
  = groupCount tg t + length (filter (λ e, e.1 = t ∧ p ∈ tag_files e.2) tags).
Proof.
  unfold collectTags. induction tags as [|e tags IH] using rev_ind; [simpl; lia|].
  rewrite foldl_snoc, filter_app, length_app.
  destruct (decide (p ∈ tag_files e.2)) as [Hin|Hout]; simpl.
  - rewrite groupCount_push, IH. destruct (decide (e.1 = t)) as [Heq|Hne].
    + rewrite filter_cons_True by done. simpl. lia.
    + rewrite filter_cons_False by tauto. simpl. lia.
  - rewrite IH, filter_cons_False by tauto. simpl. lia.
Qed.

Lemma filter_key_count (tags : TagIndex) (t : string) (tag : GraphTag) (p : string) :
  NoDup tags.*1 → (t, tag) ∈ tags
  → length (filter (λ e, e.1 = t ∧ p ∈ tag_files e.2) tags)
    = if decide (p ∈ tag_files tag) then 1 else 0.
Proof.
  induction tags as [|[k v] tags IH]; [by intros _ H; apply elem_of_nil in H|].
  rewrite fmap_cons, NoDup_cons. simpl. intros [Hfresh Hnd] Hin.
  apply elem_of_cons in Hin as [[= <- <-]|Hin].
  - assert (filter (λ e, e.1 = t ∧ p ∈ tag_files e.2) tags = []) as Hnil.
    { apply filter_none. intros e He [Hk _]. apply Hfresh. rewrite <- Hk.
      by apply list_elem_of_fmap_2. }
    destruct (decide (p ∈ tag_files tag)).
    + rewrite filter_cons_True by done. by rewrite Hnil.
    + rewrite filter_cons_False by (simpl; tauto). by rewrite Hnil.
  - rewrite filter_cons_False; [by apply IH|]. simpl. intros [-> _].
    apply Hfresh. by apply (list_elem_of_fmap_2 fst _ (t, tag)).
Qed.

(** The count the first pass keeps for a tag is its population. *)
Lemma tagPass_groupCount allData tags sel t tag :
  NoDup tags.*1 → (t, tag) ∈ tags
  → groupCount (tagGroups (tagPass allData tags sel)) t
    = length (selectedMembers allData sel tag).
Proof.
  intros Hnd Hin. unfold selectedMembers, selectedDocuments.
  induction sel as [|p sel IH] using rev_ind; [done|].
  rewrite tagPass_snoc, !filter_app, length_app. unfold tagPassStep.
  destruct (getEntry p allData) as [fs|] eqn:Hfs.
  - simpl. rewrite collectTags_count, IH, (filter_key_count tags t tag p Hnd Hin).
    rewrite (filter_cons_True _ p) by (by rewrite Hfs). rewrite filter_nil.
    destruct (decide (p ∈ tag_files tag)).
    + by rewrite filter_cons_True by done.
    + by rewrite filter_cons_False by done.
  - rewrite (filter_cons_False _ p) by (rewrite Hfs; by intros [? ?]).
    rewrite !filter_nil, IH. simpl. lia.
Qed.

Lemma sortInsert_not_nil {A : Type} (cmp : A → A → Z) (x : A) (l : list A) :
  sortInsert cmp x l ≠ [].
Proof. destruct l as [|y l]; simpl; [done|]. by destruct (cmp x y <? 0)%Z. Qed.

(** The head of the sorted tags: the first of the largest count. *)
Lemma sort_byCountDesc_head tg (l : list string) (h : string) (rest : list string) :
  sort (byCountDesc tg) l = h :: rest
  → ∃ l1 l2, l = l1 ++ h :: l2
      ∧ (∀ x, x ∈ l1 → groupCount tg x < groupCount tg h)
      ∧ (∀ x, x ∈ l2 → groupCount tg x ≤ groupCount tg h).
Proof.
  unfold sort. revert h rest. induction l as [|x l IH] using rev_ind; [done|].
  intros h rest. rewrite foldl_snoc.
  destruct (foldl (λ acc y, sortInsert (byCountDesc tg) y acc) [] l) as [|h0 rest0] eqn:Hl.
  - destruct l as [|y l _] using rev_ind.
    + simpl. intros [= <- <-]. exists [], []. split; [done|].
      split; intros y Hy; by apply elem_of_nil in Hy.
    + rewrite foldl_snoc in Hl. by apply sortInsert_not_nil in Hl.
  - destruct (IH h0 rest0 eq_refl) as (l1 & l2 & -> & H1 & H2). simpl.
    unfold byCountDesc at 1.
    destruct (Z.ltb_spec (Z.of_nat (groupCount tg h0) - Z.of_nat (groupCount tg x)) 0).
    + intros [= <- <-]. exists (l1 ++ h0 :: l2), []. split; [done|]. split.
      * intros y Hy. apply elem_of_app in Hy as [Hy|Hy]; [apply H1 in Hy; lia|].
        apply elem_of_cons in Hy as [->|Hy]; [lia|]. apply H2 in Hy. lia.
      * intros y Hy. by apply elem_of_nil in Hy.
    + intros [= <- <-]. exists l1, (l2 ++ [x]). split; [by rewrite <- app_assoc|].
      split; [done|]. intros y Hy. apply elem_of_app in Hy as [Hy|Hy]; [by apply H2|].
      apply list_elem_of_singleton in Hy as ->. lia.
Qed.

(** C7. Let a document with a node be listed by at least one tag, the tag
    names of the index being distinct.  Its node has the color of one of
    the tags that list it; that tag has the largest population among the
    tags that list the document, and a strictly larger one than every such
    tag before it in the order of the tag index.  The population of a tag
    is the number of selected documents of the corpus that it lists, which
    is what the build counts. *)
Theorem tagged_node_color_most_populous (allData : Corpus) (selectedNodes : Selection)
    (tags : TagIndex) (settings : GraphSettings) (n : GraphNode) :
  NoDup tags.*1
  → n ∈ (generateGraphData allData selectedNodes tags settings).1
  → ¬ untagged tags (node_path n)
  → ∃ (before : TagIndex) (name : string) (tag : GraphTag) (after : TagIndex),
      memberships tags (node_path n) = before ++ (name, tag) :: after
      ∧ node_color n = tag_color tag
      ∧ (∀ e, e ∈ before
              → length (selectedMembers allData selectedNodes e.2)
                < length (selectedMembers allData selectedNodes tag))
      ∧ (∀ e, e ∈ after
              → length (selectedMembers allData selectedNodes e.2)
                ≤ length (selectedMembers allData selectedNodes tag)).
Proof.
  intros Hnd Hn Htagged.
  apply elem_of_nodes in Hn as (path & fs & Hsel & Hfs & ->). simpl in *.
  assert (path ∈ selectedDocuments allData selectedNodes) as Hdoc.
  { apply list_elem_of_filter. by rewrite Hfs. }
  unfold nodeColorOf. rewrite tagPass_fileTags by done. simpl.
  rewrite tagNamesOf_memberships by done.
  assert (∀ e, e ∈ memberships tags path → e ∈ tags) as Hmem.
  { intros e He. by apply list_elem_of_filter in He as [_ ?]. }
  assert (∀ e, e ∈ memberships tags path
               → groupCount (tagGroups (tagPass allData tags selectedNodes)) e.1
                 = length (selectedMembers allData selectedNodes e.2)) as Hcount.
  { intros [t tag] He. apply tagPass_groupCount; [done | by apply Hmem]. }
  destruct (sort (byCountDesc (tagGroups (tagPass allData tags selectedNodes)))
              (memberships tags path).*1) as [|h rest] eqn:Hsort.
  { destruct (memberships tags path) as [|e l] eqn:Hm.
    - destruct Htagged. apply tagNamesOf_nil.
      by rewrite tagNamesOf_memberships, Hm.
    - unfold sort in Hsort. rewrite fmap_cons in Hsort.
      change (e.1 :: l.*1) with ([e.1] ++ l.*1) in Hsort.
      destruct (l.*1) as [|y l' _] using rev_ind; [done|].
      rewrite app_assoc, foldl_snoc in Hsort. by apply sortInsert_not_nil in Hsort. }
  destruct (sort_byCountDesc_head _ _ _ _ Hsort) as (l1 & l2 & Hnames & H1 & H2).
  apply fmap_app_inv in Hnames as (before & m & -> & Hm & Hmemb).
  destruct m as [|[name tag] after]; [done|]. rewrite fmap_cons in Hm.
  injection Hm as -> ->.
  assert ((0 <? length (memberships tags path).*1) = true) as ->.
  { rewrite Hmemb, length_fmap, length_app. simpl. apply Nat.ltb_lt. lia. }
  rewrite (getEntry_elem_of tags name tag Hnd)
    by (apply Hmem; rewrite Hmemb; apply elem_of_app; right; by left).
  exists before, name, tag, after. split; [done|]. split; [done|].
  assert ((name, tag) ∈ memberships tags path) as Hhead
    by (rewrite Hmemb; apply elem_of_app; right; by left).
  split.
  - intros e He. pose proof (Hcount (name, tag) Hhead) as Hh. simpl in Hh.
    rewrite <- Hh, <- (Hcount e) by (rewrite Hmemb; apply elem_of_app; by left).
    apply H1. by apply list_elem_of_fmap_2.
  - intros e He. pose proof (Hcount (name, tag) Hhead) as Hh. simpl in Hh.
    rewrite <- Hh, <- (Hcount e) by (rewrite Hmemb; apply elem_of_app; right; by right).
    apply H2. by apply list_elem_of_fmap_2.
Qed.

Lemma tagged_node_color_most_populous_witness :
  let n := {| node_id := "D1"; node_name := "D1"; node_path := "D1"; node_radius := 12;
              node_isSelected := true; node_color := "tag-color-2" |} in
  ∃ (before : TagIndex) (name : string) (tag : GraphTag) (after : TagIndex),
    memberships populationTags (node_path n) = before ++ (name, tag) :: after
    ∧ node_color n = tag_color tag
    ∧ (∀ e, e ∈ before
            → length (selectedMembers populationCorpus populationSelection e.2)
              < length (selectedMembers populationCorpus populationSelection tag))
    ∧ (∀ e, e ∈ after
            → length (selectedMembers populationCorpus populationSelection e.2)
              ≤ length (selectedMembers populationCorpus populationSelection tag)).
Proof.
  cbv zeta.
  apply (tagged_node_color_most_populous populationCorpus populationSelection
           populationTags (defaultSettings false)).
  - apply (bool_decide_unpack (NoDup populationTags.*1)). by vm_compute.
  - vm_compute. left.
  - apply (bool_decide_unpack (¬ untagged populationTags "D1")). by vm_compute.
Defined.

(** The population is counted over the selection: D1 takes the color of
    "small", which lists two selected documents, although "big" lists four
    documents of the corpus, of which one is selected. *)
Example population_is_counted_over_selection :
  node_color <$> (generateGraphData populationCorpus populationSelection populationTags
                    (defaultSettings false)).1
  = ["tag-color-2"; "tag-color-2"].
Proof. by vm_compute. Qed.

(** C7 with the population of a tag read as the number of its members.
    The rule fails on the build, even without the tie-break: D1 is listed
    by "big" (four members, one of them selected) and by "small" (two
    members, both selected) and takes the color of "small", so its color is
    not that of a tag with the most members among the tags that list it. *)
Lemma color_by_member_count_counterexample :
  ¬ (∀ (allData : Corpus) (selectedNodes : Selection) (tags : TagIndex)
       (settings : GraphSettings) (n : GraphNode),
       NoDup tags.*1
       → n ∈ (generateGraphData allData selectedNodes tags settings).1
       → ¬ untagged tags (node_path n)
       → ∃ e : string * GraphTag,
           e ∈ memberships tags (node_path n)
           ∧ node_color n = tag_color e.2
           ∧ ∀ e' : string * GraphTag,
               e' ∈ memberships tags (node_path n)
               → length (tag_files e'.2) ≤ length (tag_files e.2)).
Proof.
  intros H.
  destruct (H populationCorpus populationSelection populationTags (defaultSettings false)
              {| node_id := "D1"; node_name := "D1"; node_path := "D1"; node_radius := 12;
                 node_isSelected := true; node_color := "tag-color-2" |})
    as (e & He & Hcolor & Hmost).
  - apply (bool_decide_unpack (NoDup populationTags.*1)). by vm_compute.
  - vm_compute. left.
  - apply (bool_decide_unpack (¬ untagged populationTags "D1")). by vm_compute.
  - assert (memberships populationTags "D1" = populationTags) as Hm by by vm_compute.
    simpl in He, Hmost. rewrite Hm in He, Hmost.
    apply elem_of_cons in He as [->|He].
    + simpl in Hcolor. discriminate.
    + apply list_elem_of_singleton in He as ->.
      specialize (Hmost _ (list_elem_of_here _ _)). simpl in Hmost. lia.
Qed.

(** ** The earlier revision includes by three spellings *)

Lemma Rev1_nodePass_snoc allData sel tags st e :
  Rev1.nodePass (allData ++ [e]) sel tags st
  = Rev1.nodePassStep sel tags st (Rev1.nodePass allData sel tags st) e.
Proof. apply foldl_snoc. Qed.

Lemma Rev1_nodePass_paths allData sel tags st :
  node_path <$> Rev1.np_nodes (Rev1.nodePass allData sel tags st)
  = (filter (λ e, Rev1.isSelected sel e.1 e.2 = true) allData).*1.
Proof.
  induction allData as [|e allData IH] using rev_ind; [done|].
  rewrite Rev1_nodePass_snoc, filter_app, fmap_app, <- IH. unfold Rev1.nodePassStep.
  destruct (Rev1.isSelected sel e.1 e.2) eqn:Hsel.
  - rewrite filter_cons_True, filter_nil by done. simpl. by rewrite fmap_app.
  - rewrite filter_cons_False, filter_nil by (by rewrite Hsel). by rewrite app_nil_r.
Qed.

(** X1. In the earlier revision an entry of the corpus gets a node exactly
    when its path, its basename or its path without the extension is in
    the selection. *)
Theorem Rev1_node_iff_some_spelling_selected (allData : Corpus)
    (selectedNodes : Selection) (tags : TagIndex) (settings : GraphSettings)
    (path : string) :
  (∃ n, n ∈ (Rev1.generateGraphData allData selectedNodes tags settings).1
        ∧ node_path n = path)
  ↔ ∃ fileSummary, (path, fileSummary) ∈ allData
      ∧ (path ∈ selectedNodes ∨ file fileSummary ∈ selectedNodes
         ∨ stripMd path ∈ selectedNodes).
Proof.
  assert (∀ fs, Rev1.isSelected selectedNodes path fs = true
                ↔ path ∈ selectedNodes ∨ file fs ∈ selectedNodes
                  ∨ stripMd path ∈ selectedNodes) as Hspell.
  { intros fs. unfold Rev1.isSelected.
    rewrite !orb_true_iff, !bool_decide_eq_true. tauto. }
  unfold Rev1.generateGraphData. destruct selectedNodes as [|p sel].
  { simpl. split.
    - intros (n & Hn & _). by apply elem_of_nil in Hn.
    - intros (fs & _ & [H|[H|H]]); by apply elem_of_nil in H. }
  simpl length. simpl Nat.eqb. cbv iota zeta. simpl fst.
  transitivity (path ∈ node_path <$> Rev1.np_nodes (Rev1.nodePass allData (p :: sel) tags settings)).
  { rewrite list_elem_of_fmap. split; intros (n & H1 & H2); exists n; done. }
  rewrite Rev1_nodePass_paths, list_elem_of_fmap. split.
  - intros ([k fs] & -> & H). apply list_elem_of_filter in H as [Hsel Hin]. simpl in *.
    exists fs. split; [done|]. by apply Hspell.
  - intros (fs & Hin & Hsel). exists (path, fs). split; [done|].
    apply list_elem_of_filter. split; [|done]. simpl. by apply Hspell.
Qed.

(** ** C2 and C8: the handle after [destroy] *)

(** [destroy] does stop the simulation's timer. *)
Lemma destroy_stops_simulation (r : Renderer) : simulating (destroy r) = false.
Proof. unfold simulating, destroy. simpl. by destruct (simulation r). Qed.

(** [destroy] releases no resize observer and leaves [simulation] set. *)
Lemma destroy_keeps_observers_and_simulation (r : Renderer) :
  resizeObservers (destroy r) = resizeObservers r
  ∧ (is_Some (simulation (destroy r)) ↔ is_Some (simulation r)).
Proof.
  split; [done|]. unfold destroy. simpl. by rewrite fmap_is_Some.
Qed.

(** C2 on the code. A handle made by the constructor has one resize
    observer on its container.  After [destroy] the simulation is stopped
    and no tick listener has run, but the observer is still registered;
    when the container is resized next, its callback restarts the
    simulation, and the following timer frame runs the tick listener. *)
Theorem tick_after_destroy (rect rect' : Q * Q) (data : Corpus) (selectedFiles : Selection)
    (graphTags : TagIndex) (graphSettings : GraphSettings) :
  let r := newGraphRenderer rect data selectedFiles graphTags graphSettings in
  resizeObservers r = 1
  ∧ simulating (run r [Destroy]) = false
  ∧ tickCalls (run r [Destroy]) = 0
  ∧ resizeObservers (run r [Destroy]) = 1
  ∧ simulating (run r [Destroy; ContainerResized rect']) = true
  ∧ tickCalls (run r [Destroy; ContainerResized rect'; TimerFrame]) = 1.
Proof. cbv zeta. by repeat split. Qed.

(** Without the simulation both operations leave the handle as it is. *)
Lemma uninitialized_handle_noop (r : Renderer) :
  simulation r = None → restartSimulation r = r ∧ updateSimulation r = r.
Proof. intros H. unfold restartSimulation, updateSimulation. by rewrite H. Qed.

Lemma uninitialized_handle_noop_witness :
  restartSimulation bareRenderer = bareRenderer
  ∧ updateSimulation bareRenderer = bareRenderer.
Proof. apply (uninitialized_handle_noop bareRenderer). reflexivity. Defined.

(** C8 on the code. After [destroy] the field [simulation] still holds the
    stopped simulation, so the guards of [restartSimulation] and
    [updateSimulation] pass: either call restarts the timer, and the next
    timer frame runs the tick listener. *)
Theorem restart_after_destroy_resumes (rect : Q * Q) (data : Corpus)
    (selectedFiles : Selection) (graphTags : TagIndex) (graphSettings : GraphSettings) :
  let r := newGraphRenderer rect data selectedFiles graphTags graphSettings in
  simulating (run r [Destroy]) = false
  ∧ simulating (run r [Destroy; RestartSimulation]) = true
  ∧ simulating (run r [Destroy; UpdateSimulation]) = true
  ∧ tickCalls (run r [Destroy; RestartSimulation; TimerFrame]) = 1
  ∧ tickCalls (run r [Destroy; UpdateSimulation; TimerFrame]) = 1.
Proof. cbv zeta. by repeat split. Qed.

(** ** The scenarios of the specification *)

(** The linear chain with tag connections off: three nodes, the edges
    A-B and B-C, and no edge A-C. *)
Example linear_chain_scenario :
  let g := generateGraphData linearCorpus abcSelection [] (defaultSettings false) in
  node_id <$> g.1 = ["A"; "B"; "C"]
  ∧ edgeView <$> g.2 = [("A", "B", WikiLink, None); ("B", "C", WikiLink, None)].
Proof. by vm_compute. Qed.

(** The shared tag x with tag connections on: three nodes and the
    three edges A-B, A-C and B-C, all shared-tag edges that carry x. *)
Example shared_tag_cluster_scenario :
  let g := generateGraphData clusterCorpus abcSelection clusterTags (defaultSettings true) in
  node_id <$> g.1 = ["A"; "B"; "C"]
  ∧ edgeView <$> g.2
    = [("A", "B", TagLink, Some "x"); ("A", "C", TagLink, Some "x");
       ("B", "C", TagLink, Some "x")].
Proof. by vm_compute. Qed.

(** * Properties of further parts of the code *)

(** ** Where the edges come from *)

Lemma getEntry_Some_elem {V : Type} (m : list (string * V)) (k : string) (v : V) :
  getEntry k m = Some v → (k, v) ∈ m.
Proof.
  induction m as [|[k' v'] m IH]; [done|]. simpl.
  destruct (decide (k' = k)) as [->|_].
  - intros [= ->]. by left.
  - intros H. right. by apply IH.
Qed.

Lemma find_Some_elem {A : Type} (p : A → bool) (l : list A) (x : A) :
  find p l = Some x → x ∈ l ∧ p x = true.
Proof.
  induction l as [|y l IH]; [done|]. simpl. destruct (p y) eqn:Hp.
  - intros [= ->]. split; [by left|done].
  - intros H. destruct (IH H). split; [by right|done].
Qed.

Lemma elem_of_setAdd (x y : string) (s : list string) :
  y ∈ setAdd x s ↔ y = x ∨ y ∈ s.
Proof.
  unfold setAdd. destruct (decide (x ∈ s)) as [Hin|Hout].
  - split; [by right|]. intros [->|?]; done.
  - rewrite elem_of_app, list_elem_of_singleton. tauto.
Qed.

(** The names collected for [path] are the names of the tags that list it. *)
Lemma elem_of_tagNamesOf (tags : TagIndex) (path t : string) :
  t ∈ tagNamesOf tags path ↔ ∃ tag : GraphTag, (t, tag) ∈ tags ∧ path ∈ tag_files tag.
Proof.
  unfold tagNamesOf. induction tags as [|[k tag] tags IH] using rev_ind.
  { simpl. split; [intros H; by apply elem_of_nil in H|].
    intros (tag & H & _). by apply elem_of_nil in H. }
  rewrite foldl_snoc. simpl. destruct (decide (path ∈ tag_files tag)) as [Hin|Hout].
  - rewrite elem_of_setAdd, IH. split.
    + intros [->|(tag' & H & ?)].
      * exists tag. split; [apply elem_of_app; right; by left|done].
      * exists tag'. split; [apply elem_of_app; by left|done].
    + intros (tag' & H & ?). apply elem_of_app in H as [H|H].
      * right. by exists tag'.
      * apply list_elem_of_singleton in H as [= -> ->]. by left.
  - rewrite IH. split.
    + intros (tag' & H & ?). exists tag'. split; [apply elem_of_app; by left|done].
    + intros (tag' & H & ?). apply elem_of_app in H as [H|H].
      * by exists tag'.
      * apply list_elem_of_singleton in H as [= -> ->]. done.
Qed.

(** What the node map holds under a key: the node of a selected document,
    kept under its path or under its basename. *)
Lemma nodePass_map_inv allData tags tp groups sel k n :
  (nodePass allData tags tp groups sel).2 !! k = Some n
  → ∃ path fs, path ∈ sel ∧ getEntry path allData = Some fs
      ∧ n = newNode tags tp groups path fs ∧ (k = path ∨ k = file fs).
Proof.
  induction sel as [|p sel IH] using rev_ind; [done|].
  rewrite nodePass_snoc. unfold nodePassStep.
  destruct (getEntry p allData) as [fs|] eqn:Hfs.
  - simpl. intros H.
    apply lookup_insert_Some in H as [[<- <-]|[_ H]].
    { exists p, fs. split; [apply elem_of_app; right; by left|]. auto. }
    apply lookup_insert_Some in H as [[<- <-]|[_ H]].
    { exists p, fs. split; [apply elem_of_app; right; by left|]. auto. }
    destruct (IH H) as (path & fs' & Hin & ? & ? & ?). exists path, fs'.
    split; [apply elem_of_app; by left|]. auto.
  - intros H. destruct (IH H) as (path & fs' & Hin & ? & ? & ?). exists path, fs'.
    split; [apply elem_of_app; by left|]. auto.
Qed.

(** Every selected document of the corpus has its path and its basename
    as keys of the node map. *)
Lemma nodePass_map_keys allData tags tp groups sel path fs :
  path ∈ sel → getEntry path allData = Some fs
  → is_Some ((nodePass allData tags tp groups sel).2 !! path)
    ∧ is_Some ((nodePass allData tags tp groups sel).2 !! file fs).
Proof.
  intros Hin Hfs. induction sel as [|p sel IH] using rev_ind;
    [by apply elem_of_nil in Hin|].
  rewrite nodePass_snoc. unfold nodePassStep.
  destruct (decide (p = path)) as [->|Hne].
  - rewrite Hfs. simpl. rewrite lookup_insert_eq. split; [done|].
    destruct (decide (path = file fs)) as [<-|Hk]; [by rewrite lookup_insert_eq|].
    by rewrite lookup_insert_ne, lookup_insert_eq.
  - apply elem_of_app in Hin as [Hin|Hin];
      [|apply list_elem_of_singleton in Hin; congruence].
    destruct (IH Hin) as [H1 H2].
    destruct (getEntry p allData) as [fs'|]; [|done]. simpl. split.
    + rewrite lookup_insert_ne by done.
      destruct (decide (file fs' = path)) as [->|?];
        [by rewrite lookup_insert_eq | by rewrite lookup_insert_ne].
    + destruct (decide (p = file fs)) as [->|?]; [by rewrite lookup_insert_eq|].
      rewrite lookup_insert_ne by done.
      destruct (decide (file fs' = file fs)) as [->|?];
        [by rewrite lookup_insert_eq | by rewrite lookup_insert_ne].
Qed.

(** The edges attempted for one selected path. *)
Lemma pathCandidates_iff allData tags st sel tp nodeMap path l :
  l ∈ pathCandidates allData tags st sel tp nodeMap path
  ↔ ∃ (fs : FileSummary) (src : GraphNode),
      getEntry path allData = Some fs
      ∧ orElse (nodeMap !! file fs) (nodeMap !! path) = Some src
      ∧ ((∃ link : string, link ∈ links fs
            ∧ wikiCandidate allData sel nodeMap src link = Some l)
         ∨ (showTagConnections st = true
            ∧ ∃ (t targetPath : string) (tagData : GraphTag),
                t ∈ default [] (fileTags tp !! path)
                ∧ getEntry t tags = Some tagData
                ∧ targetPath ∈ tag_files tagData
                ∧ tagCandidate sel nodeMap path src t targetPath = Some l)).
Proof.
  unfold pathCandidates.
  destruct (getEntry path allData) as [fs|].
  2:{ split; [intros H; by apply elem_of_nil in H | by intros (? & ? & ? & _)]. }
  destruct (orElse (nodeMap !! file fs) (nodeMap !! path)) as [src|] eqn:Hsrc.
  2:{ split; [intros H; by apply elem_of_nil in H|].
      intros (? & ? & [= <-] & H & _). congruence. }
  rewrite elem_of_app, list_elem_of_omap. split.
  - intros [(link & ? & ?)|H]; exists fs, src; (split; [done|]); (split; [done|]).
    { left. by exists link. }
    right. destruct (showTagConnections st); [|by apply elem_of_nil in H].
    split; [done|]. apply list_elem_of_bind in H as (t & H & Ht).
    unfold tagCandidates in H. destruct (getEntry t tags) as [tagData|] eqn:Htag;
      [|by apply elem_of_nil in H].
    apply list_elem_of_omap in H as (targetPath & ? & ?). by exists t, targetPath, tagData.
  - intros (fs' & src' & [= <-] & Hsrc' & H).
    assert (src' = src) as -> by congruence.
    destruct H as [(link & ? & ?)|(-> & t & targetPath & tagData & Ht & Htag & ? & ?)].
    { left. by exists link. }
    right. apply list_elem_of_bind. exists t. split; [|done].
    unfold tagCandidates. rewrite Htag. apply list_elem_of_omap. by exists targetPath.
Qed.

Section provenance.
Variables (allData : Corpus) (sel : Selection) (tags : TagIndex) (st : GraphSettings).
Hypothesis Hkeys : NoDup allData.*1.
Hypothesis Hnames : NoDup tags.*1.
Hypothesis Hapart : basenamesApart allData sel.

(** Under a basename the node map holds a node of that id. *)
Lemma nodeMap_basename tp groups path fs n :
  (path, fs) ∈ allData
  → (nodePass allData tags tp groups sel).2 !! file fs = Some n
  → node_id n = file fs.
Proof.
  intros Hfs H. apply nodePass_map_inv in H as (p & fs' & Hin & Hfs' & -> & [Hk|Hk]).
  - unfold basenamesApart in Hapart. rewrite Forall_forall in Hapart.
    destruct (Hapart _ Hfs). simpl. by rewrite Hk.
  - simpl. by rewrite Hk.
Qed.

(** Under a selected path the node map holds the node of that document. *)
Lemma nodeMap_path tp groups path n :
  (nodePass allData tags tp groups sel).2 !! path = Some n
  → path ∈ sel
  → ∃ fs, getEntry path allData = Some fs ∧ n = newNode tags tp groups path fs.
Proof.
  intros H Hsel. apply nodePass_map_inv in H as (p & fs' & Hin & Hfs' & -> & [Hk|Hk]).
  - subst p. by exists fs'.
  - unfold basenamesApart in Hapart. rewrite Forall_forall in Hapart.
    destruct (Hapart (p, fs')); [by apply getEntry_Some_elem | simpl; by rewrite <- Hk].
Qed.

(** The node a selected document of the corpus is looked up as, as a source
    and as the target of a link, has the basename of the document as id. *)
Lemma lookedUp_id tp groups path fs :
  path ∈ sel → getEntry path allData = Some fs
  → ∃ n, orElse ((nodePass allData tags tp groups sel).2 !! file fs)
                ((nodePass allData tags tp groups sel).2 !! path) = Some n
         ∧ node_id n = file fs.
Proof.
  intros Hsel Hfs.
  destruct (nodePass_map_keys allData tags tp groups sel path fs Hsel Hfs) as [_ [n Hn]].
  exists n. rewrite Hn. split; [done|].
  eapply nodeMap_basename; [by apply getEntry_Some_elem | done].
Qed.

Lemma findTarget_entry link targetPath targetFile :
  findTarget allData link = Some (targetPath, targetFile)
  → getEntry targetPath allData = Some targetFile.
Proof.
  intros H. apply find_Some_elem in H as [H _]. by apply getEntry_elem_of.
Qed.

Lemma wikiCandidate_ids tp groups src link l :
  wikiCandidate allData sel (nodePass allData tags tp groups sel).2 src link = Some l
  → ∃ targetPath targetFile,
      findTarget allData (stripMd link) = Some (targetPath, targetFile)
      ∧ targetPath ∈ sel
      ∧ link_source l = src ∧ node_id (link_target l) = file targetFile
      ∧ link_type l = WikiLink.
Proof.
  unfold wikiCandidate.
  destruct (findTarget allData (stripMd link)) as [[targetPath targetFile]|] eqn:Hfind;
    [|done].
  destruct (decide (targetPath ∈ sel)) as [Hsel|]; [|done].
  destruct (lookedUp_id tp groups targetPath targetFile Hsel (findTarget_entry _ _ _ Hfind))
    as (n & -> & Hid).
  intros [= <-]. by exists targetPath, targetFile.
Qed.

Lemma wikiCandidate_resolved tp groups src link targetPath targetFile :
  findTarget allData (stripMd link) = Some (targetPath, targetFile)
  → targetPath ∈ sel
  → ∃ l, wikiCandidate allData sel (nodePass allData tags tp groups sel).2 src link = Some l
         ∧ link_source l = src ∧ node_id (link_target l) = file targetFile.
Proof.
  intros Hfind Hsel. unfold wikiCandidate. rewrite Hfind.
  destruct (decide (targetPath ∈ sel)); [|done].
  destruct (lookedUp_id tp groups targetPath targetFile Hsel (findTarget_entry _ _ _ Hfind))
    as (n & -> & Hid).
  by eexists.
Qed.

Lemma tagCandidate_ids tp groups path src t targetPath l :
  tagCandidate sel (nodePass allData tags tp groups sel).2 path src t targetPath = Some l
  → ∃ targetFile,
      targetPath ≠ path ∧ targetPath ∈ sel
      ∧ getEntry targetPath allData = Some targetFile
      ∧ link_source l = src ∧ node_id (link_target l) = file targetFile
      ∧ link_type l = TagLink ∧ link_tag l = Some t.
Proof.
  unfold tagCandidate.
  destruct (decide (targetPath ≠ path ∧ targetPath ∈ sel)) as [[Hne Hsel]|]; [|done].
  destruct ((nodePass allData tags tp groups sel).2 !! targetPath) as [n|] eqn:Hn; [|done].
  destruct (nodeMap_path _ _ _ _ Hn Hsel) as (fs & Hfs & ->).
  intros [= <-]. by exists fs.
Qed.

Lemma tagCandidate_member tp groups path src t targetPath targetFile :
  targetPath ≠ path → targetPath ∈ sel
  → getEntry targetPath allData = Some targetFile
  → ∃ l, tagCandidate sel (nodePass allData tags tp groups sel).2 path src t targetPath
         = Some l
         ∧ link_source l = src ∧ node_id (link_target l) = file targetFile.
Proof.
  intros Hne Hsel Hfs. unfold tagCandidate.
  rewrite decide_True by done.
  destruct (nodePass_map_keys allData tags tp groups sel _ _ Hsel Hfs) as [[n Hn] _].
  rewrite Hn. destruct (nodeMap_path _ _ _ _ Hn Hsel) as (fs & Hfs' & ->).
  eexists. split; [done|]. simpl. split; [done|]. congruence.
Qed.

(** The tags recorded for a selected document of the corpus. *)
Lemma fileTags_selected path fs :
  path ∈ sel → getEntry path allData = Some fs
  → default [] (fileTags (tagPass allData tags sel) !! path) = tagNamesOf tags path.
Proof.
  intros Hsel Hfs. rewrite tagPass_fileTags; [done|].
  unfold selectedDocuments. apply list_elem_of_filter. split; [by rewrite Hfs | done].
Qed.

Lemma tag_of_name t tag : (t, tag) ∈ tags → getEntry t tags = Some tag.
Proof. by apply getEntry_elem_of. Qed.

Lemma attempted_intro path l :
  path ∈ sel
  → l ∈ pathCandidates allData tags st sel (tagPass allData tags sel)
          (nodePass allData tags (tagPass allData tags sel)
             (createUntaggedGroups (untaggedFiles (tagPass allData tags sel))) sel).2 path
  → l ∈ attemptedLinks allData sel tags st.
Proof.
  intros Hsel H. unfold attemptedLinks. cbv zeta. apply list_elem_of_bind. by exists path.
Qed.

(** Where an attempted wiki-link edge comes from. *)
Lemma attempted_wiki_origin l :
  l ∈ attemptedLinks allData sel tags st
  → link_type l = WikiLink
  → linksTo allData sel (node_id (link_source l)) (node_id (link_target l)).
Proof.
  unfold attemptedLinks. cbv zeta. intros H Hty.
  apply list_elem_of_bind in H as (path & H & Hsel).
  apply pathCandidates_iff in H as (fs & src & Hfs & Hsrc & H).
  destruct (lookedUp_id (tagPass allData tags sel)
              (createUntaggedGroups (untaggedFiles (tagPass allData tags sel)))
              path fs Hsel Hfs) as (n & Hn & Hid).
  assert (n = src) as -> by congruence.
  destruct H as [(link & Hlink & H)|(Hon & t & targetPath & tagData & Ht & Htag & Hmem & H)].
  - apply wikiCandidate_ids in H as (targetPath & targetFile & ? & ? & -> & -> & ?).
    by exists path, fs, link, targetPath, targetFile.
  - apply tagCandidate_Some in H as (_ & _ & Hty' & _). congruence.
Qed.

(** Where an attempted shared-tag edge comes from. *)
Lemma attempted_tag_origin l :
  l ∈ attemptedLinks allData sel tags st
  → link_type l = TagLink
  → showTagConnections st = true
    ∧ ∃ name : string, link_tag l = Some name
        ∧ shareTag allData sel tags name
            (node_id (link_source l)) (node_id (link_target l)).
Proof.
  unfold attemptedLinks. cbv zeta. intros H Hty.
  apply list_elem_of_bind in H as (path & H & Hsel).
  apply pathCandidates_iff in H as (fs & src & Hfs & Hsrc & H).
  destruct (lookedUp_id (tagPass allData tags sel)
              (createUntaggedGroups (untaggedFiles (tagPass allData tags sel)))
              path fs Hsel Hfs) as (n & Hn & Hid).
  assert (n = src) as -> by congruence.
  destruct H as [(link & Hlink & H)|(Hon & t & targetPath & tagData & Ht & Htag & Hmem & H)].
  - apply wikiCandidate_Some in H as (_ & _ & Hty' & _). congruence.
  - apply tagCandidate_ids in H as (targetFile & ? & ? & ? & -> & -> & ? & ?).
    split; [done|]. exists t. split; [done|].
    rewrite (fileTags_selected path fs Hsel Hfs) in Ht.
    apply elem_of_tagNamesOf in Ht as (tag' & Htag' & Hpath).
    apply tag_of_name in Htag'. assert (tag' = tagData) as -> by congruence.
    by exists tagData, path, targetPath, fs, targetFile.
Qed.

(** A resolved link between selected documents is attempted. *)
Lemma linksTo_attempted a b :
  linksTo allData sel a b
  → ∃ l, l ∈ attemptedLinks allData sel tags st
         ∧ node_id (link_source l) = a ∧ node_id (link_target l) = b.
Proof.
  intros (path & fs & link & targetPath & targetFile & Hsel & Hfs & Hlink & Hfind & Htsel
          & <- & <-).
  destruct (lookedUp_id (tagPass allData tags sel)
              (createUntaggedGroups (untaggedFiles (tagPass allData tags sel)))
              path fs Hsel Hfs) as (src & Hsrc & Hid).
  destruct (wikiCandidate_resolved (tagPass allData tags sel)
              (createUntaggedGroups (untaggedFiles (tagPass allData tags sel)))
              src link targetPath targetFile Hfind Htsel) as (l & Hl & Hs & Ht).
  exists l. split; [|by rewrite Hs].
  apply (attempted_intro path); [done|]. apply pathCandidates_iff.
  exists fs, src. split; [done|]. split; [done|]. left. by exists link.
Qed.

(** With the switch on, an edge is attempted between two selected
    documents that a tag lists. *)
Lemma shareTag_attempted name a b :
  showTagConnections st = true
  → shareTag allData sel tags name a b
  → ∃ l, l ∈ attemptedLinks allData sel tags st
         ∧ node_id (link_source l) = a ∧ node_id (link_target l) = b.
Proof.
  intros Hon (tag & p & q & fp & fq & Htag & Hp & Hq & Hne & Hpsel & Hqsel & Hfp & Hfq
              & <- & <-).
  destruct (lookedUp_id (tagPass allData tags sel)
              (createUntaggedGroups (untaggedFiles (tagPass allData tags sel)))
              p fp Hpsel Hfp) as (src & Hsrc & Hid).
  destruct (tagCandidate_member (tagPass allData tags sel)
              (createUntaggedGroups (untaggedFiles (tagPass allData tags sel)))
              p src name q fq (not_eq_sym Hne) Hqsel Hfq) as (l & Hl & Hs & Ht).
  exists l. split; [|by rewrite Hs].
  apply (attempted_intro p); [done|]. apply pathCandidates_iff.
  exists fp, src. split; [done|]. split; [done|]. right. split; [done|].
  exists name, q, tag. split; [|done].
  rewrite (fileTags_selected p fp Hpsel Hfp). apply elem_of_tagNamesOf.
  exists tag. split; [by apply getEntry_Some_elem | done].
Qed.

Lemma shareTag_sym name a b :
  shareTag allData sel tags name a b → shareTag allData sel tags name b a.
Proof.
  intros (tag & p & q & fp & fq & ? & ? & ? & ? & ? & ? & ? & ? & ? & ?).
  by exists tag, q, p, fq, fp.
Qed.

Lemma attempted_joined l a b :
  l ∈ attemptedLinks allData sel tags st
  → node_id (link_source l) = a → node_id (link_target l) = b → a ≠ b
  → ∃ l', l' ∈ (generateGraphData allData sel tags st).2 ∧ joins l' a b.
Proof.
  intros Hl Ha Hb Hne. rewrite links_pushAll.
  destruct (pushAll_covers (attemptedLinks allData sel tags st) [] l Hl) as (l' & Hl' & Hs).
  { unfold selfEdge. congruence. }
  exists l'. split; [done|]. unfold joins. destruct Hs as [[? ?]|[? ?]]; [left|right];
    split; congruence.
Qed.

(** X4. Every wiki-link edge of a build stands for a link of the corpus:
    when corpus keys are distinct and no basename is a selected path, the
    source id of the edge is the basename of a selected document that has
    an outbound link resolving (by basename, path, or path without the
    extension) to a selected document whose basename is the target id. *)
Theorem wiki_edge_from_link (l : GraphLink) :
  l ∈ (generateGraphData allData sel tags st).2
  → link_type l = WikiLink
  → linksTo allData sel (node_id (link_source l)) (node_id (link_target l)).
Proof.
  intros Hl Hty. by apply attempted_wiki_origin; [apply elem_of_links|].
Qed.

(** X5. Every shared-tag edge of a build stands for a tag the two
    documents share: when tag names are distinct and no basename is a
    selected path, tag connections are enabled, the edge carries the name of
    a tag of the index, and that tag lists two different selected documents
    of the corpus whose basenames are the source id and the target id of
    the edge. *)
Theorem tag_edge_from_shared_tag (l : GraphLink) :
  l ∈ (generateGraphData allData sel tags st).2
  → link_type l = TagLink
  → showTagConnections st = true
    ∧ ∃ name : string, link_tag l = Some name
        ∧ shareTag allData sel tags name (node_id (link_source l)) (node_id (link_target l)).
Proof.
  intros Hl Hty. by apply attempted_tag_origin; [apply elem_of_links|].
Qed.

(** X6. Which documents a build joins.  When corpus keys and tag names
    are distinct and no basename is a selected path, two basenames [a] and
    [b] are joined by an edge (in one direction or the other, of one kind or
    the other) exactly when they differ and a selected document of one of
    them links to a selected document of the other or, with tag connections
    enabled, some tag lists two different selected documents that have
    them. *)
Theorem joined_iff (a b : string) :
  (∃ l, l ∈ (generateGraphData allData sel tags st).2 ∧ joins l a b)
  ↔ a ≠ b
    ∧ (linksTo allData sel a b ∨ linksTo allData sel b a
       ∨ (showTagConnections st = true ∧ ∃ name : string, shareTag allData sel tags name a b)).
Proof.
  split.
  - intros (l & Hl & Hj).
    assert (¬ selfEdge l) as Hns.
    { destruct (generateGraphData_linksOk allData sel tags st) as [Hall _].
      rewrite Forall_forall in Hall. by apply Hall. }
    unfold selfEdge in Hns.
    apply elem_of_links in Hl.
    assert (linksTo allData sel (node_id (link_source l)) (node_id (link_target l))
            ∨ (showTagConnections st = true
               ∧ ∃ name : string,
                   shareTag allData sel tags name
                     (node_id (link_source l)) (node_id (link_target l))))
      as [H|(Hon & name & H)].
    { destruct (link_type l) eqn:Hty.
      - left. by apply attempted_wiki_origin.
      - right. destruct (attempted_tag_origin l Hl Hty) as (? & name & _ & ?).
        split; [done|]. by exists name. }
    all: destruct Hj as [[<- <-]|[<- <-]].
    + split; [done|]. by left.
    + split; [by apply not_eq_sym|]. right. by left.
    + split; [done|]. right. right. split; [done|]. by exists name.
    + split; [by apply not_eq_sym|]. right. right. split; [done|]. exists name.
      by apply shareTag_sym.
  - intros (Hne & [H|[H|(Hon & name & H)]]).
    + apply linksTo_attempted in H as (l & Hl & Ha & Hb). by apply (attempted_joined l).
    + apply linksTo_attempted in H as (l & Hl & Hb & Ha).
      destruct (attempted_joined l b a Hl Hb Ha (not_eq_sym Hne)) as (l' & Hl' & Hj).
      exists l'. split; [done|]. unfold joins in *. tauto.
    + apply (shareTag_attempted name a b Hon) in H as (l & Hl & Ha & Hb).
      by apply (attempted_joined l).
Qed.

Lemma basenamesApart_prefix s1 s2 :
  basenamesApart allData (s1 ++ s2) → basenamesApart allData s1.
Proof.
  unfold basenamesApart. intros H. eapply Forall_impl; [exact H|].
  intros e He Hin. apply He. apply elem_of_app. by left.
Qed.

End provenance.

(** Under a basename the node map holds the node of the last selected
    document of that basename. *)
Lemma nodeMap_basename_last allData tags tp groups s1 p s2 fp n :
  basenamesApart allData (s1 ++ p :: s2)
  → getEntry p allData = Some fp
  → p ∉ s2
  → (∃ q fq, q ∈ s2 ∧ getEntry q allData = Some fq ∧ file fq = file fp)
  → (nodePass allData tags tp groups (s1 ++ p :: s2)).2 !! file fp = Some n
  → node_path n ≠ p.
Proof.
  intros Hapart Hfp. induction s2 as [|q' s2 IH] using rev_ind.
  { intros _ (q & fq & Hq & _). by apply elem_of_nil in Hq. }
  rewrite not_elem_of_app, not_elem_of_cons. intros (Hout & Hne & _) (q & fq & Hq & Hfq & Hsame).
  assert (file fp ≠ q') as Hkey.
  { unfold basenamesApart in Hapart. rewrite Forall_forall in Hapart.
    intros <-. apply (Hapart (p, fp)); [by apply getEntry_Some_elem|]. simpl.
    apply elem_of_app. right. right. apply elem_of_app. right. by left. }
  assert (basenamesApart allData (s1 ++ p :: s2)) as Hapart'.
  { apply (basenamesApart_prefix allData (s1 ++ p :: s2) [q']).
    by rewrite <- app_assoc, <- app_comm_cons. }
  change (s1 ++ p :: s2 ++ [q']) with (s1 ++ (p :: s2) ++ [q']).
  rewrite app_assoc, nodePass_snoc. unfold nodePassStep.
  destruct (getEntry q' allData) as [fq'|] eqn:Hfq'.
  - simpl. rewrite lookup_insert_ne by done.
    destruct (decide (file fq' = file fp)) as [Heq|Hdiff].
    + rewrite Heq, lookup_insert_eq. intros [= <-]. simpl. done.
    + rewrite lookup_insert_ne by done. apply IH; [done | done |].
      apply elem_of_app in Hq as [Hq|Hq]; [by exists q, fq|].
      apply list_elem_of_singleton in Hq as ->. congruence.
  - apply IH; [done | done |].
    apply elem_of_app in Hq as [Hq|Hq]; [by exists q, fq|].
    apply list_elem_of_singleton in Hq as ->. congruence.
Qed.

Section namesakes.
Variables (allData : Corpus) (tags : TagIndex) (st : GraphSettings).
Variables (s1 s2 : Selection) (p : string) (fp : FileSummary).
Hypothesis Hkeys : NoDup allData.*1.
Hypothesis Hapart : basenamesApart allData (s1 ++ p :: s2).
Hypothesis Hsel : NoDup (s1 ++ p :: s2).
Hypothesis Hfp : getEntry p allData = Some fp.
Hypothesis Hlater : ∃ q fq, q ∈ s2 ∧ getEntry q allData = Some fq ∧ file fq = file fp.

(** The node looked up for a selected document, by basename first, is not
    the node of [p]. *)
Lemma lookedUp_not_earlier tp groups path fs n :
  path ∈ s1 ++ p :: s2 → getEntry path allData = Some fs
  → orElse ((nodePass allData tags tp groups (s1 ++ p :: s2)).2 !! file fs)
           ((nodePass allData tags tp groups (s1 ++ p :: s2)).2 !! path) = Some n
  → node_path n ≠ p.
Proof.
  intros Hpath Hfs Hn.
  destruct (nodePass_map_keys allData tags tp groups _ path fs Hpath Hfs) as [_ [n' Hn']].
  rewrite Hn' in Hn. injection Hn as ->.
  destruct (decide (file fs = file fp)) as [Heq|Hdiff].
  - rewrite Heq in Hn'. eapply nodeMap_basename_last; try done.
    apply NoDup_app in Hsel as (_ & _ & Hnd). by apply NoDup_cons in Hnd as [? _].
  - intros Hp.
    pose proof (nodeMap_basename allData _ tags Hapart tp groups path fs n
                  (getEntry_Some_elem _ _ _ Hfs) Hn') as Hid.
    apply nodePass_map_inv in Hn' as (path0 & fs0 & _ & Hfs0 & -> & _).
    simpl in *. subst path0. congruence.
Qed.

(** X7. A document is hidden behind a later namesake.  Let corpus keys be
    distinct, the selection free of duplicates and no basename a selected
    path.  When a selected document [p] has the basename of a document
    selected after it, the node map holds a later node under that basename
    and is read by basename first: the node of [p] is never the source of an
    edge and never the target of a wiki-link edge. *)
Theorem earlier_namesake_starts_no_edge (l : GraphLink) :
  l ∈ (generateGraphData allData (s1 ++ p :: s2) tags st).2
  → node_path (link_source l) ≠ p
    ∧ (link_type l = WikiLink → node_path (link_target l) ≠ p).
Proof.
  intros Hl. apply elem_of_links in Hl. unfold attemptedLinks in Hl. cbv zeta in Hl.
  apply list_elem_of_bind in Hl as (path & Hl & Hpath).
  apply pathCandidates_iff in Hl as (fs & src & Hfs & Hsrc & H).
  pose proof (lookedUp_not_earlier _ _ path fs src Hpath Hfs Hsrc) as Hsource.
  destruct H as [(link & _ & H)|(_ & t & q & tagData & _ & _ & _ & H)].
  - unfold wikiCandidate in H.
    destruct (findTarget allData (stripMd link)) as [[targetPath targetFile]|] eqn:Hfind;
      [|done].
    destruct (decide (targetPath ∈ s1 ++ p :: s2)) as [Htsel|]; [|done].
    destruct (orElse _ _) as [tn|] eqn:Htn in H; [|done].
    injection H as <-. simpl. split; [done|]. intros _.
    exact (lookedUp_not_earlier _ _ targetPath targetFile tn Htsel
             (findTarget_entry allData Hkeys (stripMd link) _ _ Hfind) Htn).
  - apply tagCandidate_Some in H as (-> & _ & Hty & _). split; [done|]. congruence.
Qed.

End namesakes.

Lemma taggedPair_keys : NoDup taggedPairCorpus.*1.
Proof. apply (bool_decide_unpack (NoDup taggedPairCorpus.*1)). by vm_compute. Defined.

Lemma taggedPair_names : NoDup taggedPairTags.*1.
Proof. apply (bool_decide_unpack (NoDup taggedPairTags.*1)). by vm_compute. Defined.

Lemma taggedPair_apart : basenamesApart taggedPairCorpus taggedPairSelection.
Proof.
  apply (bool_decide_unpack (basenamesApart taggedPairCorpus taggedPairSelection)).
  by vm_compute.
Defined.

Lemma wiki_edge_from_link_witness :
  linksTo taggedPairCorpus taggedPairSelection "B" "A".
Proof.
  apply (wiki_edge_from_link taggedPairCorpus taggedPairSelection taggedPairTags
           (defaultSettings false) taggedPair_keys taggedPair_apart wikiEdgeBA).
  - vm_compute. left.
  - reflexivity.
Defined.

Lemma tag_edge_from_shared_tag_witness :
  showTagConnections (defaultSettings true) = true
  ∧ ∃ name : string, link_tag tagEdgeAB = Some name
      ∧ shareTag taggedPairCorpus taggedPairSelection taggedPairTags name "A" "B".
Proof.
  apply (tag_edge_from_shared_tag taggedPairCorpus taggedPairSelection taggedPairTags
           (defaultSettings true) taggedPair_names taggedPair_apart tagEdgeAB).
  - vm_compute. left.
  - reflexivity.
Defined.

Lemma joined_iff_witness :
  (∃ l, l ∈ (generateGraphData taggedPairCorpus taggedPairSelection taggedPairTags
               (defaultSettings true)).2 ∧ joins l "A" "B")
  ↔ "A" ≠ "B"
    ∧ (linksTo taggedPairCorpus taggedPairSelection "A" "B"
       ∨ linksTo taggedPairCorpus taggedPairSelection "B" "A"
       ∨ (showTagConnections (defaultSettings true) = true
          ∧ ∃ name : string,
              shareTag taggedPairCorpus taggedPairSelection taggedPairTags name "A" "B")).
Proof.
  apply (joined_iff taggedPairCorpus taggedPairSelection taggedPairTags
           (defaultSettings true) taggedPair_keys taggedPair_names taggedPair_apart).
Defined.

(** ** getTagsForSelectedNodes *)

Lemma mapSet_fresh {V : Type} (k : string) (v : V) (m : list (string * V)) :
  k ∉ m.*1 → mapSet k v m = m ++ [(k, v)].
Proof.
  induction m as [|[k' v'] m IH]; [done|].
  rewrite fmap_cons, not_elem_of_cons. simpl. intros [Hne Hout].
  rewrite decide_False by done. by rewrite IH.
Qed.

Lemma hasSelectedFile_true sel tag :
  hasSelectedFile sel tag = true ↔ ∃ filePath, filePath ∈ tag_files tag ∧ filePath ∈ sel.
Proof.
  unfold hasSelectedFile. rewrite existsb_exists. split.
  - intros (f & Hin & H). exists f. split; [by apply list_elem_of_In|].
    by apply bool_decide_eq_true in H.
  - intros (f & Hin & H). exists f. split; [by apply list_elem_of_In|].
    by apply bool_decide_eq_true.
Qed.

Lemma filter_keys_subseteq {V : Type} (P : string * V → Prop) `{!∀ x, Decision (P x)}
    (m : list (string * V)) (k : string) :
  k ∈ (filter P m).*1 → k ∈ m.*1.
Proof.
  intros Hk. apply list_elem_of_fmap in Hk as (e & -> & Hk).
  apply list_elem_of_filter in Hk as [_ Hk]. by apply list_elem_of_fmap_2.
Qed.

Lemma filter_keys_NoDup {V : Type} (P : string * V → Prop) `{!∀ x, Decision (P x)}
    (m : list (string * V)) :
  NoDup m.*1 → NoDup (filter P m).*1.
Proof.
  induction m as [|e m IH]; [done|].
  rewrite fmap_cons, NoDup_cons. intros [Hfresh Hnd].
  destruct (decide (P e)).
  - rewrite filter_cons_True, fmap_cons, NoDup_cons by done. split; [|by apply IH].
    intros Hk. by apply Hfresh, (filter_keys_subseteq P).
  - rewrite filter_cons_False by done. by apply IH.
Qed.

(** On an index with distinct names the relevant tags are the tags that
    list a selected path, in the order of the index. *)
Lemma getTagsForSelectedNodes_filter tags sel :
  NoDup tags.*1
  → getTagsForSelectedNodes tags sel = filter (λ e, hasSelectedFile sel e.2 = true) tags.
Proof.
  unfold getTagsForSelectedNodes.
  induction tags as [|e tags IH] using rev_ind; [done|].
  rewrite fmap_app, NoDup_app. intros (Hnd & Hfresh & _).
  rewrite foldl_snoc, filter_app, IH by done.
  destruct (hasSelectedFile sel e.2) eqn:He.
  - rewrite filter_cons_True, filter_nil by done.
    destruct e as [k v]. apply mapSet_fresh. intros H.
    apply filter_keys_subseteq in H. apply (Hfresh k H). by left.
  - rewrite filter_cons_False, filter_nil by (by rewrite He). by rewrite app_nil_r.
Qed.

Lemma foldl_filter_skip {A B : Type} (f : B → A → B) (P : A → Prop)
    `{!∀ x, Decision (P x)} (l : list A) (b : B) :
  (∀ b' x, x ∈ l → ¬ P x → f b' x = b') → foldl f b (filter P l) = foldl f b l.
Proof.
  revert b. induction l as [|x l IH]; intros b Hskip; [done|].
  destruct (decide (P x)).
  - rewrite filter_cons_True by done. simpl. apply IH. intros b' y Hy. apply Hskip. by right.
  - rewrite filter_cons_False by done. simpl. rewrite Hskip by (done || left). apply IH.
    intros b' y Hy. apply Hskip. by right.
Qed.

Section relevant.
Variables (allData : Corpus) (sel : Selection) (tags : TagIndex).
Hypothesis Hnames : NoDup tags.*1.

Lemma getEntry_relevant t tag path :
  (t, tag) ∈ tags → path ∈ tag_files tag → path ∈ sel
  → getEntry t (getTagsForSelectedNodes tags sel) = Some tag.
Proof.
  intros Hin Hpath Hsel. rewrite getTagsForSelectedNodes_filter by done.
  apply getEntry_elem_of; [by apply filter_keys_NoDup|].
  apply list_elem_of_filter. split; [|done]. simpl.
  apply hasSelectedFile_true. by exists path.
Qed.

Lemma getEntry_relevant_name t path :
  path ∈ sel → t ∈ tagNamesOf tags path
  → getEntry t (getTagsForSelectedNodes tags sel) = getEntry t tags.
Proof.
  intros Hsel Ht. apply elem_of_tagNamesOf in Ht as (tag & Hin & Hpath).
  rewrite (getEntry_relevant t tag path) by done.
  symmetry. by apply getEntry_elem_of.
Qed.

Lemma collectTags_relevant path tg :
  path ∈ sel
  → collectTags (getTagsForSelectedNodes tags sel) path tg = collectTags tags path tg.
Proof.
  intros Hsel. rewrite getTagsForSelectedNodes_filter by done.
  unfold collectTags. apply foldl_filter_skip. intros acc e _ Hne.
  rewrite decide_False; [done|]. intros Hin. apply Hne.
  apply hasSelectedFile_true. by exists path.
Qed.

Lemma tagPass_relevant :
  tagPass allData (getTagsForSelectedNodes tags sel) sel = tagPass allData tags sel.
Proof.
  unfold tagPass. apply foldl_ext_in. intros tp path Hsel. unfold tagPassStep.
  by rewrite collectTags_relevant.
Qed.

Lemma nodeColorOf_relevant tg groups path :
  path ∈ sel
  → nodeColorOf (getTagsForSelectedNodes tags sel) tg groups (tagNamesOf tags path) path
    = nodeColorOf tags tg groups (tagNamesOf tags path) path.
Proof.
  intros Hsel. unfold nodeColorOf.
  destruct (0 <? length (tagNamesOf tags path)); [|done].
  destruct (sort (byCountDesc tg) (tagNamesOf tags path)) as [|t rest] eqn:Hsort; [done|].
  apply sort_byCountDesc_head in Hsort as (l1 & l2 & Heq & _).
  rewrite (getEntry_relevant_name t path); [done | done |].
  rewrite Heq. apply elem_of_app. right. by left.
Qed.

Lemma nodePass_relevant groups :
  nodePass allData (getTagsForSelectedNodes tags sel) (tagPass allData tags sel) groups sel
  = nodePass allData tags (tagPass allData tags sel) groups sel.
Proof.
  unfold nodePass. apply foldl_ext_in. intros acc path Hsel. unfold nodePassStep.
  destruct (getEntry path allData) as [fs|] eqn:Hfs; [|done].
  assert (newNode (getTagsForSelectedNodes tags sel) (tagPass allData tags sel) groups path fs
          = newNode tags (tagPass allData tags sel) groups path fs) as ->; [|done].
  unfold newNode. f_equal.
  rewrite tagPass_fileTags.
  - simpl. by apply nodeColorOf_relevant.
  - unfold selectedDocuments. apply list_elem_of_filter. split; [by rewrite Hfs | done].
Qed.

Lemma linkPass_relevant st nodeMap :
  linkPass allData (getTagsForSelectedNodes tags sel) st sel (tagPass allData tags sel) nodeMap
  = linkPass allData tags st sel (tagPass allData tags sel) nodeMap.
Proof.
  unfold linkPass. apply foldl_ext_in. intros ls path Hsel. unfold linkPassStep.
  destruct (getEntry path allData) as [fs|] eqn:Hfs; [|done].
  destruct (orElse (nodeMap !! file fs) (nodeMap !! path)) as [src|]; [|done].
  destruct (showTagConnections st); [|done].
  rewrite tagPass_fileTags.
  2:{ unfold selectedDocuments. apply list_elem_of_filter. split; [by rewrite Hfs | done]. }
  simpl. apply foldl_ext_in. intros ls' t Ht. unfold tagLinks.
  by rewrite (getEntry_relevant_name t path).
Qed.

(** X8. The tags that list no selected path have no part in the graph:
    on a tag index with distinct names, a build from the tags that
    getTagsForSelectedNodes returns gives the same nodes (colors included)
    and the same edges as the build from the whole index. *)
Theorem build_from_relevant_tags (st : GraphSettings) :
  generateGraphData allData sel (getTagsForSelectedNodes tags sel) st
  = generateGraphData allData sel tags st.
Proof.
  rewrite !generateGraphData_passes. cbv zeta.
  by rewrite tagPass_relevant, nodePass_relevant, linkPass_relevant.
Qed.

(** X9. The tag of every edge is among the relevant tags: if an edge of
    the build carries the tag name [t], then [t] is a key of the index and
    of the map getTagsForSelectedNodes returns, with the same tag under
    it. *)
Theorem edge_tag_is_relevant (st : GraphSettings) (l : GraphLink) (t : string) :
  l ∈ (generateGraphData allData sel tags st).2
  → link_tag l = Some t
  → ∃ tag : GraphTag,
      getEntry t tags = Some tag
      ∧ getEntry t (getTagsForSelectedNodes tags sel) = Some tag.
Proof.
  intros Hl Ht. apply elem_of_links in Hl. unfold attemptedLinks in Hl. cbv zeta in Hl.
  apply list_elem_of_bind in Hl as (path & Hl & Hsel).
  apply pathCandidates_iff in Hl
    as (fs & src & Hfs & _ & [(link & _ & H)|(_ & t' & q & tagData & Ht' & Htag & _ & H)]).
  - apply wikiCandidate_Some in H as (_ & _ & _ & H). congruence.
  - apply tagCandidate_Some in H as (_ & _ & _ & H).
    assert (t' = t) as -> by congruence.
    exists tagData. split; [done|].
    rewrite (getEntry_relevant_name t path); [done | done |].
    by rewrite <- (fileTags_selected allData sel tags path fs).
Qed.

End relevant.

Lemma population_names : NoDup populationTags.*1.
Proof. apply (bool_decide_unpack (NoDup populationTags.*1)). by vm_compute. Defined.

Lemma build_from_relevant_tags_witness :
  generateGraphData populationCorpus ["D5"] (getTagsForSelectedNodes populationTags ["D5"])
    (defaultSettings true)
  = generateGraphData populationCorpus ["D5"] populationTags (defaultSettings true).
Proof.
  apply (build_from_relevant_tags populationCorpus ["D5"] populationTags population_names).
Defined.

Lemma edge_tag_is_relevant_witness :
  ∃ tag : GraphTag,
    getEntry "x" taggedPairTags = Some tag
    ∧ getEntry "x" (getTagsForSelectedNodes taggedPairTags taggedPairSelection) = Some tag.
Proof.
  apply (edge_tag_is_relevant taggedPairCorpus taggedPairSelection taggedPairTags
           taggedPair_names (defaultSettings true) tagEdgeAB "x").
  - vm_compute. left.
  - reflexivity.
Defined.

(** ** updateTagColor: a new color changes colors only *)





Lemma collectTags_setTagColor name c tags path tg :
  collectTags (setTagColor name c tags) path tg = collectTags tags path tg.
Proof.
  unfold collectTags. generalize (@nil string, tg).
  induction tags as [|[k tag] tags IH]; intros acc; [done|]. simpl.
  destruct (decide (k = name)) as [->|Hk]; simpl; [done|]. apply IH.
Qed.


Lemma tagNamesOf_setTagColor name c tags path :
  tagNamesOf (setTagColor name c tags) path = tagNamesOf tags path.
Proof. by rewrite <- !(collectTags_fst _ _ ∅), collectTags_setTagColor. Qed.


Section mapped.
Variable f : GraphNode → GraphNode.
Hypothesis Hid : ∀ n, node_id (f n) = node_id n.







End mapped.


Lemma eraseColor_recolor tags tp groups n :
  eraseColor (recolor tags tp groups n) = eraseColor n.
Proof. done. Qed.





Lemma earlier_namesake_starts_no_edge_witness :
  node_path (link_source namesakeEdge) ≠ "a/N.md"
  ∧ (link_type namesakeEdge = WikiLink → node_path (link_target namesakeEdge) ≠ "a/N.md").
Proof.
  apply (earlier_namesake_starts_no_edge namesakeCorpus [] (defaultSettings false)
           [] ["b/N.md"; "B.md"] "a/N.md" (summary "N" ["B"])).
  - apply (bool_decide_unpack (NoDup namesakeCorpus.*1)). by vm_compute.
  - apply (bool_decide_unpack
             (basenamesApart namesakeCorpus ([] ++ "a/N.md" :: ["b/N.md"; "B.md"]))).
    by vm_compute.
  - apply (bool_decide_unpack (NoDup ([] ++ "a/N.md" :: ["b/N.md"; "B.md"]))).
    by vm_compute.
  - reflexivity.
  - exists "b/N.md", (summary "N" []). split; [by left|]. split; reflexivity.
  - vm_compute. left.
Defined.

(** ** highlightConnectedNodes *)

Lemma elem_of_connectedNodeIds ls c id :
  id ∈ connectedNodeIds ls c ↔ nearCenter ls c id.
Proof.
  unfold connectedNodeIds, nearCenter.
  induction ls as [|l ls IH] using rev_ind.
  { simpl. rewrite list_elem_of_singleton. split; [by left|].
    intros [?|(l & Hl & _)]; [done | by apply elem_of_nil in Hl]. }
  rewrite foldl_snoc. cbv zeta.
  assert (∀ P Q : Prop, (id = node_id c ∨ ∃ l0, l0 ∈ ls ∧ joins l0 (node_id c) id)
            ∨ joins l (node_id c) id
          ↔ id = node_id c ∨ ∃ l0, l0 ∈ ls ++ [l] ∧ joins l0 (node_id c) id) as Hsplit.
  { intros _ _. split.
    - intros [[?|(l0 & Hl0 & ?)]|?]; [by left | |].
      + right. exists l0. split; [apply elem_of_app; by left | done].
      + right. exists l. split; [apply elem_of_app; right; by left | done].
    - intros [?|(l0 & Hl0 & ?)]; [left; by left|].
      apply elem_of_app in Hl0 as [Hl0|Hl0].
      + left. right. by exists l0.
      + apply list_elem_of_singleton in Hl0 as ->. by right. }
  rewrite <- (Hsplit True True). clear Hsplit.
  destruct (String.eqb_spec (node_id (link_source l)) (node_id c)) as [Hs|Hs];
    destruct (String.eqb_spec (node_id (link_target l)) (node_id c)) as [Ht|Ht];
    rewrite ?elem_of_setAdd, IH; unfold joins; naive_solver congruence.
Qed.

(** X11. What hovering a node highlights.  A circle stays opaque exactly
    when its node has the id of the hovered node or is joined to it by an
    edge, and is dimmed to 0.3 otherwise; a line is emphasised (0.8)
    exactly when both its ends are such nodes, and dimmed to 0.2 otherwise.
    So every edge at the hovered node is emphasised, and so is an edge
    between two of its neighbours. *)
Theorem highlight_connected (ls : list GraphLink) (centerNode : GraphNode) :
  (∀ d, nodeOpacity ls centerNode d = "1" ↔ nearCenter ls centerNode (node_id d))
  ∧ (∀ d, nodeOpacity ls centerNode d = "0.3" ↔ ¬ nearCenter ls centerNode (node_id d))
  ∧ (∀ l, linkOpacity ls centerNode l = "0.8"
          ↔ nearCenter ls centerNode (node_id (link_source l))
            ∧ nearCenter ls centerNode (node_id (link_target l)))
  ∧ (∀ l, linkOpacity ls centerNode l = "0.2"
          ↔ ¬ (nearCenter ls centerNode (node_id (link_source l))
               ∧ nearCenter ls centerNode (node_id (link_target l))))
  ∧ (∀ l, l ∈ ls
          → node_id (link_source l) = node_id centerNode
            ∨ node_id (link_target l) = node_id centerNode
          → linkOpacity ls centerNode l = "0.8").
Proof.
  assert (∀ l, linkOpacity ls centerNode l = "0.8"
               ↔ nearCenter ls centerNode (node_id (link_source l))
                 ∧ nearCenter ls centerNode (node_id (link_target l))) as Hlink.
  { intros l. unfold linkOpacity. rewrite <- !elem_of_connectedNodeIds.
    destruct (decide _); [tauto|]. split; [done | tauto]. }
  split; [|split; [|split; [done|split]]].
  - intros d. unfold nodeOpacity. rewrite <- elem_of_connectedNodeIds.
    destruct (decide _); [tauto|]. split; [done | tauto].
  - intros d. unfold nodeOpacity. rewrite <- elem_of_connectedNodeIds.
    destruct (decide _); [|tauto]. split; [done | tauto].
  - intros l. unfold linkOpacity. rewrite <- !elem_of_connectedNodeIds.
    destruct (decide _); [|tauto]. split; [done | tauto].
  - intros l Hl Hinc. apply Hlink. unfold nearCenter, joins.
    destruct Hinc as [Hs|Ht].
    + split; [by left|]. right. exists l. split; [done|]. by left.
    + split; [|by left]. right. exists l. split; [done|]. by right.
Qed.

(** ** refreshGraph *)

(** X12. What a refresh leaves on the handle, whatever state the handle
    is in.  However the joins of the three updates end, the handle then
    holds the new corpus, its settings are unchanged, and its arrays are
    those of one build from the new corpus and the selection and tags it
    then has.  If all three joins complete, the refresh returns: selection
    and tags are the new ones, a simulation is running at alpha 0.5 around
    the middle of the container and the next timer frame calls the tick
    listener; on a destroyed handle this starts the timer again.  If a join
    throws, the refresh ends at that update and does not return; when it is
    the first one, selection, tags and simulation are as before, so the
    layout is not run again.  On a destroyed handle the svg and the tooltip
    stay detached and the observer stays registered in every case. *)
Theorem refresh_rebuilds_and_restarts (r : Renderer) (newData : Corpus)
    (selectedFiles : Selection) (graphTags : TagIndex) (joined1 joined2 joined3 : bool) :
  let o := refreshGraph joined1 joined2 joined3 newData selectedFiles graphTags r in
  let od :=
    refreshGraph joined1 joined2 joined3 newData selectedFiles graphTags (destroy r) in
  allData (handle o) = newData
  ∧ settings (handle o) = settings r
  ∧ (nodes (handle o), graphLinks (handle o))
    = generateGraphData newData (selectedNodes (handle o)) (tags (handle o)) (settings r)
  ∧ (nodes (handle od), graphLinks (handle od)) = (nodes (handle o), graphLinks (handle o))
  ∧ graphSvg (handle od) = detach <$> graphSvg r
  ∧ tooltip (handle od) = detach <$> tooltip r
  ∧ resizeObservers (handle od) = resizeObservers r
  ∧ (joined1 && joined2 && joined3 = true
     → o = Returned (handle o)
       ∧ selectedNodes (handle o) = selectedFiles
       ∧ tags (handle o) = graphTags
       ∧ simulation (handle o)
         = Some {| sim_running := true; sim_alpha := 5 # 10; sim_alphaMin := 1 # 1000;
                   sim_alphaDecay := 1 # 10; sim_alphaTarget := 0;
                   sim_center := half (containerRect r) |}
       ∧ tickCalls (timerFrame (handle o)) = S (tickCalls r)
       ∧ od = Returned (handle od)
       ∧ simulating (handle od) = true
       ∧ tickCalls (timerFrame (handle od)) = S (tickCalls r))
  ∧ (joined1 && joined2 && joined3 = false
     → o = Threw (handle o) ∧ od = Threw (handle od))
  ∧ (joined1 = false
     → selectedNodes (handle o) = selectedNodes r
       ∧ tags (handle o) = tags r
       ∧ simulation (handle o) = simulation r
       ∧ simulation (handle od) = sim_stop <$> simulation r).
Proof.
  cbv zeta. unfold refreshGraph, updateTags, updateSelection, updateData,
    updateGraphElements.
  destruct joined1, joined2, joined3; simpl;
    repeat match goal with
           | |- context [generateGraphData ?a ?b ?c ?d] =>
               destruct (generateGraphData a b c d)
           end;
    repeat split; done.
Qed.

(** ** The earlier revision: its edges and its rotating colors *)

Lemma Rev1_nodePass_map allData sel tags st k n :
  Rev1.np_nodeMap (Rev1.nodePass allData sel tags st) !! k = Some n
  → n ∈ Rev1.np_nodes (Rev1.nodePass allData sel tags st).
Proof.
  induction allData as [|e allData IH] using rev_ind; [done|].
  rewrite Rev1_nodePass_snoc. unfold Rev1.nodePassStep.
  destruct (Rev1.isSelected sel e.1 e.2); [|done]. simpl. intros H.
  apply lookup_insert_Some in H as [[_ <-]|[_ H]];
    [apply elem_of_app; right; by left|].
  apply lookup_insert_Some in H as [[_ <-]|[_ H]];
    [apply elem_of_app; right; by left|].
  apply elem_of_app. left. by apply IH.
Qed.

Lemma Rev1_linksFrom_push nodeMap ls l :
  Rev1_linksFrom nodeMap ls
  → fromMap nodeMap (link_source l) → fromMap nodeMap (link_target l)
  → Rev1_linksFrom nodeMap (pushLink ls l).
Proof.
  intros [Hok Hfrom] Hs Ht. split; [by apply pushLink_linksOk|].
  intros l' Hl'. destruct (pushLink_cases ls l) as [(Heq & _)|(Heq & _)];
    rewrite Heq in Hl'; [|by apply Hfrom].
  apply elem_of_app in Hl' as [Hl'|Hl']; [by apply Hfrom|].
  by apply list_elem_of_singleton in Hl' as ->.
Qed.

Lemma Rev1_linkPassStep_linksFrom allData tags st sel np ls e :
  Rev1_linksFrom (Rev1.np_nodeMap np) ls
  → Rev1_linksFrom (Rev1.np_nodeMap np) (Rev1.linkPassStep allData tags st sel np ls e).
Proof.
  intros Hls. unfold Rev1.linkPassStep. cbv zeta.
  destruct (Rev1.isSelected sel e.1 e.2); [|done].
  destruct (orElse (Rev1.np_nodeMap np !! file e.2) (Rev1.np_nodeMap np !! e.1))
    as [src|] eqn:Hsrc; [|done].
  assert (fromMap (Rev1.np_nodeMap np) src) as Hfrom.
  { apply orElse_Some in Hsrc as [H|H]; by eexists. }
  assert (Rev1_linksFrom (Rev1.np_nodeMap np)
            (foldl (Rev1.wikiLinkStep allData sel (Rev1.np_nodeMap np) src) ls (links e.2)))
    as Hwiki.
  { apply (foldl_invariant (Rev1_linksFrom (Rev1.np_nodeMap np))); [done|].
    intros ls' link Hls' _. unfold Rev1.wikiLinkStep.
    destruct (findTarget allData (stripMd link)) as [[targetPath targetFile]|]; [|done].
    destruct (Rev1.isSelected sel targetPath targetFile); [|done].
    destruct (orElse (Rev1.np_nodeMap np !! file targetFile)
                (Rev1.np_nodeMap np !! targetPath)) as [tn|] eqn:Htn; [|done].
    apply Rev1_linksFrom_push; [done | done |]. simpl.
    apply orElse_Some in Htn as [H|H]; by eexists. }
  destruct (showTagConnections st); [|done].
  apply (foldl_invariant (Rev1_linksFrom (Rev1.np_nodeMap np))); [done|].
  intros ls' t Hls' _. unfold tagLinks. destruct (getEntry t tags) as [tagData|]; [|done].
  apply (foldl_invariant (Rev1_linksFrom (Rev1.np_nodeMap np))); [done|].
  intros ls'' targetPath Hls'' _. unfold tagLinkStep.
  destruct (decide (targetPath ≠ e.1 ∧ targetPath ∈ sel)); [|done].
  destruct (Rev1.np_nodeMap np !! targetPath) as [tn|] eqn:Htn; [|done].
  apply Rev1_linksFrom_push; [done | done |]. simpl. by eexists.
Qed.

(** X14. The edges of the earlier revision are well formed too: no edge
    joins a node to itself or to a node of the same id, no two edges join
    the same unordered pair of ids, and both ends of every edge are nodes of
    the node array. *)
Theorem Rev1_edges_well_formed (allData : Corpus) (selectedNodes : Selection)
    (tags : TagIndex) (settings : GraphSettings) :
  let g := Rev1.generateGraphData allData selectedNodes tags settings in
  linksOk g.2 ∧ ∀ l, l ∈ g.2 → link_source l ∈ g.1 ∧ link_target l ∈ g.1.
Proof.
  cbv zeta. unfold Rev1.generateGraphData.
  destruct (length selectedNodes =? 0).
  { simpl. split; [by split|]. intros l Hl. by apply elem_of_nil in Hl. }
  simpl.
  assert (Rev1_linksFrom
            (Rev1.np_nodeMap (Rev1.nodePass allData selectedNodes tags settings))
            (foldl (Rev1.linkPassStep allData tags settings selectedNodes
                      (Rev1.nodePass allData selectedNodes tags settings)) [] allData))
    as [Hok Hfrom].
  { apply (foldl_invariant (Rev1_linksFrom _)).
    - split; [by split|]. intros l Hl. by apply elem_of_nil in Hl.
    - intros ls e Hls _. by apply Rev1_linkPassStep_linksFrom. }
  split; [done|]. intros l Hl. destruct (Hfrom l Hl) as [[k1 H1] [k2 H2]].
  split; eapply Rev1_nodePass_map; eassumption.
Qed.

Lemma Rev1_nodePass_rotation allData sel tags st :
  showTagConnections st = false
  → Rev1.np_randomColorIndex (Rev1.nodePass allData sel tags st)
    = length (Rev1.np_nodes (Rev1.nodePass allData sel tags st)) `mod` 5 + 1
    ∧ ∀ (j : nat) (n : GraphNode),
        Rev1.np_nodes (Rev1.nodePass allData sel tags st) !! j = Some n
        → node_color n = "random-color-" +:+ pretty (j `mod` 5 + 1).
Proof.
  intros Hoff. induction allData as [|e allData [IHidx IHcol]] using rev_ind.
  { split; [done|]. intros j n H. done. }
  rewrite Rev1_nodePass_snoc. unfold Rev1.nodePassStep. cbv zeta.
  destruct (Rev1.isSelected sel e.1 e.2); [|done].
  rewrite Hoff.
  assert (∀ (A : Type) (x : A) (l : list string),
            match l with _ :: _ => x | [] => x end = x) as Hmatch
    by (by intros A x []).
  rewrite Hmatch. cbn [Rev1.np_randomColorIndex Rev1.np_nodes fst snd]. split.
  - rewrite length_app, IHidx. cbn [length]. by rewrite Nat.Div0.add_mod_idemp_l.
  - intros j n Hj. apply lookup_app_Some in Hj as [Hj|[Hlen Hj]]; [by apply IHcol|].
    apply list_lookup_singleton_Some in Hj as [Hj <-].
    cbn [node_color]. rewrite IHidx.
    replace j with (length (Rev1.np_nodes (Rev1.nodePass allData sel tags st))) by lia.
    done.
Qed.

(** X15. The rotating colors of the earlier revision: with tag connections
    disabled the node at position j of the node array (counted from 0) has
    the color token random-color-(j mod 5 + 1), so the five tokens are
    handed out in turn, in corpus order. *)
Theorem Rev1_colors_rotate (allData : Corpus) (selectedNodes : Selection)
    (tags : TagIndex) (settings : GraphSettings) (j : nat) (n : GraphNode) :
  showTagConnections settings = false
  → (Rev1.generateGraphData allData selectedNodes tags settings).1 !! j = Some n
  → node_color n = "random-color-" +:+ pretty (j `mod` 5 + 1).
Proof.
  intros Hoff. unfold Rev1.generateGraphData.
  destruct (length selectedNodes =? 0); [done|]. simpl.
  by apply Rev1_nodePass_rotation.
Qed.

(** ** parseVault: the outbound links of a document *)

Lemma occurs_app c a b : occurs c (a +:+ b) = occurs c a || occurs c b.
Proof. induction a as [|c' a IH]; simpl; [done|]. by rewrite IH, orb_assoc. Qed.

Lemma untilClose_fst s : occurs "]" (untilClose s).1 = false.
Proof.
  induction s as [|c s IH]; simpl; [done|].
  destruct (Ascii.eqb c "]") eqn:Hc; simpl; [done|]. by rewrite Hc.
Qed.

Lemma untilClose_app a rest :
  occurs "]" a = false → untilClose (a +:+ String "]" rest) = (a, String "]" rest).
Proof.
  induction a as [|c a IH]; simpl; [done|].
  intros H. apply orb_false_iff in H as [Hc Ha]. rewrite Hc. by rewrite IH.
Qed.

Lemma beforeBar_no_bar s : occurs "|" (beforeBar s) = false.
Proof.
  induction s as [|c s IH]; simpl; [done|].
  destruct (Ascii.eqb c "|") eqn:Hc; simpl; [done|]. by rewrite Hc.
Qed.

Lemma beforeBar_keeps c s : occurs c s = false → occurs c (beforeBar s) = false.
Proof.
  induction s as [|c' s IH]; simpl; [done|].
  intros H. apply orb_false_iff in H as [Hc Hs].
  destruct (Ascii.eqb c' "|"); simpl; [done|]. by rewrite Hc, IH.
Qed.

Lemma beforeBar_id s : occurs "|" s = false → beforeBar s = s.
Proof.
  induction s as [|c s IH]; simpl; [done|].
  intros H. apply orb_false_iff in H as [Hc Hs]. by rewrite Hc, IH.
Qed.

Lemma beforeBar_app s alias :
  occurs "|" s = false → beforeBar (s +:+ String "|" alias) = s.
Proof.
  induction s as [|c s IH]; simpl; [done|].
  intros H. apply orb_false_iff in H as [Hc Hs]. by rewrite Hc, IH.
Qed.

Lemma matchLink_capture s capture len :
  matchLink s = Some (capture, len) → occurs "]" capture = false.
Proof.
  unfold matchLink. destruct (startsWith "[" "[" s) as [s'|]; [|done].
  destruct (0 <? String.length (untilClose s').1); [|done].
  destruct (startsWith "]" "]" (untilClose s').2); [|done].
  intros [= <- _]. apply untilClose_fst.
Qed.

Lemma matchAll_captures s skip capture :
  capture ∈ matchAll s skip → occurs "]" capture = false.
Proof.
  revert skip. induction s as [|c s IH]; intros skip; simpl.
  { intros H. by apply elem_of_nil in H. }
  destruct skip as [|k]; [|apply IH].
  destruct (matchLink (String c s)) as [[cap len]|] eqn:Hm; [|apply IH].
  intros H. apply elem_of_cons in H as [->|H]; [by eapply matchLink_capture | by eapply IH].
Qed.

Lemma matchAll_skip a s : matchAll (a +:+ s) (String.length a) = matchAll s 0.
Proof. induction a as [|c a IH]; simpl; [by destruct s | done]. Qed.

Lemma matchLink_no_open c s : Ascii.eqb c "[" = false → matchLink (String c s) = None.
Proof. unfold matchLink, startsWith. destruct s; [done|]. by intros ->. Qed.

Lemma matchAll_no_open a s : occurs "[" a = false → matchAll (a +:+ s) 0 = matchAll s 0.
Proof.
  induction a as [|c a IH]; simpl; [done|].
  intros H. apply orb_false_iff in H as [Hc Ha].
  change (String c (a +:+ s)) with (String c (a +:+ s)).
  by rewrite (matchLink_no_open c (a +:+ s) Hc), IH.
Qed.

Lemma length_append a b : String.length (a +:+ b) = String.length a + String.length b.
Proof. induction a as [|c a IH]; simpl; [done|]. by rewrite IH. Qed.

Lemma append_assoc a b c : (a +:+ b) +:+ c = a +:+ (b +:+ c).
Proof.
  induction a as [|x a IH]; [done|].
  change (String x ((a +:+ b) +:+ c) = String x (a +:+ (b +:+ c))). by rewrite IH.
Qed.

(** A well-formed link is matched where it starts, with all that stands
    between its brackets as the capture. *)
Lemma matchAll_link capture rest :
  capture ≠ "" → occurs "]" capture = false
  → matchAll ("[[" +:+ capture +:+ "]]" +:+ rest) 0 = capture :: matchAll rest 0.
Proof.
  intros Hne Hclose.
  change ("[[" +:+ capture +:+ "]]" +:+ rest)
    with (String "[" (String "[" (capture +:+ String "]" (String "]" rest)))).
  assert (matchLink (String "[" (String "[" (capture +:+ String "]" (String "]" rest))))
          = Some (capture, String.length capture + 4)) as Hm.
  { unfold matchLink. simpl startsWith. cbv iota.
    rewrite untilClose_app by done. simpl.
    destruct capture as [|c capture]; [done|]. done. }
  simpl matchAll. rewrite Hm. f_equal.
  replace (String.length capture + 4 - 1)
    with (String.length (String "[" (capture +:+ "]]")))
    by (simpl; rewrite length_append; simpl; lia).
  rewrite <- (matchAll_skip (String "[" (capture +:+ "]]")) rest).
  change (String "[" (capture +:+ "]]") +:+ rest)
    with (String "[" ((capture +:+ "]]") +:+ rest)).
  by rewrite append_assoc.
Qed.

Lemma append_nil_r s : s +:+ "" = s.
Proof.
  induction s as [|c s IH]; [done|].
  change (String c (s +:+ "") = String c s). by rewrite IH.
Qed.

Lemma elem_of_mapSet {V : Type} (k : string) (v : V) (m : list (string * V))
    (e : string * V) :
  e ∈ mapSet k v m → e = (k, v) ∨ e ∈ m.
Proof.
  induction m as [|[k' v'] m IH]; simpl.
  - intros H. apply list_elem_of_singleton in H. by left.
  - destruct (decide (k' = k)) as [->|Hne]; intros H.
    + apply elem_of_cons in H as [H|H]; [by left | right; by right].
    + apply elem_of_cons in H as [H|H]; [right; rewrite H; by left|].
      destruct (IH H) as [?|?]; [by left | right; by right].
Qed.

(** X16. The links parseVault records are plain targets.  Every entry of
    the corpus it returns stands for a file of the vault, under the path of
    the file, with the basename and the text of the file; its links are
    those read off that text, and none of them contains a closing bracket
    or a vertical bar. *)
Theorem parsed_links_are_plain (files : list (TFile * string)) (path : string)
    (fileSummary : FileSummary) :
  (path, fileSummary) ∈ parseVault files
  → (∃ f, (f, content fileSummary) ∈ files
          ∧ path = f_path f ∧ file fileSummary = f_basename f)
    ∧ links fileSummary = extractLinks (content fileSummary)
    ∧ ∀ link, link ∈ links fileSummary
              → occurs "]" link = false ∧ occurs "|" link = false.
Proof.
  intros Hin.
  assert ((∃ f, (f, content fileSummary) ∈ files
              ∧ path = f_path f ∧ file fileSummary = f_basename f)
          ∧ links fileSummary = extractLinks (content fileSummary)) as [Hfile Hlinks].
  { revert Hin. unfold parseVault.
    induction files as [|[f txt] files IH] using rev_ind.
    { intros H. by apply elem_of_nil in H. }
    rewrite foldl_snoc. intros H. apply elem_of_mapSet in H as [[= -> ->]|H].
    - simpl. split; [|done]. exists f. split; [|done]. apply elem_of_app. right. by left.
    - destruct (IH H) as [(f' & Hf' & ? & ?) ?]. split; [|done].
      exists f'. split; [|done]. apply elem_of_app. by left. }
  split; [done|]. split; [done|]. intros link Hlink. rewrite Hlinks in Hlink.
  unfold extractLinks in Hlink. apply list_elem_of_fmap in Hlink as (capture & -> & Hcap).
  split; [|apply beforeBar_no_bar].
  apply beforeBar_keeps. by eapply matchAll_captures.
Qed.

Lemma wikiLinkText_capture target alias rest :
  wikiLinkText target alias +:+ rest
  = "[[" +:+ (target +:+ match alias with
                         | Some a => String "|" a
                         | None => ""
                         end) +:+ "]]" +:+ rest.
Proof.
  unfold wikiLinkText. destruct alias as [a|].
  - change ("|" +:+ a) with (String "|" a). by rewrite !append_assoc.
  - by rewrite !append_assoc.
Qed.

Lemma beforeBar_target target (alias : option string) :
  occurs "|" target = false
  → beforeBar (target +:+ match alias with
                          | Some a => String "|" a
                          | None => ""
                          end) = target.
Proof.
  intros Hbar. destruct alias as [a|].
  - by apply beforeBar_app.
  - rewrite append_nil_r. by apply beforeBar_id.
Qed.

Lemma capture_well_formed target (alias : option string) :
  target ≠ "" → occurs "]" target = false
  → (∀ a, alias = Some a → occurs "]" a = false)
  → target +:+ match alias with
               | Some a => String "|" a
               | None => ""
               end ≠ ""
    ∧ occurs "]" (target +:+ match alias with
                             | Some a => String "|" a
                             | None => ""
                             end) = false.
Proof.
  intros Hne Hclose Halias. split.
  - destruct target; [done|]. done.
  - rewrite occurs_app, Hclose. simpl. destruct alias as [a|]; [|done].
    simpl. by apply Halias.
Qed.

(** X17. A wiki link in a text is read back as its target.  Let a text
    consist of a stretch without an opening bracket, then a link
    [[target]] or [[target|alias]] whose target is not empty and has
    neither a closing bracket nor a vertical bar, and whose alias has no
    closing bracket, then any rest.  Its links are the target followed by
    the links of the rest. *)
Theorem extractLinks_round_trip (before target rest : string) (alias : option string) :
  occurs "[" before = false
  → target ≠ ""
  → occurs "]" target = false
  → occurs "|" target = false
  → (∀ a, alias = Some a → occurs "]" a = false)
  → extractLinks (before +:+ wikiLinkText target alias +:+ rest)
    = target :: extractLinks rest.
Proof.
  intros Hbefore Hne Hclose Hbar Halias. unfold extractLinks.
  destruct (capture_well_formed target alias Hne Hclose Halias) as [Hcap Hnoclose].
  rewrite matchAll_no_open by done.
  rewrite wikiLinkText_capture, matchAll_link by done.
  rewrite fmap_cons. f_equal. by apply beforeBar_target.
Qed.

Lemma extractLinks_round_trip_witness :
  extractLinks ("see " +:+ wikiLinkText "notes/B" (Some "the B note") +:+ " and more")
  = "notes/B" :: extractLinks " and more".
Proof.
  apply (extractLinks_round_trip "see " "notes/B" " and more" (Some "the B note")).
  - reflexivity.
  - discriminate.
  - reflexivity.
  - reflexivity.
  - intros a [= <-]. reflexivity.
Defined.

(** ** toggleFileSelection *)

(** X19. Toggling a file twice gives back the same set, not always the
    same order: a file that was not selected is added at the end and
    removed again, which leaves the selection as it was; a file that was
    selected is removed and added again at the end, so it is now the last
    of the selection, on whose order the groups of untagged documents and
    the order of the nodes depend. *)
Theorem toggle_twice (filePath : string) (selectedNodes : Selection) :
  (∀ x, x ∈ toggleFileSelection filePath (toggleFileSelection filePath selectedNodes)
        ↔ x ∈ selectedNodes)
  ∧ (filePath ∉ selectedNodes
     → toggleFileSelection filePath (toggleFileSelection filePath selectedNodes)
       = selectedNodes)
  ∧ (filePath ∈ selectedNodes
     → toggleFileSelection filePath (toggleFileSelection filePath selectedNodes)
       = setDelete filePath selectedNodes ++ [filePath]).
Proof.
  assert (filePath ∉ setDelete filePath selectedNodes) as Hgone.
  { unfold setDelete. intros H. by apply list_elem_of_filter in H as [? _]. }
  assert (filePath ∉ selectedNodes
          → toggleFileSelection filePath (toggleFileSelection filePath selectedNodes)
            = selectedNodes) as Hout.
  { intros Hout. unfold toggleFileSelection at 2. rewrite decide_False by done.
    unfold setAdd. rewrite decide_False by done. unfold toggleFileSelection.
    rewrite decide_True by (apply elem_of_app; right; by left).
    unfold setDelete. rewrite filter_app, filter_cons_False, filter_nil, app_nil_r
      by (by intros ?).
    apply filter_all. intros y Hy ->. done. }
  assert (filePath ∈ selectedNodes
          → toggleFileSelection filePath (toggleFileSelection filePath selectedNodes)
            = setDelete filePath selectedNodes ++ [filePath]) as Hin.
  { intros Hin. unfold toggleFileSelection at 2. rewrite decide_True by done.
    unfold toggleFileSelection. rewrite decide_False by done.
    unfold setAdd. by rewrite decide_False by done. }
  split; [|done]. intros x. destruct (decide (filePath ∈ selectedNodes)) as [Hp|Hp].
  - rewrite Hin by done. rewrite elem_of_app, list_elem_of_singleton.
    unfold setDelete. rewrite list_elem_of_filter.
    destruct (decide (x = filePath)) as [->|]; tauto.
  - by rewrite Hout.
Qed.

(** ** The tags renderTagList shows *)







(** ** The layout settles *)

(** X13. The layout settles.  After restartSimulation on a handle that
    has a simulation with the parameters the class gives it (alpha decay
    0.1, alpha minimum 0.001, alpha target 0), the next 59 timer frames
    each call the tick listener, the 59th stops the timer, and no later
    frame calls the listener again. *)
Theorem layout_settles (r : Renderer) (s : Simulation) (k : nat) :
  simulation r = Some s
  → sim_alphaMin s = 1 # 1000
  → sim_alphaDecay s = 1 # 10
  → sim_alphaTarget s = 0%Q
  → simulating (Nat.iter 58 timerFrame (restartSimulation r)) = true
    ∧ simulating (Nat.iter 59 timerFrame (restartSimulation r)) = false
    ∧ tickCalls (Nat.iter (59 + k) timerFrame (restartSimulation r)) = 59 + tickCalls r.
Proof.
  intros Hs Hmin Hdecay Htarget. unfold restartSimulation. rewrite Hs.
  destruct s as [running alpha alphaMin alphaDecay alphaTarget center].
  simpl in Hmin, Hdecay, Htarget. subst alphaMin alphaDecay alphaTarget.
  split; [by vm_compute|]. split; [by vm_compute|].
  rewrite Nat.add_comm, Nat.iter_add.
  assert (∀ r', simulating r' = false → Nat.iter k timerFrame r' = r') as Hidle.
  { intros r' Hr'. induction k as [|k' IH]; [done|]. simpl. rewrite IH.
    unfold timerFrame. unfold simulating in Hr'.
    destruct (simulation r') as [s'|]; [|done]. by rewrite Hr'. }
  rewrite Hidle by (by vm_compute). by vm_compute.
Qed.

(** ** TagManager.extractAndUpdateTags *)

Lemma getEntry_app {V : Type} (t : string) (m1 m2 : list (string * V)) :
  getEntry t (m1 ++ m2) = orElse (getEntry t m1) (getEntry t m2).
Proof.
  induction m1 as [|[k v] m1 IH]; [done|]. simpl.
  by destruct (decide (k = t)).
Qed.

Lemma getEntry_alterEntry {V : Type} (k t : string) (f : V → V) (m : list (string * V)) :
  getEntry t (alterEntry k f m)
  = if decide (t = k) then f <$> getEntry t m else getEntry t m.
Proof.
  unfold alterEntry. induction m as [|[k' v] m IH].
  { simpl. by destruct (decide (t = k)). }
  rewrite fmap_cons. cbn [fst snd].
  destruct (decide (k' = k)) as [->|Hne]; cbn [getEntry fst snd].
  - destruct (decide (k = t)) as [->|Hkt].
    + by rewrite decide_True by done.
    + exact IH.
  - destruct (decide (k' = t)) as [->|Hkt].
    + by rewrite decide_False by done.
    + exact IH.
Qed.

Lemma valid_tagName t :
  (0 <? String.length t) && negb (bool_decide (t ∈ falsePositives)) = true
  ↔ t ≠ "" ∧ (t ∉ falsePositives).
Proof.
  rewrite andb_true_iff, negb_true_iff, bool_decide_eq_false, Nat.ltb_lt.
  destruct t; simpl; split; intros [? ?]; split; try done; lia.
Qed.

(** What one match does to the entry of a name. *)
Lemma getEntry_tagMatch oldTags settingsTags now path newTags tagName t :
  getEntry t (tagMatch oldTags settingsTags now path newTags tagName)
  = if (0 <? String.length tagName) && negb (bool_decide (tagName ∈ falsePositives))
    then if decide (t = tagName)
         then Some (recordFile path now
                      (default
                         (newTagData
                            (orElse (getEntry tagName oldTags) (settingsTags !! tagName))
                            tagName (length newTags) now)
                         (getEntry tagName newTags)))
         else getEntry t newTags
    else getEntry t newTags.
Proof.
  unfold tagMatch.
  destruct ((0 <? String.length tagName) && negb (bool_decide (tagName ∈ falsePositives)));
    [|done].
  cbv zeta. rewrite getEntry_alterEntry.
  destruct (decide (t = tagName)) as [->|Hne].
  - destruct (getEntry tagName newTags) as [x|] eqn:Hx; [by rewrite Hx|].
    rewrite getEntry_app, Hx. simpl. by rewrite decide_True by done.
  - destruct (getEntry tagName newTags) as [x|] eqn:Hx; [done|].
    rewrite getEntry_app. simpl. rewrite decide_False by done.
    by destruct (getEntry t newTags).
Qed.

Lemma recordFile_files path now tagData :
  (∃ added, td_files (recordFile path now tagData) = td_files tagData ++ added
            ∧ ∀ f, f ∈ added → f = path)
  ∧ path ∈ td_files (recordFile path now tagData)
  ∧ (td_count tagData = length (td_files tagData)
     → td_count (recordFile path now tagData)
       = length (td_files (recordFile path now tagData))).
Proof.
  unfold recordFile. destruct (bool_decide (path ∈ td_files tagData)) eqn:Hin.
  - apply bool_decide_eq_true in Hin. split; [|done].
    exists []. split; [by rewrite app_nil_r|]. intros f Hf. by apply elem_of_nil in Hf.
  - simpl. split; [|split; [apply elem_of_app; right; by left | done]].
    exists [path]. split; [done|]. intros f Hf. by apply list_elem_of_singleton in Hf.
Qed.

Lemma tagsInv_step oldTags settingsTags now ms newTags path tagName :
  tagsInv oldTags settingsTags ms newTags
  → tagsInv oldTags settingsTags (ms ++ [(path, tagName)])
      (tagMatch oldTags settingsTags now path newTags tagName).
Proof.
  intros [Hkept Hlisted]. split.
  - intros t tag. rewrite getEntry_tagMatch.
    destruct ((0 <? String.length tagName) && negb (bool_decide (tagName ∈ falsePositives)))
      eqn:Hvalid.
    2:{ intros H. destruct (Hkept t tag H) as (? & ? & (p & ?) & (added & ? & Hadded) & ?).
        repeat split; try done.
        - exists p. apply elem_of_app. by left.
        - exists added. split; [done|]. intros f Hf. apply elem_of_app. left.
          by apply Hadded. }
    apply valid_tagName in Hvalid as [Hne Hfp].
    destruct (decide (t = tagName)) as [->|Hdiff].
    2:{ intros H. destruct (Hkept t tag H) as (? & ? & (p & ?) & (added & ? & Hadded) & ?).
        repeat split; try done.
        - exists p. apply elem_of_app. by left.
        - exists added. split; [done|]. intros f Hf. apply elem_of_app. left.
          by apply Hadded. }
    intros [= <-]. split; [done|]. split; [done|].
    split; [exists path; apply elem_of_app; right; by left|].
    set (base := default _ (getEntry tagName newTags)).
    assert ((∃ added, td_files base = oldFiles oldTags settingsTags tagName ++ added
                      ∧ ∀ f, f ∈ added → (f, tagName) ∈ ms)
            ∧ td_count base = length (td_files base)) as [(added & Hfiles & Hadded) Hcount].
    { unfold base. destruct (getEntry tagName newTags) as [x|] eqn:Hx; simpl.
      - by destruct (Hkept tagName x Hx) as (_ & _ & _ & ? & ?).
      - unfold oldFiles.
        destruct (orElse (getEntry tagName oldTags) (settingsTags !! tagName)); simpl.
        + split; [|done]. exists []. split; [by rewrite app_nil_r|].
          intros f Hf. by apply elem_of_nil in Hf.
        + split; [|done]. exists []. split; [done|].
          intros f Hf. by apply elem_of_nil in Hf. }
    destruct (recordFile_files path now base) as ((more & Hmore & Hpath) & _ & Hc).
    split; [|by apply Hc].
    exists (added ++ more). split; [by rewrite Hmore, Hfiles, app_assoc|].
    intros f Hf. apply elem_of_app in Hf as [Hf|Hf].
    + apply elem_of_app. left. by apply Hadded.
    + apply Hpath in Hf as ->. apply elem_of_app. right. by left.
  - intros p t Hin Hne Hfp. rewrite getEntry_tagMatch.
    destruct ((0 <? String.length tagName) && negb (bool_decide (tagName ∈ falsePositives)))
      eqn:Hvalid.
    2:{ apply elem_of_app in Hin as [Hin|Hin]; [by apply Hlisted|].
        apply list_elem_of_singleton in Hin as [= -> ->].
        assert ((0 <? String.length tagName)
                && negb (bool_decide (tagName ∈ falsePositives)) = true) as Hv
          by (by apply valid_tagName).
        congruence. }
    destruct (decide (t = tagName)) as [->|Hdiff].
    2:{ apply elem_of_app in Hin as [Hin|Hin]; [by apply Hlisted|].
        apply list_elem_of_singleton in Hin as [= -> ->]. done. }
    eexists. split; [done|].
    set (base := default _ (getEntry tagName newTags)).
    destruct (recordFile_files path now base) as ((more & Hmore & _) & Hpath & _).
    apply elem_of_app in Hin as [Hin|Hin].
    + destruct (Hlisted p tagName Hin Hne Hfp) as (x & Hx & Hp).
      rewrite Hmore. apply elem_of_app. left. unfold base. by rewrite Hx.
    + apply list_elem_of_singleton in Hin as [= ->]. done.
Qed.

Section tagManagerProps.
Variable tagsOf : FileSummary → list string.

Lemma extractAndUpdateTags_matches oldTags settingsTags now data :
  extractAndUpdateTags tagsOf oldTags settingsTags now data
  = foldl (λ newTags m, tagMatch oldTags settingsTags now m.1 newTags m.2) []
      (allMatches tagsOf data).
Proof.
  unfold extractAndUpdateTags, allMatches. generalize (@nil (string * TagData)).
  induction data as [|e data IH]; intros acc; [done|].
  rewrite bind_cons, foldl_app. simpl. rewrite IH. f_equal.
  generalize acc. induction (tagsOf e.2) as [|t ts IHt]; intros acc'; [done|].
  rewrite fmap_cons. simpl. apply IHt.
Qed.

Lemma elem_of_allMatches data p t :
  (p, t) ∈ allMatches tagsOf data ↔ ∃ fs, (p, fs) ∈ data ∧ t ∈ tagsOf fs.
Proof.
  unfold allMatches. rewrite list_elem_of_bind. split.
  - intros ([k fs] & Hin & He). apply list_elem_of_fmap in Hin as (t' & [= -> ->] & Ht).
    by exists fs.
  - intros (fs & He & Ht). exists (p, fs). split; [|done].
    apply list_elem_of_fmap. by exists t.
Qed.

Lemma extractAndUpdateTags_inv oldTags settingsTags now data :
  tagsInv oldTags settingsTags (allMatches tagsOf data)
    (extractAndUpdateTags tagsOf oldTags settingsTags now data).
Proof.
  rewrite extractAndUpdateTags_matches.
  induction (allMatches tagsOf data) as [|[p t] ms IH] using rev_ind.
  - split; [done|]. intros p t H. by apply elem_of_nil in H.
  - rewrite foldl_snoc. by apply tagsInv_step.
Qed.

(** X21. A tag never loses a file.  After extractAndUpdateTags the files
    of every tag of the map are the files the tag of that name had before
    (in the map, or else in the saved settings), in their order, followed
    by documents of the data that carry the tag now; its count is the
    number of its files.  So a document that no longer carries the tag
    stays among the files of the tag as long as some document carries it.
    A tag of the map has a name that is not empty and no false positive,
    and some document of the data carries it. *)
Theorem tag_never_loses_a_file (oldTags : list (string * TagData))
    (settingsTags : gmap string TagData) (now : nat) (data : Corpus)
    (t : string) (tag : TagData) :
  getEntry t (extractAndUpdateTags tagsOf oldTags settingsTags now data) = Some tag
  → t ≠ "" ∧ (t ∉ falsePositives)
    ∧ (∃ path fs, (path, fs) ∈ data ∧ t ∈ tagsOf fs)
    ∧ (∃ added : list string,
         td_files tag = oldFiles oldTags settingsTags t ++ added
         ∧ ∀ f, f ∈ added → ∃ fs, (f, fs) ∈ data ∧ t ∈ tagsOf fs)
    ∧ td_count tag = length (td_files tag).
Proof.
  intros H. destruct (extractAndUpdateTags_inv oldTags settingsTags now data) as [Hkept _].
  destruct (Hkept t tag H) as (? & ? & (p & Hp) & (added & ? & Hadded) & ?).
  repeat split; try done.
  - apply elem_of_allMatches in Hp as (fs & ? & ?). by exists p, fs.
  - exists added. split; [done|]. intros f Hf. by apply elem_of_allMatches, Hadded.
Qed.

(** X22. A tag lists every document that carries it.  After
    extractAndUpdateTags, for every document of the data and every name
    matched in it that is not empty and no false positive, the map has a
    tag of that name and the path of the document is among its files. *)
Theorem carried_tag_lists_document (oldTags : list (string * TagData))
    (settingsTags : gmap string TagData) (now : nat) (data : Corpus)
    (path : string) (fileSummary : FileSummary) (t : string) :
  (path, fileSummary) ∈ data
  → t ∈ tagsOf fileSummary
  → t ≠ ""
  → t ∉ falsePositives
  → ∃ tag : TagData,
      getEntry t (extractAndUpdateTags tagsOf oldTags settingsTags now data) = Some tag
      ∧ path ∈ td_files tag.
Proof.
  intros Hin Ht Hne Hfp.
  destruct (extractAndUpdateTags_inv oldTags settingsTags now data) as [_ Hlisted].
  apply Hlisted; [|done|done]. apply elem_of_allMatches. by exists fileSummary.
Qed.

End tagManagerProps.

(** ** From the text of a file to an edge *)

Lemma foldl_mapSet_fmap {A V : Type} (key : A → string) (val : A → V) (l : list A) :
  NoDup (key <$> l)
  → foldl (λ m x, mapSet (key x) (val x) m) [] l = (λ x, (key x, val x)) <$> l.
Proof.
  induction l as [|x l IH] using rev_ind; [done|].
  rewrite fmap_app, NoDup_app. intros (Hnd & Hfresh & _).
  rewrite foldl_snoc, fmap_app, IH by done. apply mapSet_fresh.
  rewrite <- list_fmap_compose. intros H. apply (Hfresh _ H). by left.
Qed.

Lemma parseVault_fmap files :
  NoDup (f_path <$> files.*1)
  → parseVault files
    = (λ ft, (f_path ft.1,
              {| file := f_basename ft.1; content := ft.2; links := extractLinks ft.2 |}))
        <$> files.
Proof.
  intros Hnd. unfold parseVault.
  apply (foldl_mapSet_fmap (λ ft, f_path ft.1)
           (λ ft, {| file := f_basename ft.1; content := ft.2;
                     links := extractLinks ft.2 |})).
  rewrite <- list_fmap_compose in Hnd. exact Hnd.
Qed.

Lemma parseVault_keys files :
  NoDup (f_path <$> files.*1) → NoDup (parseVault files).*1.
Proof.
  intros Hnd. rewrite parseVault_fmap by done.
  rewrite <- list_fmap_compose in Hnd. rewrite <- list_fmap_compose. exact Hnd.
Qed.

(** X18. A wiki link in the text of a file is drawn.  Let the corpus be
    what parseVault reads from files of distinct paths, with no basename
    equal to a selected path.  If the text of a selected file consists of a
    stretch without an opening bracket, a well-formed link [[target]] or
    [[target|alias]] and any rest, and the target resolves (by basename,
    path, or path without the extension) to a selected document of another
    basename, then the build has an edge that joins the two basenames. *)
Theorem link_in_text_is_drawn (files : list (TFile * string)) (selectedNodes : Selection)
    (tags : TagIndex) (settings : GraphSettings) (f : TFile)
    (before target rest : string) (alias : option string)
    (targetPath : string) (targetFile : FileSummary) :
  NoDup (f_path <$> files.*1)
  → basenamesApart (parseVault files) selectedNodes
  → (f, before +:+ wikiLinkText target alias +:+ rest) ∈ files
  → f_path f ∈ selectedNodes
  → occurs "[" before = false
  → target ≠ ""
  → occurs "]" target = false
  → occurs "|" target = false
  → (∀ a, alias = Some a → occurs "]" a = false)
  → findTarget (parseVault files) (stripMd target) = Some (targetPath, targetFile)
  → targetPath ∈ selectedNodes
  → f_basename f ≠ file targetFile
  → ∃ l, l ∈ (generateGraphData (parseVault files) selectedNodes tags settings).2
         ∧ joins l (f_basename f) (file targetFile).
Proof.
  intros Hnd Hapart Hin Hsel Hbefore Hne Hclose Hbar Halias Hfind Htsel Hdiff.
  assert (NoDup (parseVault files).*1) as Hkeys.
  { by apply parseVault_keys. }
  set (txt := before +:+ wikiLinkText target alias +:+ rest) in *.
  assert (getEntry (f_path f) (parseVault files)
          = Some {| file := f_basename f; content := txt; links := extractLinks txt |})
    as Hentry.
  { apply getEntry_elem_of; [done|]. rewrite parseVault_fmap by done.
    apply list_elem_of_fmap. by exists (f, txt). }
  assert (linksTo (parseVault files) selectedNodes (f_basename f) (file targetFile))
    as Hlinks.
  { eexists (f_path f), _, target, targetPath, targetFile.
    split; [done|]. split; [exact Hentry|]. simpl. split; [|done].
    unfold txt, extractLinks.
    destruct (capture_well_formed target alias Hne Hclose Halias) as [Hcap Hnoclose].
    rewrite matchAll_no_open by done.
    rewrite wikiLinkText_capture, matchAll_link by done.
    rewrite fmap_cons, beforeBar_target by done. by left. }
  destruct (linksTo_attempted _ _ tags settings Hkeys Hapart _ _ Hlinks)
    as (l & Hl & Ha & Hb).
  by apply (attempted_joined _ _ tags settings l).
Qed.

(** ** The theorems at sample inputs *)

Lemma parsed_links_are_plain_witness :
  (∃ f, (f, content parsedA) ∈ vaultFiles
        ∧ "A.md" = f_path f ∧ file parsedA = f_basename f)
  ∧ links parsedA = extractLinks (content parsedA)
  ∧ ∀ link, link ∈ links parsedA → occurs "]" link = false ∧ occurs "|" link = false.
Proof.
  apply (parsed_links_are_plain vaultFiles "A.md" parsedA). vm_compute. left.
Defined.

Lemma link_in_text_is_drawn_witness :
  ∃ l, l ∈ (generateGraphData (parseVault vaultFiles) ["A.md"; "B.md"] []
              (defaultSettings false)).2
       ∧ joins l (f_basename fileA) (file parsedB).
Proof.
  apply (link_in_text_is_drawn vaultFiles ["A.md"; "B.md"] [] (defaultSettings false)
           fileA "see " "B" "" (Some "the B note") "B.md" parsedB).
  - apply (bool_decide_unpack (NoDup (f_path <$> vaultFiles.*1))). by vm_compute.
  - apply (bool_decide_unpack (basenamesApart (parseVault vaultFiles) ["A.md"; "B.md"])).
    by vm_compute.
  - vm_compute. left.
  - by left.
  - reflexivity.
  - discriminate.
  - reflexivity.
  - reflexivity.
  - intros a [= <-]. reflexivity.
  - reflexivity.
  - right. by left.
  - discriminate.
Defined.



Lemma Rev1_colors_rotate_witness :
  node_color rev1NodeB = "random-color-" +:+ pretty (1 `mod` 5 + 1).
Proof.
  apply (Rev1_colors_rotate chainCorpus chainSelection [] (defaultSettings false) 1
           rev1NodeB).
  - reflexivity.
  - by vm_compute.
Defined.

Lemma layout_settles_witness :
  simulating (Nat.iter 58 timerFrame (restartSimulation taggedPairRenderer)) = true
  ∧ simulating (Nat.iter 59 timerFrame (restartSimulation taggedPairRenderer)) = false
  ∧ tickCalls (Nat.iter (59 + 1) timerFrame (restartSimulation taggedPairRenderer))
    = 59 + tickCalls taggedPairRenderer.
Proof.
  apply (layout_settles taggedPairRenderer freshSimulation 1); reflexivity.
Defined.

Lemma tag_never_loses_a_file_witness :
  "x" ≠ "" ∧ ("x" ∉ falsePositives)
  ∧ (∃ path fs, (path, fs) ∈ taggedPairCorpus ∧ "x" ∈ sampleTagsOf fs)
  ∧ (∃ added : list string,
       td_files tagXAfter = oldFiles sampleTagMap ∅ "x" ++ added
       ∧ ∀ f, f ∈ added → ∃ fs, (f, fs) ∈ taggedPairCorpus ∧ "x" ∈ sampleTagsOf fs)
  ∧ td_count tagXAfter = length (td_files tagXAfter).
Proof.
  apply (tag_never_loses_a_file sampleTagsOf sampleTagMap ∅ 7 taggedPairCorpus "x"
           tagXAfter).
  by vm_compute.
Defined.

Lemma carried_tag_lists_document_witness :
  ∃ tag : TagData,
    getEntry "x" (extractAndUpdateTags sampleTagsOf sampleTagMap ∅ 7 taggedPairCorpus)
    = Some tag
    ∧ "A.md" ∈ td_files tag.
Proof.
  apply (carried_tag_lists_document sampleTagsOf sampleTagMap ∅ 7 taggedPairCorpus
           "A.md" (summary "A" []) "x").
  - by left.
  - by left.
  - discriminate.
  - apply (bool_decide_unpack ("x" ∉ falsePositives)). by vm_compute.
Defined.
